(** * The debate viewer: state document, markdown renderers, page and client

    A shallow embedding of [viewer/build_viewer.py]: the persisted state
    document and the command-line operations on it, the server-side markdown
    renderer ([inline_format], [md_to_html]), the page builder ([build_html])
    and the client script embedded in the page ([inlineFmt], [mdToHtml],
    [applyUpdate]).

    A Python [str] is a sequence of Unicode code points; a character is
    modelled by its code point and a text by the list of its characters.  The
    client script sees the same texts (for characters outside the Basic
    Multilingual Plane as surrogate pairs, which none of the patterns below
    tells apart from one character). *)

From Stdlib Require Import List String Ascii Bool Arith NArith ZArith Lia.
From Stdlib Require Import DecimalString.
From Stdlib Require DecimalPos.
Import ListNotations.

Local Open Scope N_scope.

(** ** Characters and texts *)

Definition char := N.
Definition text := list char.

(** The text of an ASCII literal. *)
Definition txt (s : string) : text :=
  map N_of_ascii (list_ascii_of_string s).

(** The double quote, and a text between double quotes. *)
Definition dq : char := 34.
Definition quoted (t : text) : text := dq :: t ++ [dq].

Definition nl : char := 10.

(** The text of an HTML literal of the source, written here with single
    quotes where the source has double quotes (no literal of the source that
    is written this way contains a single quote). *)
Definition html (s : string) : text :=
  map (fun c => if c =? 39 then dq else c) (txt s).

Fixpoint text_eqb (a b : text) : bool :=
  match a, b with
  | [], [] => true
  | x :: a', y :: b' => (x =? y) && text_eqb a' b'
  | _, _ => false
  end.

Definition is_empty (t : text) : bool :=
  match t with [] => true | _ => false end.

Definition is_nil {A} (l : list A) : bool :=
  match l with [] => true | _ => false end.

(** Python's and JavaScript's truthiness of a string: the empty string is
    falsy. *)
Definition truthy (t : text) : bool := negb (is_empty t).

(** Truthiness of an optional argument ([None] and the empty string are
    falsy). *)
Definition truthy_opt (o : option text) : bool :=
  match o with Some t => truthy t | None => false end.

Fixpoint startswith (p s : text) : bool :=
  match p with
  | [] => true
  | a :: p' =>
      match s with
      | c :: s' => (a =? c) && startswith p' s'
      | [] => false
      end
  end.

(** [c in s] for one character. *)
Definition contains_char (c : char) (s : text) : bool :=
  existsb (N.eqb c) s.

(** [s.split(sep)] for a one-character separator: never empty, one more
    field than there are separators. *)
Fixpoint split (sep : char) (s : text) : list text :=
  match s with
  | [] => [[]]
  | c :: s' =>
      if c =? sep then [] :: split sep s'
      else match split sep s' with
           | h :: t => (c :: h) :: t
           | [] => [[c]]
           end
  end.

(** [sep.join(parts)]. *)
Fixpoint join (sep : text) (parts : list text) : text :=
  match parts with
  | [] => []
  | [p] => p
  | p :: rest => p ++ sep ++ join sep rest
  end.

(** [l[1:-1]]: the list without its first and last elements. *)
Definition slice_1_m1 {A} (l : list A) : list A :=
  removelast (tl l).

Fixpoint dropwhile (p : char -> bool) (s : text) : text :=
  match s with
  | c :: s' => if p c then dropwhile p s' else s
  | [] => []
  end.

(** Removal of leading and trailing characters of a class. *)
Definition strip_class (p : char -> bool) (s : text) : text :=
  rev (dropwhile p (rev (dropwhile p s))).

Definition in_range (lo hi c : char) : bool := (lo <=? c) && (c <=? hi).

(** Python: the characters for which [str.isspace] holds; [str.strip] and the
    pattern class [\s] of a [str] pattern use this set. *)
Definition py_isspace (c : char) : bool :=
  in_range 9 13 c || in_range 28 32 c || (c =? 133) || (c =? 160)
  || (c =? 5760) || in_range 8192 8202 c || (c =? 8232) || (c =? 8233)
  || (c =? 8239) || (c =? 8287) || (c =? 12288).

(** JavaScript: WhiteSpace and LineTerminator; [String.prototype.trim] and the
    pattern class [\s] use this set. *)
Definition js_isspace (c : char) : bool :=
  in_range 9 13 c || (c =? 32) || (c =? 160)
  || (c =? 5760) || in_range 8192 8202 c || (c =? 8232) || (c =? 8233)
  || (c =? 8239) || (c =? 8287) || (c =? 12288) || (c =? 65279).

(** The ten ASCII digits: JavaScript's [\d]. *)
Definition ascii_digit (c : char) : bool := in_range 48 57 c.

(** Lower-casing of the ASCII letters only. *)
Definition ascii_lower (t : text) : text :=
  map (fun c => if in_range 65 90 c then c + 32 else c) t.

(** ** Backtracking patterns

    The fragment of the regular-expression language that the program's
    patterns use: literals, character classes, bounded and unbounded
    repetition of a class (greedy or lazy), capturing groups, an optional
    non-capturing group, and the two anchors. *)

Inductive quant := Greedy | Lazy.

Inductive re :=
| Bos                                   (* ^ *)
| Eos (before_final_nl : bool)          (* $ *)
| Chr (p : char -> bool)                (* one character of a class *)
| Lit (l : text)                        (* a literal *)
| Rep (q : quant) (lo : nat) (hi : option nat) (p : char -> bool)
                                        (* p{lo,hi}, p{lo,} *)
| Seq (r1 r2 : re)
| Grp (i : nat) (r : re)                (* ( r ), group number i *)
| Opt (r : re).                         (* (?: r )? *)

Declare Scope re_scope.
Delimit Scope re_scope with re.
Bind Scope re_scope with re.
Infix ";;" := Seq (at level 61, right associativity) : re_scope.

Definition Star (p : char -> bool) : re := Rep Greedy 0 None p.
Definition Plus (p : char -> bool) : re := Rep Greedy 1 None p.
Definition PlusLazy (p : char -> bool) : re := Rep Lazy 1 None p.

(** Character classes. *)
Definition one_of (a : string) : char -> bool :=
  fun c => contains_char c (txt a).
Definition none_of (a : string) : char -> bool :=
  fun c => negb (contains_char c (txt a)).
Definition other_than (a : char) : char -> bool :=
  fun c => negb (c =? a).

(** Captured groups, most recent first. *)
Definition caps := list (nat * text).

Fixpoint group (g : caps) (i : nat) : option text :=
  match g with
  | [] => None
  | (j, t) :: g' => if Nat.eqb i j then Some t else group g' i
  end.

(** A group in a replacement template ([\1], [$1]): the empty text when the
    group took no part in the match. *)
Definition grp (g : caps) (i : nat) : text :=
  match group g i with Some t => t | None => [] end.

(** The result of a match: the end position, the rest of the input and the
    groups. *)
Definition res := (nat * text * caps)%type.

Definition can_more (hi : option nat) : bool :=
  match hi with Some O => false | _ => true end.

Fixpoint lit (l : text) (pos : nat) (s : text)
    (k : nat -> text -> option res) : option res :=
  match l with
  | [] => k pos s
  | a :: l' =>
      match s with
      | c :: s' => if a =? c then lit l' (S pos) s' k else None
      | [] => None
      end
  end.

(** Greedy repetition: as many characters as possible first, one fewer on
    each failure of the rest of the pattern. *)
Fixpoint rep_greedy (p : char -> bool) (lo : nat) (hi : option nat)
    (pos : nat) (s : text) (k : nat -> text -> option res) : option res :=
  match
    match s with
    | c :: s' =>
        if p c && can_more hi
        then rep_greedy p (pred lo) (option_map pred hi) (S pos) s' k
        else None
    | [] => None
    end
  with
  | Some r => Some r
  | None => if Nat.eqb lo 0 then k pos s else None
  end.

(** Lazy repetition: as few characters as possible first. *)
Fixpoint rep_lazy (p : char -> bool) (lo : nat) (hi : option nat)
    (pos : nat) (s : text) (k : nat -> text -> option res) : option res :=
  match (if Nat.eqb lo 0 then k pos s else None) with
  | Some r => Some r
  | None =>
      match s with
      | c :: s' =>
          if p c && can_more hi
          then rep_lazy p (pred lo) (option_map pred hi) (S pos) s' k
          else None
      | [] => None
      end
  end.

Definition at_end (before_final_nl : bool) (s : text) : bool :=
  match s with
  | [] => true
  | [c] => before_final_nl && (c =? nl)
  | _ => false
  end.

(** [exec r pos s g k]: match [r] at position [pos], where the input from
    there on is [s], then continue with [k]. *)
Fixpoint exec (r : re) (pos : nat) (s : text) (g : caps)
    (k : nat -> text -> caps -> option res) : option res :=
  match r with
  | Bos => if Nat.eqb pos 0 then k pos s g else None
  | Eos b => if at_end b s then k pos s g else None
  | Chr p =>
      match s with
      | c :: s' => if p c then k (S pos) s' g else None
      | [] => None
      end
  | Lit l => lit l pos s (fun pos' s' => k pos' s' g)
  | Rep Greedy lo hi p => rep_greedy p lo hi pos s (fun pos' s' => k pos' s' g)
  | Rep Lazy lo hi p => rep_lazy p lo hi pos s (fun pos' s' => k pos' s' g)
  | Seq r1 r2 => exec r1 pos s g (fun pos' s' g' => exec r2 pos' s' g' k)
  | Grp i r1 =>
      exec r1 pos s g
        (fun pos' s' g' => k pos' s' ((i, firstn (pos' - pos) s) :: g'))
  | Opt r1 =>
      match exec r1 pos s g k with
      | Some x => Some x
      | None => k pos s g
      end
  end.

(** A match that starts at position [pos]. *)
Definition match_at (r : re) (pos : nat) (s : text) : option res :=
  exec r pos s [] (fun e s' g => Some (e, s', g)).

(** Python's [re.match]: a match at the start of the text. *)
Definition re_match (r : re) (s : text) : option caps :=
  match match_at r 0 s with
  | Some (_, _, g) => Some g
  | None => None
  end.

(** The leftmost match at or after [pos]. *)
Fixpoint search_from (r : re) (pos : nat) (s : text) : option caps :=
  match match_at r pos s with
  | Some (_, _, g) => Some g
  | None =>
      match s with
      | [] => None
      | _ :: s' => search_from r (S pos) s'
      end
  end.

(** JavaScript's [s.match(r)] and [r.test(s)] for a pattern without the
    global flag: the leftmost match. *)
Definition re_search (r : re) (s : text) : option caps := search_from r 0 s.

(** [re.sub(r, repl, s)] and [s.replace(/r/g, repl)]: every leftmost
    non-overlapping match is replaced.  [skip] counts the characters of the
    current match that are still to be passed over. *)
Fixpoint sub_from (r : re) (repl : caps -> text) (skip : nat) (pos : nat)
    (s : text) : text :=
  match s with
  | [] => []
  | c :: s' =>
      match skip with
      | S n => sub_from r repl n (S pos) s'
      | O =>
          match match_at r pos s with
          | Some (e, _, g) =>
              if Nat.eqb e pos
              then repl g ++ c :: sub_from r repl 0 (S pos) s'
              else repl g ++ sub_from r repl (e - pos - 1) (S pos) s'
          | None => c :: sub_from r repl 0 (S pos) s'
          end
      end
  end.

Definition re_sub (r : re) (repl : caps -> text) (s : text) : text :=
  sub_from r repl 0 0 s.

(** Decimal numerals, as [str(n)] and JavaScript's number-to-string
    conversion print an integer. *)
Definition dec_nat (n : nat) : text :=
  txt (NilZero.string_of_uint (Nat.to_uint n)).
Definition dec_Z (z : Z) : text :=
  txt (NilZero.string_of_int (Z.to_int z)).

(** ** The two pattern dialects

    The classes and the anchor whose meaning differs between Python's [re]
    and JavaScript's regular expressions. *)

Record dialect := {
  ws : char -> bool;        (* \s *)
  dot : char -> bool;       (* . *)
  dollar : re               (* $ *)
}.

(** Python: [.] is any character but a newline (no DOTALL flag), [$] matches
    at the end and before a newline that ends the text. *)
Definition Python : dialect :=
  {| ws := py_isspace;
     dot := fun c => negb (c =? 10);
     dollar := Eos true |}.

(** JavaScript: [.] is any character but a line terminator, [$] matches at
    the end only (no multiline flag). *)
Definition JavaScript : dialect :=
  {| ws := js_isspace;
     dot := fun c =>
              negb ((c =? 10) || (c =? 13) || (c =? 8232) || (c =? 8233));
     dollar := Eos false |}.

(** [str.strip()] and [String.prototype.trim()]. *)
Definition strip (d : dialect) : text -> text := strip_class (ws d).

(** ** The patterns

    Each pattern occurs twice in the source, once as a Python pattern and once
    in the embedded script, with the same text. *)

Local Open Scope re_scope.

(** The sourced citation: the literal [[Source:], white space, a title between
    double quotes (group 1), optionally a comma, white space and an extra text
    without closing bracket (group 2), then the URL between parentheses
    (group 3). *)
Definition re_citation (d : dialect) : re :=
  Lit (txt "[Source:") ;; Star (ws d) ;; Lit [dq] ;;
  Grp 1 (Plus (other_than dq)) ;; Lit [dq] ;;
  Opt (Lit (txt ",") ;; Star (ws d) ;; Grp 2 (Star (none_of "]"))) ;;
  Lit (txt "](") ;; Grp 3 (Plus (none_of ")")) ;; Lit (txt ")").

(** The unsourced marker: the literal [[Unsourced], white space, two dashes,
    white space, and a note up to the closing bracket (group 1). *)
Definition re_unsourced (d : dialect) : re :=
  Lit (txt "[Unsourced") ;; Star (ws d) ;; Lit (txt "--") ;; Star (ws d) ;;
  Grp 1 (Plus (none_of "]")) ;; Lit (txt "]").

(** The generic link: a text between brackets (group 1) and a URL between
    parentheses (group 2). *)
Definition re_link : re :=
  Lit (txt "[") ;; Grp 1 (Plus (none_of "]")) ;; Lit (txt "](") ;;
  Grp 2 (Plus (none_of ")")) ;; Lit (txt ")").

(** Bold: the shortest non-empty text between two pairs of asterisks. *)
Definition re_bold (d : dialect) : re :=
  Lit (txt "**") ;; Grp 1 (PlusLazy (dot d)) ;; Lit (txt "**").

(** Inline code: a non-empty text between two backticks. *)
Definition re_code : re :=
  Lit (txt "`") ;; Grp 1 (Plus (none_of "`")) ;; Lit (txt "`").

(** A table separator cell: dashes and colons only. *)
Definition re_separator (d : dialect) : re :=
  Bos ;; Plus (one_of "-:") ;; dollar d.

(** A header: one to four hash signs (group 1), white space, the title
    (group 2). *)
Definition re_header (d : dialect) : re :=
  Bos ;; Grp 1 (Rep Greedy 1 (Some 4%nat) (one_of "#")) ;; Plus (ws d) ;;
  Grp 2 (Plus (dot d)) ;; dollar d.

(** A bullet: a dash or an asterisk, white space, the item (group 1). *)
Definition re_bullet (d : dialect) : re :=
  Bos ;; Chr (one_of "-*") ;; Plus (ws d) ;; Grp 1 (Plus (dot d)) ;; dollar d.

(** A numbered item: digits, a full stop or a closing parenthesis, white
    space, the item (group 1).  The class of digits is Python's or
    JavaScript's. *)
Definition re_numbered (digit : char -> bool) (d : dialect) : re :=
  Bos ;; Plus digit ;; Chr (one_of ".)") ;; Plus (ws d) ;;
  Grp 1 (Plus (dot d)) ;; dollar d.

(** The client's pattern for a divider label: the word Round, a space and
    digits (group 1), anywhere in the label. *)
Definition re_round_label : re :=
  Lit (txt "Round ") ;; Grp 1 (Plus ascii_digit).

Local Close Scope re_scope.

(** ** The replacement templates (the same in both implementations) *)

(** The citation badge: the callback of the first substitution. *)
Definition citation_repl (m : caps) : text :=
  html "<a class='citation' href='" ++ grp m 3
  ++ html "' target='_blank' title='" ++ grp m 1 ++ html "'>"
  ++ txt "[" ++ grp m 1
  ++ (if truthy (grp m 2) then txt ", " ++ grp m 2 else [])
  ++ txt "]</a>".

Definition unsourced_repl (m : caps) : text :=
  html "<span class='unsourced' title='" ++ grp m 1
  ++ html "'>[Unsourced]</span>".

Definition link_repl (m : caps) : text :=
  html "<a class='source-link' href='" ++ grp m 2
  ++ html "' target='_blank'>" ++ grp m 1 ++ txt "</a>".

Definition bold_repl (m : caps) : text :=
  txt "<strong>" ++ grp m 1 ++ txt "</strong>".

Definition code_repl (m : caps) : text :=
  txt "<code>" ++ grp m 1 ++ txt "</code>".

(** ** Inline formatter *)

(** The five passes, each on the output of the one before. *)
Definition inline_passes (d : dialect) (text0 : text) : text :=
  let text1 := re_sub (re_citation d) citation_repl text0 in
  let text2 := re_sub (re_unsourced d) unsourced_repl text1 in
  let text3 := re_sub re_link link_repl text2 in
  let text4 := re_sub (re_bold d) bold_repl text3 in
  let text5 := re_sub re_code code_repl text4 in
  text5.

(** Server side: [inline_format]. *)
Definition inline_format (t : text) : text := inline_passes Python t.

(** Client side: [inlineFmt]. *)
Definition inlineFmt (t : text) : text := inline_passes JavaScript t.

(** ** The state document *)

Record entry := {
  e_round : Z;
  e_agent : text;
  e_content : text;
  e_type : text;
  e_timestamp : text
}.

(** The persisted document, with all the keys that [load_state] and
    [save_state] give it (so that the defaults of the [state.get] calls of
    the source are never used).  [thinking] is [None] for JSON's null. *)
Record state := {
  topic : text;
  status : text;
  thinking : option text;
  current_round : Z;
  total_rounds : Z;
  version : Z;
  entries : list entry
}.

(** What [json.load] makes of the file at [STATE_FILE]: a document, or a
    failure to parse when the file holds no JSON. *)
Inductive json_file :=
| Malformed
| Doc (st : state).

Inductive error :=
| JSONDecodeError
| UnicodeEncodeError
| UnicodeDecodeError
| IsADirectoryError.

Inductive outcome (A : Type) :=
| Ok (a : A)
| Raise (e : error).
Arguments Ok {A} a.
Arguments Raise {A} e.

(** The static registry of agents. *)
Record agent_cfg := {
  name : text;
  role : text;
  color : text;
  bg : text;
  border : text;
  icon : text;
  align : text
}.

Definition critic_cfg : agent_cfg :=
  {| name := txt "Critic"; role := txt "Adversarial Thinker";
     color := txt "#EF4444"; bg := txt "#FEF2F2"; border := txt "#FECACA";
     icon := [9876; 65039]; align := txt "left" |}.

Definition advocate_cfg : agent_cfg :=
  {| name := txt "Advocate"; role := txt "Rigorous Defender";
     color := txt "#3B82F6"; bg := txt "#EFF6FF"; border := txt "#BFDBFE";
     icon := [128737; 65039]; align := txt "right" |}.

Definition judge_cfg : agent_cfg :=
  {| name := txt "Judge"; role := txt "Impartial Arbiter";
     color := txt "#8B5CF6"; bg := txt "#F5F3FF"; border := txt "#DDD6FE";
     icon := [9878; 65039]; align := txt "left" |}.

Definition scribe_cfg : agent_cfg :=
  {| name := txt "Scribe"; role := txt "Neutral Recorder";
     color := txt "#10B981"; bg := txt "#ECFDF5"; border := txt "#A7F3D0";
     icon := [128221]; align := txt "right" |}.

Definition AGENT_CONFIG : list (text * agent_cfg) :=
  [ (txt "critic", critic_cfg); (txt "advocate", advocate_cfg);
    (txt "judge", judge_cfg); (txt "scribe", scribe_cfg) ].

(** The own keys of the registry: [AGENT_CONFIG.get(key, ...)], and the
    own properties of the client's object [AGENTS]. *)
Fixpoint lookup_cfg (table : list (text * agent_cfg)) (key : text)
    : option agent_cfg :=
  match table with
  | [] => None
  | (k, cfg) :: rest => if text_eqb k key then Some cfg else lookup_cfg rest key
  end.

(** [AGENT_CONFIG.get(key, AGENT_CONFIG["critic"])]. *)
Definition agent_cfg_of (key : text) : agent_cfg :=
  match lookup_cfg AGENT_CONFIG key with
  | Some cfg => cfg
  | None => critic_cfg
  end.

(** The properties that the object literal [AGENTS] of the script inherits
    from [Object.prototype], each with the name of the function that it
    holds ([__proto__] holds the prototype object, which has no name).  A key
    that names one of them finds a truthy value, so that the script does not
    fall back to the critic; the fields that the script reads from it are
    undefined, and print as the word undefined. *)
Definition INHERITED : list (text * text) :=
  [ (txt "constructor", txt "Object");
    (txt "__proto__", txt "undefined");
    (txt "hasOwnProperty", txt "hasOwnProperty");
    (txt "isPrototypeOf", txt "isPrototypeOf");
    (txt "propertyIsEnumerable", txt "propertyIsEnumerable");
    (txt "toLocaleString", txt "toLocaleString");
    (txt "toString", txt "toString");
    (txt "valueOf", txt "valueOf");
    (txt "__defineGetter__", txt "__defineGetter__");
    (txt "__defineSetter__", txt "__defineSetter__");
    (txt "__lookupGetter__", txt "__lookupGetter__");
    (txt "__lookupSetter__", txt "__lookupSetter__") ].

Fixpoint lookup_inherited (table : list (text * text)) (key : text)
    : option text :=
  match table with
  | [] => None
  | (k, nm) :: rest =>
      if text_eqb k key then Some nm else lookup_inherited rest key
  end.

Definition inherited_cfg (nm : text) : agent_cfg :=
  {| name := nm; role := txt "undefined"; color := txt "undefined";
     bg := txt "undefined"; border := txt "undefined";
     icon := txt "undefined"; align := txt "undefined" |}.

(** The client's [AGENTS[key] || AGENTS['critic']]. *)
Definition AGENTS_get (key : text) : agent_cfg :=
  match lookup_cfg AGENT_CONFIG key with
  | Some cfg => cfg
  | None =>
      match lookup_inherited INHERITED key with
      | Some nm => inherited_cfg nm
      | None => critic_cfg
      end
  end.

(** What is at the path of a content file: a text, or something on which
    the opening or the reading raises (a directory, bytes that are not
    UTF-8). *)
Inductive content_file :=
| Unreadable (e : error)
| Text (t : text).

(** The files the program works on.  The two files it writes are kept apart
    from the content files it reads: [files] maps the path of a content file
    to what is there, and a [--content-file] argument is looked up there.
    The generated page is recorded by the values that fill its template. *)
Record page := {
  pg_topic : text;
  pg_status_badge : text;
  pg_feed : text;
  pg_thinking : text;
  pg_agents : text;
  pg_known_version : text;
  pg_is_completed : text;
  pg_rendered_entry_count : text
}.

Record world := {
  state_file : option json_file;       (* debate-output/state.json *)
  html_file : option page;             (* debate-output/debate-live.html *)
  pid_file : option Z;                 (* debate-output/.server.pid *)
  servers : list Z;                    (* the running server processes *)
  files : text -> option content_file
}.

(** What an invocation reads from its environment: the wall clock as
    [strftime("%H:%M")] prints it and the process identifier that a spawned
    server gets. *)
Record env := {
  now : text;
  spawned_pid : Z
}.

Definition with_state_file (d : json_file) (w : world) : world :=
  {| state_file := Some d; html_file := html_file w; pid_file := pid_file w;
     servers := servers w; files := files w |}.

Definition with_html_file (p : page) (w : world) : world :=
  {| state_file := state_file w; html_file := Some p; pid_file := pid_file w;
     servers := servers w; files := files w |}.

Definition fresh_state : state :=
  {| topic := []; status := txt "in_progress"; thinking := None;
     current_round := 1; total_rounds := 3; version := 0; entries := [] |}.

Definition load_state (w : world) : outcome state :=
  match state_file w with
  | Some (Doc st) => Ok st
  | Some Malformed => Raise JSONDecodeError
  | None => Ok fresh_state
  end.

Definition set_version (v : Z) (st : state) : state :=
  {| topic := topic st; status := status st; thinking := thinking st;
     current_round := current_round st; total_rounds := total_rounds st;
     version := v; entries := entries st |}.

(** A text that UTF-8 can encode: every character is a Unicode scalar
    value.  A text of the program can hold a lone surrogate (U+D800 to
    U+DFFF), which UTF-8 cannot encode: an argument of the command line holds
    one for each of its bytes that is not UTF-8, and [json.load] makes one of
    an escape in the state file. *)
Definition scalar_value (c : char) : bool :=
  (c <? 55296) || ((57343 <? c) && (c <=? 1114111)).

Definition encodable (t : text) : bool := forallb scalar_value t.

Definition encodable_opt (o : option text) : bool :=
  match o with Some t => encodable t | None => true end.

Definition encodable_entry (e : entry) : bool :=
  encodable (e_agent e) && encodable (e_content e) && encodable (e_type e)
  && encodable (e_timestamp e).

(** The texts of a document are all that [json.dump] with
    [ensure_ascii=False] has to encode. *)
Definition encodable_state (st : state) : bool :=
  encodable (topic st) && encodable (status st)
  && encodable_opt (thinking st) && forallb encodable_entry (entries st).

(** [save_state] updates the document in place and writes it: the caller
    goes on with the updated document.  The file is opened for writing, which
    empties it, and the document is written piece by piece: at a text that
    UTF-8 cannot encode the write raises, and the file is left with the
    beginning of the document, which is no JSON.  The result is the
    outcome and the store as the call leaves it. *)
Definition save_state (st : state) (w : world) : outcome state * world :=
  let st' := set_version (version st + 1)%Z st in
  if encodable_state st'
  then (Ok st', with_state_file (Doc st') w)
  else (Raise UnicodeEncodeError, with_state_file Malformed w).

Section Viewer.

(** The Unicode character database is not part of the program.  Python's
    pattern class [\d] is its decimal-digit property, [str.lower] and
    JavaScript's [toLowerCase] are its case mappings; they are taken as given. *)
Variable uni_isdecimal : char -> bool.
Variable py_lower : text -> text.
Variable js_toLowerCase : text -> text.

(** ** Block renderer, server side *)

(** The variables of the loop of [md_to_html]. *)
Record md_state := {
  result : list text;
  in_list : bool;
  in_table : bool;
  table_header_done : bool
}.

Definition append (x : text) (st : md_state) : md_state :=
  {| result := result st ++ [x]; in_list := in_list st;
     in_table := in_table st; table_header_done := table_header_done st |}.

Definition set_in_list (b : bool) (st : md_state) : md_state :=
  {| result := result st; in_list := b;
     in_table := in_table st; table_header_done := table_header_done st |}.

Definition set_in_table (b : bool) (st : md_state) : md_state :=
  {| result := result st; in_list := in_list st;
     in_table := b; table_header_done := table_header_done st |}.

Definition set_table_header_done (b : bool) (st : md_state) : md_state :=
  {| result := result st; in_list := in_list st;
     in_table := in_table st; table_header_done := b |}.

Definition matches (o : option caps) : bool :=
  match o with Some _ => true | None => false end.

Definition close_list (st : md_state) : md_state :=
  if in_list st then set_in_list false (append (txt "</ul>") st) else st.

Definition close_table (st : md_state) : md_state :=
  if in_table st
  then set_table_header_done false
         (set_in_table false (append (txt "</tbody></table>") st))
  else st.

Definition open_list (st : md_state) : md_state :=
  if negb (in_list st)
  then set_in_list true
         (append (html "<ul class='debate-list'>") st)
  else st.

Definition list_item (item : text) (st : md_state) : md_state :=
  append (txt "  <li>" ++ inline_format item ++ txt "</li>") st.

(** The body of the loop of [md_to_html] for one line; a [continue] ends the
    function. *)
Definition md_line (st : md_state) (line : text) : md_state :=
  let stripped := strip Python line in
  if negb (truthy stripped) then
    append [] (close_table (close_list st))
  else if contains_char 124 stripped && startswith (txt "|") stripped then
    let cells := map (strip Python) (slice_1_m1 (split 124 stripped)) in
    if forallb (fun c => matches (re_match (re_separator Python) c)) cells
    then st
    else if negb (in_table st) then
      let st := append (html "<table class='debate-table'><thead><tr>") st in
      let st := fold_left
                  (fun st c =>
                     append (txt "<th>" ++ inline_format c ++ txt "</th>") st)
                  cells st in
      let st := append (txt "</tr></thead><tbody>") st in
      set_table_header_done true (set_in_table true st)
    else
      let st := append (txt "<tr>") st in
      let st := fold_left
                  (fun st c =>
                     append (txt "<td>" ++ inline_format c ++ txt "</td>") st)
                  cells st in
      append (txt "</tr>") st
  else
    let st := close_table st in
    match re_match (re_header Python) stripped with
    | Some m =>
        let st := close_list st in
        let level := Nat.min (List.length (grp m 1) + 2) 6 in
        append (txt "<h" ++ dec_nat level ++ txt ">" ++ inline_format (grp m 2)
                ++ txt "</h" ++ dec_nat level ++ txt ">") st
    | None =>
        match re_match (re_bullet Python) stripped with
        | Some m => list_item (grp m 1) (open_list st)
        | None =>
            match re_match (re_numbered uni_isdecimal Python) stripped with
            | Some m => list_item (grp m 1) (open_list st)
            | None =>
                let st := close_list st in
                append (txt "<p>" ++ inline_format stripped ++ txt "</p>") st
            end
        end
    end.

Definition md_init : md_state :=
  {| result := []; in_list := false; in_table := false;
     table_header_done := false |}.

Definition md_to_html (t : text) : text :=
  let lines := split nl t in
  let st := fold_left md_line lines md_init in
  let st := if in_list st then append (txt "</ul>") st else st in
  let st := if in_table st then append (txt "</tbody></table>") st else st in
  join [nl] (result st).

(** ** Block renderer, client side *)

(** The variables of the loop of [mdToHtml]. *)
Record mdState := {
  js_result : list text;
  inList : bool;
  inTable : bool
}.

Definition push (x : text) (st : mdState) : mdState :=
  {| js_result := js_result st ++ [x]; inList := inList st;
     inTable := inTable st |}.

Definition setInList (b : bool) (st : mdState) : mdState :=
  {| js_result := js_result st; inList := b; inTable := inTable st |}.

Definition setInTable (b : bool) (st : mdState) : mdState :=
  {| js_result := js_result st; inList := inList st; inTable := b |}.

Definition closeList (st : mdState) : mdState :=
  if inList st then setInList false (push (txt "</ul>") st) else st.

Definition closeTable (st : mdState) : mdState :=
  if inTable st then setInTable false (push (txt "</tbody></table>") st)
  else st.

(** The body of the loop of [mdToHtml] for one line. *)
Definition mdLine (st : mdState) (line : text) : mdState :=
  let s := strip JavaScript line in
  if negb (truthy s) then
    push [] (closeTable (closeList st))
  else if startswith (txt "|") s && contains_char 124 s then
    let cells := map (strip JavaScript) (slice_1_m1 (split 124 s)) in
    if forallb (fun c => matches (re_search (re_separator JavaScript) c)) cells
    then st
    else if negb (inTable st) then
      let st := push (html "<table class='debate-table'><thead><tr>") st in
      let st := fold_left
                  (fun st c => push (txt "<th>" ++ inlineFmt c ++ txt "</th>") st)
                  cells st in
      let st := push (txt "</tr></thead><tbody>") st in
      setInTable true st
    else
      let st := push (txt "<tr>") st in
      let st := fold_left
                  (fun st c => push (txt "<td>" ++ inlineFmt c ++ txt "</td>") st)
                  cells st in
      push (txt "</tr>") st
  else
    let st := closeTable st in
    match re_search (re_header JavaScript) s with
    | Some hm =>
        let st := closeList st in
        let lvl := Nat.min (List.length (grp hm 1) + 2) 6 in
        push (txt "<h" ++ dec_nat lvl ++ txt ">" ++ inlineFmt (grp hm 2)
              ++ txt "</h" ++ dec_nat lvl ++ txt ">") st
    | None =>
        let bm := re_search (re_bullet JavaScript) s in
        let bm := match bm with
                  | Some _ => bm
                  | None => re_search (re_numbered ascii_digit JavaScript) s
                  end in
        match bm with
        | Some bm =>
            let st :=
              if negb (inList st)
              then setInList true (push (html "<ul class='debate-list'>") st)
              else st in
            push (txt "  <li>" ++ inlineFmt (grp bm 1) ++ txt "</li>") st
        | None =>
            let st := closeList st in
            push (txt "<p>" ++ inlineFmt s ++ txt "</p>") st
        end
    end.

Definition mdToHtml (t : text) : text :=
  if negb (truthy t) then []
  else
    let lines := split nl t in
    let st := fold_left mdLine lines
                {| js_result := []; inList := false; inTable := false |} in
    let st := if inList st then push (txt "</ul>") st else st in
    let st := if inTable st then push (txt "</tbody></table>") st else st in
    join [nl] (js_result st).

(** ** Page renderer *)

(** [html.escape(s)] (with quotes). *)
Definition html_escape (s : text) : text :=
  flat_map
    (fun c =>
       if c =? 38 then txt "&amp;"
       else if c =? 60 then txt "&lt;"
       else if c =? 62 then txt "&gt;"
       else if c =? 34 then txt "&quot;"
       else if c =? 39 then txt "&#x27;"
       else [c])
    s.

Definition agent_config_item (kc : text * agent_cfg) : text :=
  let (key, cfg) := kc in
  html "    '" ++ key ++ html "': {"
  ++ html " name: '" ++ name cfg ++ html "', role: '" ++ role cfg ++ html "',"
  ++ html " color: '" ++ color cfg ++ html "', bg: '" ++ bg cfg
  ++ html "', border: '" ++ border cfg ++ html "',"
  ++ html " icon: '" ++ icon cfg ++ html "', align: '" ++ align cfg
  ++ html "' }".

Definition build_agent_config_js : text :=
  txt "{" ++ [nl] ++ join (txt "," ++ [nl]) (map agent_config_item AGENT_CONFIG)
  ++ [nl] ++ txt "  }".

(** [rounds.setdefault(r, []).append(e)] on a dictionary in insertion
    order. *)
Fixpoint setdefault_append (r : Z) (e : entry) (rounds : list (Z * list entry))
    : list (Z * list entry) :=
  match rounds with
  | [] => [(r, [e])]
  | (k, v) :: rest =>
      if (k =? r)%Z then (k, v ++ [e]) :: rest
      else (k, v) :: setdefault_append r e rest
  end.

Fixpoint rounds_get (rounds : list (Z * list entry)) (r : Z) : list entry :=
  match rounds with
  | [] => []
  | (k, v) :: rest => if (k =? r)%Z then v else rounds_get rest r
  end.

Fixpoint insert_sorted (x : Z) (l : list Z) : list Z :=
  match l with
  | [] => [x]
  | y :: l' => if (x <=? y)%Z then x :: l else y :: insert_sorted x l'
  end.

(** [sorted(keys)] *)
Definition sorted (keys : list Z) : list Z :=
  fold_right insert_sorted [] keys.

Definition round_label (round_num : Z) : text :=
  if (round_num =? 0)%Z then txt "Final Synthesis"
  else txt "Round " ++ dec_Z round_num.

(** One bubble of the server-side render. *)
Definition ssr_bubble (e : entry) : text :=
  let agent_key := py_lower (e_agent e) in
  let cfg := agent_cfg_of agent_key in
  let content_html := md_to_html (e_content e) in
  let ts := e_timestamp e in
  join [nl]
    [ html "<div class='bubble-row " ++ align cfg ++ html "'>";
      html "  <div class='bubble' style='--agent-color:" ++ color cfg
        ++ txt ";--agent-bg:" ++ bg cfg ++ txt ";--agent-border:" ++ border cfg
        ++ html ";'>";
      html "    <div class='bubble-header'>";
      html "      <span class='agent-icon'>" ++ icon cfg ++ txt "</span>";
      html "      <span class='agent-name' style='color:" ++ color cfg
        ++ html ";'>" ++ name cfg ++ txt "</span>";
      html "      <span class='agent-role'>" ++ role cfg ++ txt "</span>";
      html "      <span class='timestamp'>" ++ ts ++ txt "</span>";
      txt "    </div>";
      html "    <div class='bubble-content'>" ++ content_html ++ txt "</div>";
      txt "  </div>";
      txt "</div>" ] ++ [nl].

Definition ssr_round (rounds : list (Z * list entry)) (round_num : Z) : text :=
  html "<div class='round-divider'><span>" ++ round_label round_num
  ++ txt "</span></div>" ++ [nl]
  ++ List.concat (map ssr_bubble (rounds_get rounds round_num)).

Definition group_by_round (es : list entry) : list (Z * list entry) :=
  fold_left (fun rounds e => setdefault_append (e_round e) e rounds) es [].

Definition ssr_entries (es : list entry) : text :=
  let rounds := group_by_round es in
  List.concat (map (ssr_round rounds) (sorted (map fst rounds))).

Definition ssr_thinking (st : state) : text :=
  match thinking st with
  | Some who =>
      if truthy who && text_eqb (status st) (txt "in_progress") then
        let cfg := agent_cfg_of (py_lower who) in
        join [nl]
          [ html "<div class='bubble-row " ++ align cfg
              ++ html "' id='thinking-bubble'>";
            html "  <div class='bubble thinking' style='--agent-color:"
              ++ color cfg ++ txt ";--agent-bg:" ++ bg cfg
              ++ txt ";--agent-border:" ++ border cfg ++ html ";'>";
            html "    <div class='bubble-header'>";
            html "      <span class='agent-icon'>" ++ icon cfg ++ txt "</span>";
            html "      <span class='agent-name' style='color:" ++ color cfg
              ++ html ";'>" ++ name cfg ++ txt "</span>";
            html "      <span class='agent-role'>" ++ role cfg ++ txt "</span>";
            txt "    </div>";
            html "    <div class='typing-indicator'><span></span><span></span><span></span></div>";
            txt "  </div>";
            txt "</div>" ]
      else []
  | None => []
  end.

Definition status_badge_html (status0 : text) (current total : Z) : text :=
  if text_eqb status0 (txt "completed")
  then html "<span class='status-badge completed'>Debate Complete</span>"
  else html "<span class='status-badge in-progress'>Round " ++ dec_Z current
       ++ txt " of " ++ dec_Z total ++ txt "</span>".

Definition empty_state_html : text :=
  html "<div class='empty-state' id='empty-state'><p>Waiting for the debate to begin...</p></div>".

(** [build_html]: the values that the page template is filled with (its
    style sheet and the code of its script are constant). *)
Definition build_html (st : state) : page :=
  let rendered := ssr_entries (entries st) in
  {| pg_topic := html_escape (topic st);
     pg_status_badge :=
       status_badge_html (status st) (current_round st) (total_rounds st);
     pg_feed := if truthy rendered then rendered else empty_state_html;
     pg_thinking := ssr_thinking st;
     pg_agents := build_agent_config_js;
     pg_known_version := dec_Z (version st);
     pg_is_completed :=
       if text_eqb (status st) (txt "completed") then txt "true"
       else txt "false";
     pg_rendered_entry_count := dec_nat (List.length (entries st)) |}.

(** ** The command line *)

(** The parsed arguments. *)
Record arguments := {
  a_init : option text;
  a_add : bool;
  a_agent : option text;
  a_round : option Z;
  a_content_file : option text;
  a_content : option text;
  a_type : text;
  a_status : option text;
  a_thinking : option text;
  a_set_round : option Z;
  a_serve : bool;
  a_stop_server : bool
}.

Definition stop_server (w : world) : world :=
  match pid_file w with
  | Some pid =>
      {| state_file := state_file w; html_file := html_file w;
         pid_file := None;
         servers := filter (fun p => negb (p =? pid)%Z) (servers w);
         files := files w |}
  | None => w
  end.

Definition start_server (ev : env) (w : world) : world :=
  let w := stop_server w in
  {| state_file := state_file w; html_file := html_file w;
     pid_file := Some (spawned_pid ev);
     servers := spawned_pid ev :: servers w;
     files := files w |}.

(** The [--init] branch. *)
Definition do_init (t : text) (st : state) : state :=
  {| topic := t; status := txt "in_progress"; thinking := None;
     current_round := 1; total_rounds := total_rounds st; version := 0;
     entries := [] |}.

(** [a or b] on an optional text and on an optional integer. *)
Definition text_or (o : option text) (dflt : text) : text :=
  match o with
  | Some t => if truthy t then t else dflt
  | None => dflt
  end.

Definition int_or (o : option Z) (dflt : Z) : Z :=
  match o with
  | Some z => if (z =? 0)%Z then dflt else z
  | None => dflt
  end.

(** [os.path.exists(path)] for a content file, and its text. *)
Definition path_exists (w : world) (path : text) : bool :=
  match files w path with Some _ => true | None => false end.

Definition read_file (w : world) (path : text) : text :=
  match files w path with Some (Text t) => t | _ => [] end.

(** The exception that the [--add] branch raises when it opens and reads
    its content file: the only step of the branches of [main] that can
    raise.  It comes before any write, and is taken out of the branches,
    which are total functions on the document. *)
Definition content_error (args : arguments) (w : world) : option error :=
  if a_add args && truthy_opt (a_content_file args) then
    match files w (text_or (a_content_file args) []) with
    | Some (Unreadable e) => Some e
    | _ => None
    end
  else None.

(** The content of an added entry. *)
Definition entry_content (args : arguments) (w : world) : text :=
  let content := [] in
  if truthy_opt (a_content_file args)
     && path_exists w (text_or (a_content_file args) [])
  then read_file w (text_or (a_content_file args) [])
  else if truthy_opt (a_content args) then text_or (a_content args) []
  else content.

(** The [--add] branch. *)
Definition do_add (args : arguments) (ev : env) (w : world) (st : state)
    : state :=
  let content := entry_content args w in
  let e :=
    {| e_round := int_or (a_round args) (current_round st);
       e_agent := text_or (a_agent args) (txt "unknown");
       e_content := content;
       e_type := a_type args;
       e_timestamp := now ev |} in
  {| topic := topic st; status := status st; thinking := thinking st;
     current_round := current_round st; total_rounds := total_rounds st;
     version := version st; entries := entries st ++ [e] |}.

Definition set_status (s : text) (st : state) : state :=
  {| topic := topic st; status := s; thinking := thinking st;
     current_round := current_round st; total_rounds := total_rounds st;
     version := version st; entries := entries st |}.

Definition set_thinking (t : option text) (st : state) : state :=
  {| topic := topic st; status := status st; thinking := t;
     current_round := current_round st; total_rounds := total_rounds st;
     version := version st; entries := entries st |}.

Definition set_current_round (r : Z) (st : state) : state :=
  {| topic := topic st; status := status st; thinking := thinking st;
     current_round := r; total_rounds := total_rounds st;
     version := version st; entries := entries st |}.

(** The [if args.init:] statement: the document as it is when [--add]
    runs. *)
Definition after_init (args : arguments) (st : state) : state :=
  match a_init args with
  | Some t => if truthy t then do_init t st else st
  | None => st
  end.

(** The changes that the arguments make to the loaded document, in the order
    of [main]. *)
Definition mutate (args : arguments) (ev : env) (w : world) (st : state)
    : state :=
  let st := after_init args st in
  let st := if a_add args then do_add args ev w st else st in
  let st := match a_status args with
            | Some s => if truthy s then set_status s st else st
            | None => st
            end in
  let st := match a_thinking args with
            | Some t =>
                if truthy t then
                  set_thinking
                    (if text_eqb (py_lower t) (txt "none") then None
                     else Some t) st
                else st
            | None => st
            end in
  let st := match a_set_round args with
            | Some r => if negb (r =? 0)%Z then set_current_round r st else st
            | None => st
            end in
  st.

(** The texts that an invocation brings to the document: those of its
    arguments, the time of the clock and the content of the entry. *)
Definition encodable_args (args : arguments) : bool :=
  encodable_opt (a_init args) && encodable_opt (a_agent args)
  && encodable_opt (a_content args) && encodable (a_type args)
  && encodable_opt (a_status args) && encodable_opt (a_thinking args).

(** An invocation that can read its content file and brings texts that
    UTF-8 can encode. *)
Definition usable_input (args : arguments) (ev : env) (w : world) : bool :=
  match content_error args w with
  | Some _ => false
  | None =>
      encodable_args args && encodable (now ev)
      && encodable (entry_content args w)
  end.

(** [main].  An exception of [load_state], of the reading of the content
    file or of [save_state] ends the invocation; the page is written after
    the save, from texts of the saved document and constants of the
    program. *)
Definition main (args : arguments) (ev : env) (w : world) : outcome world :=
  if a_serve args then Ok (start_server ev w)
  else if a_stop_server args then Ok (stop_server w)
  else
    match load_state w with
    | Raise e => Raise e
    | Ok st =>
        match content_error args w with
        | Some e => Raise e
        | None =>
            let st := mutate args ev w st in
            match save_state st w with
            | (Raise e, _) => Raise e
            | (Ok st, w) =>
                let page := build_html st in
                Ok (with_html_file page w)
            end
        end
    end.

(** The invocation reads its content file, if it has to, and UTF-8 can
    encode the document that it saves. *)
Definition can_save (args : arguments) (ev : env) (w : world) (st : state)
    : bool :=
  match content_error args w with
  | Some _ => false
  | None => encodable_state (mutate args ev w st)
  end.

(** ** The client script *)

(** The children of the feed element, as far as the script tells them
    apart.  The placeholder, the thinking bubble and the dividers are made
    from constants of the program and from numbers.  A bubble is what the
    browser makes of the markup of [renderBubble], which holds the content
    of the entry as raw HTML: it can hold elements of its own, which the
    script finds when it looks for an element by its id or for the dividers
    of the feed. *)
Inductive node :=
| EmptyState                         (* the element with id empty-state *)
| ThinkingBubble (markup : text)     (* the element with id thinking-bubble *)
| RoundDivider (label : text)        (* a round divider and the text of its span *)
| BubbleRow (markup : text)          (* the bubble of an entry *)
| Without (id : text) (n : node).    (* a node after the removal of the first
                                        element with this id inside it *)

(** What the parser of the browser makes of a bubble is not part of the
    program: whether there is an element with a given id inside a bubble,
    and the texts of the spans of the dividers inside it, in the order of
    the document, are taken as given. *)
Variable inside_has_id : text -> node -> bool.
Variable inside_dividers : node -> list text.

(** The numbers of the script are doubles.  An integer of the document of
    magnitude below 2^53 is a double, prints as its decimal numeral, and
    [parseInt] reads it back from its digits.  For the other integers, the
    double that [JSON.parse] makes of the numeral (given by an integer that
    stands for it), the text that its conversion to a string gives and what
    [parseInt] reads from such digits are taken as given. *)
Variable unsafe_number : Z -> Z.
Variable unsafe_string : Z -> text.
Variable unsafe_parseInt : text -> Z.

Definition safe_integer (z : Z) : bool := (Z.abs z <? 9007199254740992)%Z.

(** [JSON.parse] on an integer of the document. *)
Definition js_number (z : Z) : Z :=
  if safe_integer z then z else unsafe_number z.

(** The conversion of a number to a string. *)
Definition js_string (v : Z) : text :=
  if safe_integer v then dec_Z v else unsafe_string v.

(** The variables of the script and the parts of the document it updates.
    The rest of the document is the template of the page with the escaped
    topic: it holds no element with one of the ids that the script looks
    for, so that a search of the document by id is a search of the feed. *)
Record client := {
  feed : list node;
  statusBadge : text;
  knownVersion : Z;
  isCompleted : bool;
  renderedEntryCount : nat
}.

Definition renderBubble (e : entry) (animate : bool) : text :=
  let agentKey := js_toLowerCase (e_agent e) in
  let cfg := AGENTS_get agentKey in
  html "<div class='bubble-row " ++ align cfg
  ++ (if animate then txt " slide-in" else []) ++ html "'>"
  ++ html "<div class='bubble' style='--agent-color:" ++ color cfg
  ++ txt ";--agent-bg:" ++ bg cfg ++ txt ";--agent-border:" ++ border cfg
  ++ html ";'>"
  ++ html "<div class='bubble-header'>"
  ++ html "<span class='agent-icon'>" ++ icon cfg ++ txt "</span>"
  ++ html "<span class='agent-name' style='color:" ++ color cfg ++ html ";'>"
  ++ name cfg ++ txt "</span>"
  ++ html "<span class='agent-role'>" ++ role cfg ++ txt "</span>"
  ++ html "<span class='timestamp'>" ++ e_timestamp e ++ txt "</span>"
  ++ txt "</div>"
  ++ html "<div class='bubble-content'>" ++ mdToHtml (e_content e)
  ++ txt "</div>"
  ++ txt "</div></div>".

Definition renderThinking (agentKey : text) : text :=
  if negb (truthy agentKey) then []
  else
    let cfg := AGENTS_get (js_toLowerCase agentKey) in
    html "<div class='bubble-row " ++ align cfg
    ++ html " slide-in' id='thinking-bubble'>"
    ++ html "<div class='bubble thinking' style='--agent-color:" ++ color cfg
    ++ txt ";--agent-bg:" ++ bg cfg ++ txt ";--agent-border:" ++ border cfg
    ++ html ";'>"
    ++ html "<div class='bubble-header'>"
    ++ html "<span class='agent-icon'>" ++ icon cfg ++ txt "</span>"
    ++ html "<span class='agent-name' style='color:" ++ color cfg ++ html ";'>"
    ++ name cfg ++ txt "</span>"
    ++ html "<span class='agent-role'>" ++ role cfg ++ txt "</span>"
    ++ txt "</div>"
    ++ html "<div class='typing-indicator'><span></span><span></span><span></span></div>"
    ++ txt "</div></div>".

(** [renderRoundDivider]: the divider element that its markup makes, with
    the label in its span. *)
Definition renderRoundDivider (roundNum : Z) : node :=
  let label := if (roundNum =? 0)%Z then txt "Final Synthesis"
               else txt "Round " ++ js_string roundNum in
  RoundDivider label.

(** The value of a text of ASCII digits. *)
Definition parseInt (digits : text) : Z :=
  fold_left (fun acc c => (acc * 10 + (Z.of_N c - 48))%Z) digits 0%Z.

(** [parseInt] on a text of ASCII digits. *)
Definition js_parseInt (digits : text) : Z :=
  if safe_integer (parseInt digits) then parseInt digits
  else unsafe_parseInt digits.

(** [feed.querySelectorAll('.round-divider span')]: the texts of the spans
    of the dividers in the feed, those inside the bubbles included. *)
Fixpoint divider_labels (f : list node) : list text :=
  match f with
  | [] => []
  | RoundDivider label :: f' => label :: divider_labels f'
  | BubbleRow markup :: f' =>
      inside_dividers (BubbleRow markup) ++ divider_labels f'
  | Without id n :: f' =>
      inside_dividers (Without id n) ++ divider_labels f'
  | _ :: f' => divider_labels f'
  end.

(** The rounds whose divider is already in the feed. *)
Definition rendered_rounds (f : list node) : list Z :=
  fold_left
    (fun renderedRounds d =>
       let renderedRounds :=
         match re_search re_round_label d with
         | Some m => renderedRounds ++ [js_parseInt (grp m 1)]
         | None => renderedRounds
         end in
       if text_eqb d (txt "Final Synthesis") then renderedRounds ++ [0%Z]
       else renderedRounds)
    (divider_labels f) [].

Definition has (rounds : list Z) (r : Z) : bool :=
  existsb (Z.eqb r) rounds.

(** Whether a node is, or holds, an element with a given id. *)
Definition has_id (id : text) (n : node) : bool :=
  match n with
  | EmptyState => text_eqb id (txt "empty-state")
  | ThinkingBubble _ => text_eqb id (txt "thinking-bubble")
  | RoundDivider _ => false
  | BubbleRow _ | Without _ _ => inside_has_id id n
  end.

(** [document.getElementById(id)] and [remove] on the element that it
    finds: the first in the order of the document, which is a child of the
    feed or an element inside a bubble. *)
Fixpoint remove_by_id (id : text) (f : list node) : list node :=
  match f with
  | [] => []
  | n :: f' =>
      if has_id id n then
        match n with
        | EmptyState | ThinkingBubble _ => f'
        | _ => Without id n :: f'
        end
      else n :: remove_by_id id f'
  end.

Definition remove_empty_state (f : list node) : list node :=
  remove_by_id (txt "empty-state") f.

Definition remove_thinking (f : list node) : list node :=
  remove_by_id (txt "thinking-bubble") f.

(** One turn of the loop of [applyUpdate] over the new entries. *)
Definition append_entry (acc : list node * list Z) (e : entry)
    : list node * list Z :=
  let (f, renderedRounds) := acc in
  let roundNum :=
    if (js_number (e_round e) =? 0)%Z then 1%Z else js_number (e_round e) in
  let (f, renderedRounds) :=
    if negb (has renderedRounds roundNum)
    then (f ++ [renderRoundDivider roundNum], renderedRounds ++ [roundNum])
    else (f, renderedRounds) in
  (f ++ [BubbleRow (renderBubble e true)], renderedRounds).

Definition applyUpdate (st : state) (c : client) : client :=
  let newEntries := skipn (renderedEntryCount c) (entries st) in
  let f := feed c in
  let f := if negb (is_nil newEntries) then remove_empty_state f else f in
  let f := remove_thinking f in
  let renderedRounds := rendered_rounds f in
  let (f, _) := fold_left append_entry newEntries (f, renderedRounds) in
  let f := if truthy_opt (thinking st)
              && text_eqb (status st) (txt "in_progress")
           then f ++ [ThinkingBubble (renderThinking (text_or (thinking st) []))]
           else f in
  let completed := text_eqb (status st) (txt "completed") in
  {| feed := f;
     statusBadge :=
       if completed
       then html "<span class='status-badge completed'>Debate Complete</span>"
       else html "<span class='status-badge in-progress'>Round "
            ++ js_string (if (js_number (current_round st) =? 0)%Z then 1
                          else js_number (current_round st))
            ++ txt " of "
            ++ js_string (if (js_number (total_rounds st) =? 0)%Z then 3
                          else js_number (total_rounds st))
            ++ txt "</span>";
     knownVersion := version st;
     isCompleted := if completed then true else isCompleted c;
     renderedEntryCount := List.length (entries st) |}.

(** ** Sequences of invocations, and the inputs of the examples *)

(** An invocation that goes through [load_state] and [save_state]: neither
    [--serve] nor [--stop-server]. *)
Definition saves (args : arguments) : Prop :=
  a_serve args = false /\ a_stop_server args = false.

(** The [--init] branch is taken. *)
Definition initializes (args : arguments) : bool := truthy_opt (a_init args).


Fixpoint run (ops : list (arguments * env)) (w : world) : outcome world :=
  match ops with
  | [] => Ok w
  | (args, ev) :: rest =>
      match main args ev w with
      | Ok w' => run rest w'
      | Raise e => Raise e
      end
  end.

(** The arguments of an invocation without any flag. *)
Definition bare : arguments :=
  {| a_init := None; a_add := false; a_agent := None; a_round := None;
     a_content_file := None; a_content := None; a_type := txt "turn";
     a_status := None; a_thinking := None; a_set_round := None;
     a_serve := false; a_stop_server := false |}.

Definition with_init (t : text) (args : arguments) : arguments :=
  {| a_init := Some t; a_add := a_add args; a_agent := a_agent args;
     a_round := a_round args; a_content_file := a_content_file args;
     a_content := a_content args; a_type := a_type args;
     a_status := a_status args; a_thinking := a_thinking args;
     a_set_round := a_set_round args; a_serve := a_serve args;
     a_stop_server := a_stop_server args |}.

Definition with_round (r : option Z) (args : arguments) : arguments :=
  {| a_init := a_init args; a_add := a_add args; a_agent := a_agent args;
     a_round := r; a_content_file := a_content_file args;
     a_content := a_content args; a_type := a_type args;
     a_status := a_status args; a_thinking := a_thinking args;
     a_set_round := a_set_round args; a_serve := a_serve args;
     a_stop_server := a_stop_server args |}.

(** [--add --agent critic] with the given round, content file and inline
    content. *)
Definition add_args (r : option Z) (file content : option text) : arguments :=
  {| a_init := None; a_add := true; a_agent := Some (txt "critic");
     a_round := r; a_content_file := file; a_content := content;
     a_type := txt "turn"; a_status := None; a_thinking := None;
     a_set_round := None; a_serve := false; a_stop_server := false |}.

Definition noon : env := {| now := txt "12:00"; spawned_pid := 4242 |}.

(** A world without any file. *)
Definition empty_world : world :=
  {| state_file := None; html_file := None; pid_file := None; servers := [];
     files := fun _ => None |}.

Definition old_entry : entry :=
  {| e_round := 1; e_agent := txt "critic"; e_content := txt "first";
     e_type := txt "turn"; e_timestamp := txt "09:30" |}.

(** A debate in progress: one entry, version 5. *)
Definition old_state : state :=
  {| topic := txt "old"; status := txt "in_progress"; thinking := None;
     current_round := 2; total_rounds := 3; version := 5;
     entries := [old_entry] |}.

Definition old_world : world :=
  {| state_file := Some (Doc old_state); html_file := None; pid_file := None;
     servers := []; files := fun _ => None |}.

Definition last_entry (st : state) : option entry :=
  match rev (entries st) with e :: _ => Some e | [] => None end.

(** The three table rows of the specification's example. *)
Definition table_rows : text :=
  txt "| A | B |" ++ [nl] ++ txt "| --- | --- |" ++ [nl] ++ txt "| 1 | 2 |".

(** A header line with a carriage return inside its title, and a header line
    after a byte-order mark (as a content file saved with one begins). *)
Definition header_with_cr : text := txt "# a" ++ [13] ++ txt "b".
Definition header_after_bom : text := [65279] ++ txt "# Title".

(** The names of the tags of a markup text in their order (a closing tag
    with its slash): the structure that two renderings are compared by. *)
Inductive scan := Outside | InName (tag : text) | InAttributes.

Fixpoint tag_sequence_from (sc : scan) (s : text) : list text :=
  match s with
  | [] => []
  | c :: s' =>
      match sc with
      | Outside =>
          if c =? 60 then tag_sequence_from (InName []) s'
          else tag_sequence_from Outside s'
      | InName tag =>
          if c =? 62 then tag :: tag_sequence_from Outside s'
          else if c =? 32 then tag :: tag_sequence_from InAttributes s'
          else tag_sequence_from (InName (tag ++ [c])) s'
      | InAttributes =>
          if c =? 62 then tag_sequence_from Outside s'
          else tag_sequence_from InAttributes s'
      end
  end.

Definition tag_sequence (s : text) : list text := tag_sequence_from Outside s.

(** A final synthesis: a document whose only entry has round 0, and a client
    that has rendered no entry yet. *)
Definition synthesis_entry : entry :=
  {| e_round := 0; e_agent := txt "judge"; e_content := txt "Verdict.";
     e_type := txt "synthesis"; e_timestamp := txt "10:15" |}.

Definition synthesis_state : state :=
  {| topic := txt "T"; status := txt "in_progress"; thinking := None;
     current_round := 3; total_rounds := 3; version := 1;
     entries := [synthesis_entry] |}.

Definition waiting_client : client :=
  {| feed := [EmptyState]; statusBadge := []; knownVersion := 0;
     isCompleted := false; renderedEntryCount := 0 |}.

Definition with_e_round (r : Z) (e : entry) : entry :=
  {| e_round := r; e_agent := e_agent e; e_content := e_content e;
     e_type := e_type e; e_timestamp := e_timestamp e |}.

(** A sourced citation with title, extra text and URL, as it is written in
    a content, its badge, and a generic link. *)
Definition citation_text (title extra url : text) : text :=
  txt "[Source: " ++ quoted title ++ txt ", " ++ extra ++ txt "](" ++ url
  ++ txt ")".

Definition citation_badge (title extra url : text) : text :=
  html "<a class='citation' href='" ++ url
  ++ html "' target='_blank' title='" ++ title ++ html "'>"
  ++ txt "[" ++ title ++ txt ", " ++ extra ++ txt "]</a>".

Definition generic_link (label url : text) : text :=
  html "<a class='source-link' href='" ++ url
  ++ html "' target='_blank'>" ++ label ++ txt "</a>".

(** A character without meaning for the inline formatter: no bracket, no
    parenthesis, no asterisk, no backtick and no double quote. *)
Definition plain_char (c : char) : bool :=
  none_of "[]()*`" c && other_than dq c.

Definition plain (t : text) : bool := forallb plain_char t.

(** The text does not begin with white space (and is not empty). *)
Definition starts_unspaced (t : text) : bool :=
  match t with
  | c :: _ => negb (py_isspace c)
  | [] => false
  end.

(** [sub] occurs in [s]. *)
Fixpoint occurs (sub s : text) : bool :=
  startswith sub s
  || match s with
     | [] => false
     | _ :: s' => occurs sub s'
     end.

(** The pattern can only match a text that begins with the character [a]. *)
Definition needs_first (r : re) (a : char) : Prop :=
  forall pos s, hd_error s <> Some a -> match_at r pos s = None.

(** The pattern matches at no position of the text. *)
Fixpoint unmatched (r : re) (s : text) : Prop :=
  (forall pos, match_at r pos s = None)
  /\ match s with
     | [] => True
     | _ :: s' => unmatched r s'
     end.

(** Running an invocation and then loading the document, and the entry that
    is then the last one. *)
Definition then_load (o : outcome world) : outcome state :=
  match o with
  | Ok w => load_state w
  | Raise e => Raise e
  end.

Definition appended (o : outcome world) : option entry :=
  match then_load o with
  | Ok st => last_entry st
  | Raise _ => None
  end.

(** The text that an argument of the single byte FF becomes: the lone
    surrogate U+DCFF. *)
Definition lone_surrogate : text := [56575].

(** Four invocations: no flag, an append, an initialization, no flag. *)
Definition demo_ops : list (arguments * env) :=
  [ (bare, noon);
    (add_args (Some 1%Z) None (Some (txt "hello")), noon);
    (with_init (txt "Topic") bare, noon);
    (bare, noon) ].

(** A citation whose title holds a bracket and a parenthesized text. *)
Definition tricky_title : text := txt "a](b)".

(** ** Where the two dialects agree

    A character on which the classes of the inline patterns mean the same in
    both dialects (and which is no newline, so that the two [$] agree), a
    character on which moreover the two classes of digits agree, and a text
    made of such characters and newlines. *)
Definition neutral_inline (c : char) : bool :=
  Bool.eqb (ws Python c) (ws JavaScript c)
  && Bool.eqb (dot Python c) (dot JavaScript c)
  && negb (c =? nl).

Definition neutral_line (c : char) : bool :=
  neutral_inline c && Bool.eqb (uni_isdecimal c) (ascii_digit c).

Definition neutral_text (t : text) : bool :=
  forallb (fun c => (c =? nl) || neutral_line c) t.

(** Two patterns of the same shape whose classes agree on the characters
    of [N]. *)
Inductive sim (N : char -> bool) : re -> re -> Prop :=
| sim_Bos : sim N Bos Bos
| sim_Eos b1 b2 : sim N (Eos b1) (Eos b2)
| sim_Chr p q :
    (forall c, N c = true -> p c = q c) -> sim N (Chr p) (Chr q)
| sim_Lit l : sim N (Lit l) (Lit l)
| sim_Rep k lo hi p q :
    (forall c, N c = true -> p c = q c) ->
    sim N (Rep k lo hi p) (Rep k lo hi q)
| sim_Seq r1 r2 r1' r2' :
    sim N r1 r1' -> sim N r2 r2' -> sim N (Seq r1 r2) (Seq r1' r2')
| sim_Grp i r r' : sim N r r' -> sim N (Grp i r) (Grp i r')
| sim_Opt r r' : sim N r r' -> sim N (Opt r) (Opt r').

(** The captured texts are made of characters of [N]. *)
Definition within (N : char -> bool) (g : caps) : Prop :=
  Forall (fun it => forallb N (snd it) = true) g.

(** The loop variables of the two block renderers hold the same. *)
Definition same_state (st : md_state) (js : mdState) : Prop :=
  result st = js_result js /\ in_list st = inList js
  /\ in_table st = inTable js.

(** A content that mixes a header, a bullet and a numbered item, a
    paragraph with a citation, an unsourced marker, bold and code, and a
    table. *)
Definition mixed_content : text :=
  join [nl]
    [ txt "# Title";
      txt "- a **bold** item";
      txt "2) second `code`";
      [];
      txt "See " ++ citation_text (txt "X") (txt "Y") (txt "http://a")
        ++ txt " and [Unsourced -- a note].";
      txt "| A | B |";
      txt "| --- | --- |";
      txt "| 1 | 2 |" ].

(** Neither the current round nor the round of an entry is 0. *)
Definition no_round_zero (st : state) : Prop :=
  current_round st <> 0%Z /\ Forall (fun e => e_round e <> 0%Z) (entries st).

(** ** Further notions for the properties of the command line *)

(** The page on disk is the one built from the document on disk. *)
Definition consistent (w : world) : Prop :=
  exists st, state_file w = Some (Doc st)
             /\ html_file w = Some (build_html st).

(** At most one server runs, and it is the one that the PID file names
    (which may name a process that is gone). *)
Definition servers_tracked (w : world) : Prop :=
  match pid_file w with
  | Some p => servers w = [p] \/ servers w = []
  | None => servers w = []
  end.

(** The entry that [--add] appends to the document [st]. *)
Definition new_entry (args : arguments) (ev : env) (w : world) (st : state)
    : entry :=
  {| e_round := int_or (a_round args) (current_round st);
     e_agent := text_or (a_agent args) (txt "unknown");
     e_content := entry_content args w;
     e_type := a_type args;
     e_timestamp := now ev |}.

(** The number of invocations of a sequence that append an entry. *)
Definition count_adds (ops : list (arguments * env)) : nat :=
  List.length (filter (fun op => a_add (fst op)) ops).

Definition with_add (b : bool) (args : arguments) : arguments :=
  {| a_init := a_init args; a_add := b; a_agent := a_agent args;
     a_round := a_round args; a_content_file := a_content_file args;
     a_content := a_content args; a_type := a_type args;
     a_status := a_status args; a_thinking := a_thinking args;
     a_set_round := a_set_round args; a_serve := a_serve args;
     a_stop_server := a_stop_server args |}.

Definition with_set_round (r : option Z) (args : arguments) : arguments :=
  {| a_init := a_init args; a_add := a_add args; a_agent := a_agent args;
     a_round := a_round args; a_content_file := a_content_file args;
     a_content := a_content args; a_type := a_type args;
     a_status := a_status args; a_thinking := a_thinking args;
     a_set_round := r; a_serve := a_serve args;
     a_stop_server := a_stop_server args |}.

Definition with_serve (b : bool) (args : arguments) : arguments :=
  {| a_init := a_init args; a_add := a_add args; a_agent := a_agent args;
     a_round := a_round args; a_content_file := a_content_file args;
     a_content := a_content args; a_type := a_type args;
     a_status := a_status args; a_thinking := a_thinking args;
     a_set_round := a_set_round args; a_serve := b;
     a_stop_server := a_stop_server args |}.

(** A store whose state file holds no JSON. *)
Definition broken_world : world :=
  {| state_file := Some Malformed; html_file := None; pid_file := None;
     servers := []; files := fun _ => None |}.

(** Three invocations without initialization: an append, a change of
    status, an append. *)
Definition growing_ops : list (arguments * env) :=
  [ (add_args None None (Some (txt "one")), noon);
    ({| a_init := None; a_add := false; a_agent := None; a_round := None;
        a_content_file := None; a_content := None; a_type := txt "turn";
        a_status := Some (txt "completed"); a_thinking := None;
        a_set_round := None; a_serve := false; a_stop_server := false |},
     noon);
    (add_args (Some 3%Z) None (Some (txt "two")), noon) ].

(** A server started, an append, a server started again. *)
Definition serving_ops : list (arguments * env) :=
  [ (with_serve true bare, noon);
    (add_args None None (Some (txt "one")), noon);
    (with_serve true bare, {| now := txt "12:05"; spawned_pid := 4343 |}) ].

(** ** Further notions for the properties of the page *)

(** The characters that [html.escape] replaces, the ampersand apart. *)
Definition markup_char (c : char) : bool :=
  (c =? 60) || (c =? 62) || (c =? 34) || (c =? 39).

(** The entries of a round, in their order. *)
Definition entries_of_round (r : Z) (es : list entry) : list entry :=
  filter (fun e => (e_round e =? r)%Z) es.

(** The rounds that the server-side render shows, in its order. *)
Definition rounds_shown (es : list entry) : list Z :=
  sorted (map fst (group_by_round es)).

(** Strictly ascending. *)
Fixpoint ascending (l : list Z) : Prop :=
  match l with
  | [] => True
  | x :: l' =>
      match l' with
      | [] => True
      | y :: _ => (x < y)%Z /\ ascending l'
      end
  end.

(** The divider of a round in the server-side render. *)
Definition ssr_divider (r : Z) : text :=
  html "<div class='round-divider'><span>" ++ round_label r
  ++ txt "</span></div>" ++ [nl].

(** Entries of rounds 2, 1, 2 and 1, in this order. *)
Definition shuffled_entries : list entry :=
  [ with_e_round 2 old_entry; with_e_round 1 synthesis_entry;
    with_e_round 2 synthesis_entry; old_entry ].

(** ** Further notions for the properties of the client *)

(** The bubbles of the entries in a feed, in their order. *)
Fixpoint bubbles (f : list node) : list text :=
  match f with
  | [] => []
  | BubbleRow markup :: f' => markup :: bubbles f'
  | _ :: f' => bubbles f'
  end.

Fixpoint count_thinking (f : list node) : nat :=
  match f with
  | [] => 0
  | ThinkingBubble _ :: f' => S (count_thinking f')
  | _ :: f' => count_thinking f'
  end.

Fixpoint count_empty_state (f : list node) : nat :=
  match f with
  | [] => 0
  | EmptyState :: f' => S (count_empty_state f')
  | _ :: f' => count_empty_state f'
  end.

(** The client shows a thinking bubble for this document. *)
Definition shows_thinking (st : state) : bool :=
  truthy_opt (thinking st) && text_eqb (status st) (txt "in_progress").

(** The old document with a second entry, and with a third one and the
    judge thinking. *)
Definition second_entry : entry :=
  {| e_round := 1; e_agent := txt "advocate"; e_content := txt "second";
     e_type := txt "turn"; e_timestamp := txt "09:40" |}.

Definition third_entry : entry :=
  {| e_round := 2; e_agent := txt "critic"; e_content := txt "third";
     e_type := txt "turn"; e_timestamp := txt "09:50" |}.

Definition state_two : state :=
  {| topic := txt "old"; status := txt "in_progress"; thinking := None;
     current_round := 2; total_rounds := 3; version := 6;
     entries := [old_entry; second_entry] |}.

Definition state_three : state :=
  {| topic := txt "old"; status := txt "in_progress";
     thinking := Some (txt "judge");
     current_round := 2; total_rounds := 3; version := 7;
     entries := [old_entry; second_entry; third_entry] |}.

(** A client whose page was built from the old document. *)
Definition old_client : client :=
  {| feed := [RoundDivider (txt "Round 1");
              BubbleRow (txt "first bubble")];
     statusBadge := []; knownVersion := 5; isCompleted := false;
     renderedEntryCount := 1 |}.

(** The rounds that the scan of [applyUpdate] reads off one divider
    label. *)
Definition label_rounds (d : text) : list Z :=
  (match re_search re_round_label d with
   | Some m => [js_parseInt (grp m 1)]
   | None => []
   end)
  ++ (if text_eqb d (txt "Final Synthesis") then [0%Z] else []).

(** The round under which the client files an entry. *)
Definition client_round (e : entry) : Z :=
  if (js_number (e_round e) =? 0)%Z then 1%Z else js_number (e_round e).

(** A node that holds nothing that the script looks for inside a bubble:
    no element with the id of the placeholder or of the thinking bubble, and
    no divider. *)
Definition quiet (n : node) : bool :=
  match n with
  | BubbleRow _ =>
      negb (inside_has_id (txt "empty-state") n)
      && negb (inside_has_id (txt "thinking-bubble") n)
      && is_nil (inside_dividers n)
  | Without _ _ => false
  | _ => true
  end.

Definition quiet_feed (f : list node) : bool := forallb quiet f.

(** An entry whose bubble is quiet. *)
Definition quiet_entry (e : entry) : bool :=
  quiet (BubbleRow (renderBubble e true)).

(** The removal of the placeholder and of the thinking bubble where they
    are children of the feed. *)
Fixpoint drop_empty_state (f : list node) : list node :=
  match f with
  | [] => []
  | EmptyState :: f' => f'
  | n :: f' => n :: drop_empty_state f'
  end.

Fixpoint drop_thinking (f : list node) : list node :=
  match f with
  | [] => []
  | ThinkingBubble _ :: f' => f'
  | n :: f' => n :: drop_thinking f'
  end.

(** A round in the range where the numbers of the script are exact, and
    not negative. *)
Definition exact_round (r : Z) : bool :=
  (0 <=? r)%Z && safe_integer r.

(** ** Further notions for the properties of the renderers *)

(** A text without the characters that start an inline construct: the
    opening bracket, the asterisk and the backtick. *)
Definition no_inline_markup (t : text) : bool :=
  forallb (fun c => negb ((c =? 91) || (c =? 42) || (c =? 96))) t.


(** The lines that [md_to_html] joins. *)
Definition md_result (t : text) : list text :=
  let st := fold_left md_line (split nl t) md_init in
  let st := if in_list st then append (txt "</ul>") st else st in
  let st := if in_table st then append (txt "</tbody></table>") st else st in
  result st.

(** The number of lines that are a given tag. *)
Definition count_line (tag : text) (ls : list text) : nat :=
  List.length (filter (text_eqb tag) ls).

Definition ul_open : text := html "<ul class='debate-list'>".
Definition ul_close : text := txt "</ul>".
Definition table_open : text := html "<table class='debate-table'><thead><tr>".
Definition table_close : text := txt "</tbody></table>".

(** A line that is none of the four tags. *)
Definition no_tag_line (x : text) : bool :=
  negb (text_eqb ul_open x || text_eqb ul_close x
        || text_eqb table_open x || text_eqb table_close x).

(** The lines so far open one list more than they close when the loop is
    in a list and as many otherwise, and likewise for tables. *)
Definition balanced (st : md_state) : Prop :=
  count_line ul_open (result st)
  = (count_line ul_close (result st) + Nat.b2n (in_list st))%nat
  /\ count_line table_open (result st)
     = (count_line table_close (result st) + Nat.b2n (in_table st))%nat.


(** ** Polling *)

(** What a poll gets: the document of the state file, or a failure (the
    request fails, its status is not ok, or its body is not JSON). *)
Inductive response :=
| FetchFailed
| Fetched (st : state).

(** The client with its polling indicator and its timer: the delay of the
    timer that is set, if one is. *)
Record poller := {
  page_client : client;
  pollDot : text;
  pollText : text;
  pollTimer : option N
}.

Definition POLL_INTERVAL : N := 2000.

(** [poll], when its timer has fired. *)
Definition poll (r : response) (p : poller) : poller :=
  match r with
  | FetchFailed =>
      {| page_client := page_client p;
         pollDot := txt "poll-dot disconnected";
         pollText := txt "Reconnecting...";
         pollTimer := Some (POLL_INTERVAL * 2) |}
  | Fetched st =>
      let newVersion := version st in
      let p :=
        if negb (newVersion =? knownVersion (page_client p))%Z
        then {| page_client := applyUpdate st (page_client p);
                pollDot := txt "poll-dot connected";
                pollText := txt "Listening for updates";
                pollTimer := pollTimer p |}
        else p in
      if isCompleted (page_client p)
      then {| page_client := page_client p; pollDot := pollDot p;
              pollText := txt "Debate complete"; pollTimer := None |}
      else {| page_client := page_client p; pollDot := pollDot p;
              pollText := pollText p; pollTimer := Some POLL_INTERVAL |}
  end.

(** The handler of the load event, on the page as it was built. *)
Definition on_load (c : client) : poller :=
  if negb (isCompleted c)
  then {| page_client := c; pollDot := txt "poll-dot connected";
          pollText := txt "Listening for updates";
          pollTimer := Some POLL_INTERVAL |}
  else {| page_client := c; pollDot := txt "poll-dot connected";
          pollText := txt "Debate complete"; pollTimer := None |}.

(** The polls of a client, one for each response for as long as a timer is
    set. *)
Fixpoint polls (rs : list response) (p : poller) : poller :=
  match rs with
  | [] => p
  | r :: rs' =>
      match pollTimer p with
      | Some _ => polls rs' (poll r p)
      | None => p
      end
  end.

(** A response that does not show a completed debate. *)
Definition not_completed (r : response) : bool :=
  match r with
  | FetchFailed => true
  | Fetched st => negb (text_eqb (status st) (txt "completed"))
  end.


(** ** The parser and the numbers at the inputs of the examples

    The bubbles of the examples hold plain words: there is no element with
    an id and no divider inside them.  Their numbers are in the range where
    the numbers of the script are exact, so that the conversions beyond it
    are never consulted. *)
Definition nothing_with_id : text -> node -> bool := fun _ _ => false.
Definition no_dividers : node -> list text := fun _ => [].
Definition unused_number : Z -> Z := fun z => z.
Definition unused_string : Z -> text := fun _ => [].
Definition unused_parseInt : text -> Z := fun _ => 0%Z.


(** A store with the old document and three content files: a text, a
    directory, and a file whose bytes are not UTF-8. *)
Definition content_files (path : text) : option content_file :=
  if text_eqb path (txt "turn.md") then Some (Text (txt "from the file"))
  else if text_eqb path (txt "notes") then Some (Unreadable IsADirectoryError)
  else if text_eqb path (txt "latin1.md")
       then Some (Unreadable UnicodeDecodeError)
  else None.

Definition library_world : world :=
  {| state_file := Some (Doc old_state); html_file := None; pid_file := None;
     servers := []; files := content_files |}.


(** * Properties *)

(** ** The state document and the command line *)

Lemma version_after_init args st :
  version (after_init args st)
  = if initializes args then 0%Z else version st.
Proof.
  unfold after_init, initializes, truthy_opt.
  destruct (a_init args) as [t|]; [destruct (truthy t)|]; reflexivity.
Qed.

(** The later branches of [main] leave the version alone. *)
Lemma version_mutate args ev w st :
  version (mutate args ev w st) = version (after_init args st).
Proof.
  unfold mutate.
  destruct (a_set_round args) as [r|]; [destruct (negb (r =? 0)%Z)|];
    destruct (a_thinking args) as [t|]; try destruct (truthy t);
    destruct (a_status args) as [s|]; try destruct (truthy s);
    destruct (a_add args); reflexivity.
Qed.

Lemma encodable_text_or o dflt :
  encodable_opt o = true -> encodable dflt = true ->
  encodable (text_or o dflt) = true.
Proof.
  unfold text_or. destruct o as [t|]; [|auto].
  destruct (truthy t); auto.
Qed.

Lemma encodable_args_parts args :
  encodable_args args = true ->
  encodable_opt (a_init args) = true /\ encodable_opt (a_agent args) = true
  /\ encodable_opt (a_content args) = true /\ encodable (a_type args) = true
  /\ encodable_opt (a_status args) = true
  /\ encodable_opt (a_thinking args) = true.
Proof.
  unfold encodable_args. rewrite !andb_true_iff. tauto.
Qed.

Lemma encodable_state_parts st :
  encodable_state st = true <->
  encodable (topic st) = true /\ encodable (status st) = true
  /\ encodable_opt (thinking st) = true
  /\ forallb encodable_entry (entries st) = true.
Proof.
  unfold encodable_state. rewrite !andb_true_iff. tauto.
Qed.

(** The [--init] branch replaces every text of the document. *)
Lemma after_init_encodable args st :
  encodable_args args = true ->
  initializes args = true \/ encodable_state st = true ->
  encodable_state (after_init args st) = true.
Proof.
  intros Ha H. apply encodable_args_parts in Ha. destruct Ha as (Hi & _).
  unfold after_init, initializes, truthy_opt in *.
  destruct (a_init args) as [t|].
  - destruct (truthy t).
    + apply encodable_state_parts. cbn. auto.
    + destruct H as [H|H]; [discriminate | exact H].
  - destruct H as [H|H]; [discriminate | exact H].
Qed.

(** The changes of one invocation keep the document encodable when the
    texts that the invocation brings are. *)
Lemma usable_input_parts args ev w :
  usable_input args ev w = true ->
  content_error args w = None /\ encodable_args args = true
  /\ encodable (now ev) = true /\ encodable (entry_content args w) = true.
Proof.
  unfold usable_input. destruct (content_error args w); [discriminate|].
  rewrite !andb_true_iff. tauto.
Qed.

Lemma can_save_parts args ev w st :
  can_save args ev w st = true <->
  content_error args w = None /\ encodable_state (mutate args ev w st) = true.
Proof.
  unfold can_save. destruct (content_error args w).
  - split; [discriminate | intros [H _]; discriminate H].
  - tauto.
Qed.

Lemma mutate_encodable args ev w st :
  usable_input args ev w = true ->
  initializes args = true \/ encodable_state st = true ->
  encodable_state (mutate args ev w st) = true.
Proof.
  intros Hin H. apply usable_input_parts in Hin.
  destruct Hin as (_ & Ha & Hn & Hc).
  pose proof (after_init_encodable args st Ha H) as H1.
  apply encodable_args_parts in Ha.
  destruct Ha as (_ & Hag & _ & Hty & Hs & Ht).
  unfold mutate. set (st1 := after_init args st) in *.
  assert (H2 : encodable_state
                 (if a_add args then do_add args ev w st1 else st1) = true).
  { destruct (a_add args); [|exact H1].
    apply encodable_state_parts in H1. destruct H1 as (T1 & T2 & T3 & T4).
    apply encodable_state_parts. unfold do_add. cbn [topic status thinking entries].
    repeat split; try assumption.
    rewrite forallb_app, T4. cbn [forallb andb]. unfold encodable_entry.
    cbn [e_agent e_content e_type e_timestamp].
    rewrite (encodable_text_or (a_agent args) (txt "unknown") Hag eq_refl),
      Hc, Hty, Hn. reflexivity. }
  set (st2 := if a_add args then _ else st1) in *.
  assert (H3 : encodable_state
                 match a_status args with
                 | Some s => if truthy s then set_status s st2 else st2
                 | None => st2
                 end = true).
  { destruct (a_status args) as [s|]; [|exact H2].
    destruct (truthy s); [|exact H2].
    apply encodable_state_parts in H2. destruct H2 as (T1 & T2 & T3 & T4).
    apply encodable_state_parts. cbn. auto. }
  set (st3 := match a_status args with Some _ => _ | None => _ end) in *.
  assert (H4 : encodable_state
                 match a_thinking args with
                 | Some t =>
                     if truthy t then
                       set_thinking
                         (if text_eqb (py_lower t) (txt "none") then None
                          else Some t) st3
                     else st3
                 | None => st3
                 end = true).
  { destruct (a_thinking args) as [t|]; [|exact H3].
    destruct (truthy t); [|exact H3].
    apply encodable_state_parts in H3. destruct H3 as (T1 & T2 & T3 & T4).
    apply encodable_state_parts. cbn [set_thinking topic status thinking entries].
    repeat split; try assumption.
    destruct (text_eqb (py_lower t) (txt "none")); [reflexivity | exact Ht]. }
  set (st4 := match a_thinking args with Some _ => _ | None => _ end) in *.
  destruct (a_set_round args) as [r|]; [|exact H4].
  destruct (negb (r =? 0)%Z); [|exact H4].
  apply encodable_state_parts in H4. destruct H4 as (T1 & T2 & T3 & T4).
  apply encodable_state_parts. cbn. auto.
Qed.

Lemma can_save_usable args ev w st :
  usable_input args ev w = true ->
  initializes args = true \/ encodable_state st = true ->
  can_save args ev w st = true.
Proof.
  intros Hi H. apply can_save_parts.
  split; [apply usable_input_parts in Hi; apply Hi|].
  apply mutate_encodable; assumption.
Qed.

(** What a saving invocation does to the files. *)
Lemma main_saves args ev w st0 :
  saves args -> load_state w = Ok st0 ->
  can_save args ev w st0 = true ->
  let st' := set_version (version (mutate args ev w st0) + 1)%Z
               (mutate args ev w st0) in
  main args ev w
  = Ok (with_html_file (build_html st') (with_state_file (Doc st') w)).
Proof.
  intros [Hs Hp] Hl He. apply can_save_parts in He. destruct He as [Hc He].
  unfold main, save_state. rewrite Hs, Hp, Hl, Hc.
  cbv zeta.
  change (encodable_state (set_version _ (mutate args ev w st0)))
    with (encodable_state (mutate args ev w st0)).
  rewrite He. reflexivity.
Qed.

(** A saving invocation whose document cannot be encoded raises in the
    save. *)
Lemma main_raises args ev w st0 :
  saves args -> load_state w = Ok st0 ->
  content_error args w = None ->
  encodable_state (mutate args ev w st0) = false ->
  main args ev w = Raise UnicodeEncodeError.
Proof.
  intros [Hs Hp] Hl Hc He. unfold main, save_state. rewrite Hs, Hp, Hl, Hc.
  cbv zeta.
  change (encodable_state (set_version _ (mutate args ev w st0)))
    with (encodable_state (mutate args ev w st0)).
  rewrite He. reflexivity.
Qed.

Lemma load_after_save p st w :
  load_state (with_html_file p (with_state_file (Doc st) w)) = Ok st.
Proof. reflexivity. Qed.

(** A saving invocation on a readable document succeeds, and the version it
    leaves is one more than the version after the [--init] branch. *)
Lemma main_version args ev w st0 :
  saves args -> load_state w = Ok st0 ->
  can_save args ev w st0 = true ->
  exists w' st',
    main args ev w = Ok w' /\ load_state w' = Ok st'
    /\ st' = set_version (version (mutate args ev w st0) + 1)%Z
               (mutate args ev w st0)
    /\ files w' = files w
    /\ version st' = ((if initializes args then 0 else version st0) + 1)%Z.
Proof.
  intros Hs Hl He. eexists _, _.
  split; [apply (main_saves _ _ _ _ Hs Hl He)|].
  split; [apply load_after_save|].
  split; [reflexivity|]. split; [reflexivity|].
  cbn [set_version version].
  rewrite version_mutate, version_after_init. reflexivity.
Qed.

(** The content of an entry depends on the store through the content files
    only. *)
Lemma usable_input_files args ev w w' :
  files w' = files w ->
  usable_input args ev w' = usable_input args ev w.
Proof.
  intros E.
  unfold usable_input, content_error, entry_content, path_exists, read_file.
  rewrite E. reflexivity.
Qed.

(** A sequence of saving invocations with encodable texts on a readable and
    encodable document succeeds. *)
Lemma run_versions ops : forall w st0,
  Forall (fun op => saves (fst op)) ops ->
  Forall (fun op => usable_input (fst op) (snd op) w = true) ops ->
  load_state w = Ok st0 ->
  (encodable_state st0 = true
   \/ exists op ops', ops = op :: ops' /\ initializes (fst op) = true) ->
  exists w' st',
    run ops w = Ok w' /\ load_state w' = Ok st'
    /\ files w' = files w
    /\ (Forall (fun op => initializes (fst op) = false) ops ->
        version st' = (version st0 + Z.of_nat (List.length ops))%Z).
Proof.
  induction ops as [|[args ev] ops IH]; intros w st0 Hs Hin Hl He.
  - exists w, st0. cbn. repeat split; auto. intros _. lia.
  - inversion Hs as [|? ? Ha Hrest]; subst. cbn in Ha.
    inversion Hin as [|? ? Hi Hirest]; subst. cbn [fst snd] in Hi.
    assert (Hm0 : encodable_state (mutate args ev w st0) = true).
    { apply mutate_encodable; [exact Hi|].
      destruct He as [He|(op & ops' & E & Hinit)]; [right; exact He|].
      injection E as <- _. left. exact Hinit. }
    assert (Hcs : can_save args ev w st0 = true).
    { apply can_save_parts. split; [|exact Hm0].
      apply usable_input_parts in Hi. apply Hi. }
    destruct (main_version args ev w st0 Ha Hl Hcs)
      as (w1 & st1 & Hm & Hl1 & Est1 & Hf1 & Hv1).
    assert (He1 : encodable_state st1 = true) by (rewrite Est1; exact Hm0).
    assert (Hin1 : Forall
                     (fun op => usable_input (fst op) (snd op) w1 = true)
                     ops).
    { revert Hirest. apply Forall_impl. intros op H.
      rewrite (usable_input_files _ _ w w1 Hf1). exact H. }
    destruct (IH w1 st1 Hrest Hin1 Hl1 (or_introl He1))
      as (w' & st' & Hr & Hl' & Hf' & Hv').
    exists w', st'. cbn [run]. rewrite Hm.
    split; [exact Hr|]. split; [exact Hl'|].
    split; [rewrite Hf'; exact Hf1|].
    intros Hni. inversion Hni as [|? ? Hn Hnrest]; subst. cbn in Hn.
    rewrite Hv' by assumption. rewrite Hv1, Hn.
    change (List.length ((args, ev) :: ops)) with (S (List.length ops)). lia.
Qed.

Lemma run_app ops1 : forall ops2 w,
  run (ops1 ++ ops2) w
  = match run ops1 w with Ok w1 => run ops2 w1 | Raise e => Raise e end.
Proof.
  induction ops1 as [|[args ev] ops1 IH]; intros ops2 w; cbn; [reflexivity|].
  destruct (main args ev w); [apply IH | reflexivity].
Qed.

(** C2, amended. A save of a document that UTF-8 can encode adds exactly
    one to the version and persists it; a save of a document with a lone
    surrogate raises and leaves a state file that holds no JSON.  A sequence
    of saving invocations that can read their content files and bring
    encodable texts, on a readable, encodable document, succeeds; without an initialization among them the final
    persisted version is the initial one plus their number, and after an
    initialization it is one (zero, then the increment of the same save)
    plus the number of invocations that follow it. *)
Theorem version_increments_by_one_per_save :
  forall (ops : list (arguments * env)) (w : world) (st0 : state),
    Forall (fun op => saves (fst op)) ops ->
    Forall (fun op => usable_input (fst op) (snd op) w = true) ops ->
    load_state w = Ok st0 ->
    encodable_state st0 = true ->
    exists w' st',
      run ops w = Ok w' /\ load_state w' = Ok st'
      /\ (forall st w0,
            encodable_state st = true ->
            exists st1,
              fst (save_state st w0) = Ok st1
              /\ version st1 = (version st + 1)%Z
              /\ load_state (snd (save_state st w0)) = Ok st1)
      /\ (forall st w0,
            encodable_state st = false ->
            fst (save_state st w0) = Raise UnicodeEncodeError
            /\ load_state (snd (save_state st w0)) = Raise JSONDecodeError)
      /\ (Forall (fun op => initializes (fst op) = false) ops ->
          version st' = (version st0 + Z.of_nat (List.length ops))%Z)
      /\ (forall ops1 args ev ops2,
            ops = ops1 ++ (args, ev) :: ops2 ->
            initializes args = true ->
            Forall (fun op => initializes (fst op) = false) ops2 ->
            version st' = (1 + Z.of_nat (List.length ops2))%Z).
Proof.
  intros ops w st0 Hs Hin Hl He.
  destruct (run_versions ops w st0 Hs Hin Hl (or_introl He))
    as (w' & st' & Hr & Hl' & _ & Hv).
  exists w', st'.
  split; [exact Hr|]. split; [exact Hl'|].
  split.
  { intros st w0 E. exists (set_version (version st + 1)%Z st).
    unfold save_state. cbv zeta.
    change (encodable_state (set_version (version st + 1) st))
      with (encodable_state st).
    rewrite E. repeat split. }
  split.
  { intros st w0 E. unfold save_state. cbv zeta.
    change (encodable_state (set_version (version st + 1) st))
      with (encodable_state st).
    rewrite E. split; reflexivity. }
  split; [exact Hv|].
  intros ops1 args ev ops2 -> Hi Hni.
  apply Forall_app in Hs. destruct Hs as [Hs1 Hs2].
  apply Forall_app in Hin. destruct Hin as [Hin1 Hin2].
  inversion Hs2 as [|? ? Ha Hs3]; subst. cbn in Ha.
  inversion Hin2 as [|? ? Hia Hin3]; subst. cbn [fst snd] in Hia.
  rewrite run_app in Hr.
  destruct (run_versions ops1 w st0 Hs1 Hin1 Hl (or_introl He))
    as (w1 & st1 & Hr1 & Hl1 & Hf1 & _).
  rewrite Hr1 in Hr.
  assert (Hin' : Forall
                   (fun op => usable_input (fst op) (snd op) w1 = true)
                   ((args, ev) :: ops2)).
  { revert Hin2. apply Forall_impl. intros op H.
    rewrite (usable_input_files _ _ w w1 Hf1). exact H. }
  destruct (run_versions ((args, ev) :: ops2) w1 st1 Hs2 Hin' Hl1)
    as (w3 & st3 & Hr3 & Hl3 & _ & _).
  { right. exists (args, ev), ops2. split; [reflexivity | exact Hi]. }
  clear Hr3 Hl3 w3 st3.
  cbn [run] in Hr.
  assert (Hia1 : usable_input args ev w1 = true)
    by (rewrite (usable_input_files _ _ w w1 Hf1); exact Hia).
  assert (Hm0 : encodable_state (mutate args ev w1 st1) = true)
    by (apply mutate_encodable; [exact Hia1 | left; exact Hi]).
  destruct (main_version args ev w1 st1 Ha Hl1
              (can_save_usable _ _ _ _ Hia1 (or_introl Hi)))
    as (w2 & st2 & Hm & Hl2 & Est2 & Hf2 & Hv2).
  rewrite Hm in Hr. rewrite Hi in Hv2.
  assert (Hin2' : Forall
                    (fun op => usable_input (fst op) (snd op) w2 = true)
                    ops2).
  { revert Hin3. apply Forall_impl. intros op H.
    rewrite (usable_input_files _ _ w w2); [exact H|].
    rewrite Hf2. exact Hf1. }
  assert (He2 : encodable_state st2 = true) by (rewrite Est2; exact Hm0).
  destruct (run_versions ops2 w2 st2 Hs3 Hin2' Hl2 (or_introl He2))
    as (w3 & st3 & Hr3 & Hl3 & _ & Hv3).
  rewrite Hr3 in Hr. injection Hr as <-. rewrite Hl3 in Hl'.
  injection Hl' as <-. rewrite Hv3 by assumption. lia.
Qed.

(** C7. Without a persisted document, [load_state] raises nothing and
    returns the defaults: empty topic, status in_progress, no thinking agent,
    round 1 of 3, version 0 and no entries. *)
Theorem load_state_missing_file_defaults :
  forall w : world,
    state_file w = None ->
    load_state w = Ok fresh_state
    /\ topic fresh_state = []
    /\ status fresh_state = txt "in_progress"
    /\ thinking fresh_state = None
    /\ current_round fresh_state = 1%Z
    /\ total_rounds fresh_state = 3%Z
    /\ version fresh_state = 0%Z
    /\ entries fresh_state = [].
Proof.
  intros w H. unfold load_state. rewrite H. repeat split.
Qed.

Lemma entries_mutate args ev w st :
  a_add args = false ->
  entries (mutate args ev w st) = entries (after_init args st).
Proof.
  intros Ha. unfold mutate. rewrite Ha.
  destruct (a_set_round args) as [r|]; [destruct (negb (r =? 0)%Z)|];
    destruct (a_thinking args) as [t|]; try destruct (truthy t);
    destruct (a_status args) as [s|]; try destruct (truthy s); reflexivity.
Qed.

Lemma entries_mutate_add args ev w st :
  a_add args = true ->
  entries (mutate args ev w st)
  = entries (do_add args ev w (after_init args st)).
Proof.
  intros Ha. unfold mutate. rewrite Ha.
  destruct (a_set_round args) as [r|]; [destruct (negb (r =? 0)%Z)|];
    destruct (a_thinking args) as [t|]; try destruct (truthy t);
    destruct (a_status args) as [s|]; try destruct (truthy s); reflexivity.
Qed.

Lemma topic_mutate args ev w st :
  topic (mutate args ev w st) = topic (after_init args st).
Proof.
  unfold mutate.
  destruct (a_set_round args) as [r|]; [destruct (negb (r =? 0)%Z)|];
    destruct (a_thinking args) as [t|]; try destruct (truthy t);
    destruct (a_status args) as [s|]; try destruct (truthy s);
    destruct (a_add args); reflexivity.
Qed.



(** C8, amended. An append whose content file does not exist succeeds on a
    store whose document is absent or readable, when UTF-8 can encode the
    document to save (no text of it holds a lone surrogate); the appended
    entry has the inline content when one is given and the empty text
    otherwise, and records the round, the agent, the type and the time of
    the turn. *)
Theorem add_missing_content_file :
  forall (args : arguments) (ev : env) (w : world) (st0 : state) (path : text),
    saves args ->
    a_add args = true ->
    a_content_file args = Some path ->
    path_exists w path = false ->
    load_state w = Ok st0 ->
    encodable_state (mutate args ev w st0) = true ->
    exists w' st' e,
      main args ev w = Ok w' /\ load_state w' = Ok st'
      /\ entries st' = entries (after_init args st0) ++ [e]
      /\ e_content e = text_or (a_content args) []
      /\ (truthy_opt (a_content args) = false -> e_content e = [])
      /\ e_round e
         = int_or (a_round args) (current_round (after_init args st0))
      /\ e_agent e = text_or (a_agent args) (txt "unknown")
      /\ e_type e = a_type args
      /\ e_timestamp e = now ev.
Proof.
  intros args ev w st0 path Hs Ha Hf Hne Hl He.
  assert (Hcs : can_save args ev w st0 = true).
  { apply can_save_parts. split; [|exact He].
    unfold content_error. rewrite Ha, Hf. cbn [truthy_opt text_or andb].
    unfold path_exists in Hne.
    destruct (truthy path); [|reflexivity].
    destruct (files w path); [discriminate | reflexivity]. }
  eexists _, _, _. split; [apply (main_saves _ _ _ _ Hs Hl Hcs)|].
  split; [apply load_after_save|].
  cbn [set_version entries].
  rewrite (entries_mutate_add _ _ _ _ Ha). unfold do_add. cbn [entries].
  split; [reflexivity|].
  cbn [e_content e_round e_agent e_type e_timestamp].
  assert (Hc : entry_content args w = text_or (a_content args) []).
  { unfold entry_content. rewrite Hf. cbn [truthy_opt text_or].
    destruct (truthy path); cbn [andb]; [rewrite Hne|];
      unfold truthy_opt, text_or; destruct (a_content args) as [c|];
      try destruct (truthy c); reflexivity. }
  rewrite Hc. repeat split.
  unfold truthy_opt, text_or. destruct (a_content args) as [c|]; [|reflexivity].
  intros ->. reflexivity.
Qed.

Lemma current_round_after_init args st :
  current_round st <> 0%Z -> current_round (after_init args st) <> 0%Z.
Proof.
  unfold after_init. destruct (a_init args) as [t|]; [destruct (truthy t)|];
    cbn; auto. discriminate.
Qed.

Lemma int_or_nonzero o dflt : dflt <> 0%Z -> int_or o dflt <> 0%Z.
Proof.
  intros H. unfold int_or. destruct o as [z|]; [|exact H].
  destruct (Z.eqb_spec z 0); assumption.
Qed.

Lemma no_round_zero_fields st t s cr tr v es :
  cr <> 0%Z -> Forall (fun e => e_round e <> 0%Z) es ->
  no_round_zero
    {| topic := t; status := s; thinking := st; current_round := cr;
       total_rounds := tr; version := v; entries := es |}.
Proof. intros; split; assumption. Qed.

(** The changes of one invocation keep the round 0 out of the document. *)
Lemma mutate_no_round_zero args ev w st :
  no_round_zero st -> no_round_zero (mutate args ev w st).
Proof.
  intros H. unfold mutate.
  assert (H1 : no_round_zero (after_init args st)).
  { unfold after_init. destruct (a_init args) as [t|]; [|exact H].
    destruct (truthy t); [|exact H].
    apply no_round_zero_fields; [discriminate | constructor]. }
  set (st1 := after_init args st) in *.
  assert (H2 : no_round_zero (if a_add args then do_add args ev w st1 else st1)).
  { destruct (a_add args); [|exact H1]. destruct H1 as [Hc He].
    apply no_round_zero_fields; [exact Hc|].
    apply Forall_app. split; [exact He|]. constructor; [|constructor].
    apply int_or_nonzero, Hc. }
  set (st2 := if a_add args then _ else st1) in *.
  assert (H3 : no_round_zero
                 match a_status args with
                 | Some s => if truthy s then set_status s st2 else st2
                 | None => st2
                 end).
  { destruct (a_status args) as [s|]; [destruct (truthy s)|]; exact H2. }
  set (st3 := match a_status args with Some _ => _ | None => _ end) in *.
  assert (H4 : no_round_zero
                 match a_thinking args with
                 | Some t =>
                     if truthy t then
                       set_thinking
                         (if text_eqb (py_lower t) (txt "none") then None
                          else Some t) st3
                     else st3
                 | None => st3
                 end).
  { destruct (a_thinking args) as [t|]; [destruct (truthy t)|]; exact H3. }
  set (st4 := match a_thinking args with Some _ => _ | None => _ end) in *.
  destruct (a_set_round args) as [r|]; [|exact H4].
  destruct (Z.eqb_spec r 0); cbn [negb]; [exact H4|].
  destruct H4 as [_ He]. split; assumption.
Qed.

Lemma main_no_round_zero args ev w st0 w' st' :
  load_state w = Ok st0 -> no_round_zero st0 ->
  main args ev w = Ok w' -> load_state w' = Ok st' -> no_round_zero st'.
Proof.
  intros Hl H0. unfold main.
  destruct (a_serve args).
  { intros Hw Hl'. injection Hw as <-.
    assert (E : load_state (start_server ev w) = load_state w).
    { unfold load_state, start_server, stop_server.
      destruct (pid_file w); reflexivity. }
    rewrite E, Hl in Hl'. injection Hl' as <-. exact H0. }
  destruct (a_stop_server args).
  { intros Hw Hl'. injection Hw as <-.
    assert (E : load_state (stop_server w) = load_state w).
    { unfold load_state, stop_server. destruct (pid_file w); reflexivity. }
    rewrite E, Hl in Hl'. injection Hl' as <-. exact H0. }
  rewrite Hl. destruct (content_error args w); [discriminate|].
  unfold save_state. cbv zeta.
  destruct (encodable_state _); [|discriminate].
  intros Hw Hl'. injection Hw as <-.
  rewrite load_after_save in Hl'. injection Hl' as <-.
  destruct (mutate_no_round_zero args ev w st0 H0) as [Hc He].
  split; assumption.
Qed.

(** X1. From a document without round 0 (as the defaults of a missing
    file are), no sequence of invocations makes the current round 0 or stores an
    entry of round 0. *)
Lemma command_line_never_stores_round_zero ops : forall w st0 w' st',
  load_state w = Ok st0 -> no_round_zero st0 ->
  run ops w = Ok w' -> load_state w' = Ok st' -> no_round_zero st'.
Proof.
  induction ops as [|[args ev] ops IH]; intros w st0 w' st' Hl H0; cbn [run].
  - intros Hw Hl'. injection Hw as <-. rewrite Hl in Hl'.
    injection Hl' as <-. exact H0.
  - destruct (main args ev w) as [w1|e] eqn:Hm; [|discriminate].
    destruct (load_state w1) as [st1|e] eqn:Hl1.
    + apply (IH w1 st1); [exact Hl1|].
      apply (main_no_round_zero args ev w st0 w1 st1); assumption.
    + exfalso. revert Hm. unfold main.
      destruct (a_serve args).
      { intros Hw. injection Hw as <-. revert Hl1.
        unfold load_state, start_server, stop_server in *.
        destruct (pid_file w); cbn; rewrite ?Hl; destruct (state_file w) as [[|?]|];
          discriminate. }
      destruct (a_stop_server args).
      { intros Hw. injection Hw as <-. revert Hl1.
        unfold load_state, stop_server in *.
        destruct (pid_file w); cbn; destruct (state_file w) as [[|?]|];
          discriminate. }
      rewrite Hl. destruct (content_error args w); [discriminate|].
      unfold save_state. cbv zeta.
      destruct (encodable_state _); [|discriminate].
      intros Hw. injection Hw as <-.
      rewrite load_after_save in Hl1. discriminate.
Qed.

(** C9. An append with round argument 0 on a readable document, when the
    save is reached and succeeds (the content file, if one is named, can be
    read, and UTF-8 can encode the document to save), stores the current
    round of the document in the entry, as an append without round
    argument does; the current round of a document is not 0 (the command
    line never makes it 0), and then the stored round is not 0 either. *)
Theorem add_round_zero_uses_current_round :
  forall (args : arguments) (ev : env) (w : world) (st0 : state),
    saves args ->
    a_add args = true ->
    a_round args = Some 0%Z ->
    load_state w = Ok st0 ->
    can_save args ev w st0 = true ->
    exists w' st' e,
      main args ev w = Ok w' /\ load_state w' = Ok st'
      /\ last_entry st' = Some e
      /\ e_round e = current_round (after_init args st0)
      /\ (current_round st0 <> 0%Z -> e_round e <> 0%Z)
      /\ main (with_round None args) ev w = Ok w'.
Proof.
  intros args ev w st0 Hs Ha Hr Hl He.
  eexists _, _, _. split; [apply (main_saves _ _ _ _ Hs Hl He)|].
  split; [apply load_after_save|].
  split.
  { unfold last_entry. cbn [set_version entries].
    rewrite (entries_mutate_add _ _ _ _ Ha). unfold do_add. cbn [entries].
    rewrite rev_app_distr. reflexivity. }
  cbn [e_round]. rewrite Hr. cbn [int_or Z.eqb].
  split; [reflexivity|].
  split; [apply current_round_after_init|].
  assert (Hs' : saves (with_round None args)) by exact Hs.
  assert (Hm : mutate (with_round None args) ev w st0 = mutate args ev w st0).
  { unfold mutate, do_add, after_init, entry_content. cbn. rewrite Hr. reflexivity. }
  assert (He' : can_save (with_round None args) ev w st0 = true).
  { unfold can_save. rewrite Hm. exact He. }
  rewrite (main_saves _ _ _ _ Hs' Hl He'), Hm. reflexivity.
Qed.



(** ** The block renderers *)

(** C6. The three rows make one table: a header row with the cells A and
    B, and a body with the one row of the cells 1 and 2.  The separator row
    leaves the state of the renderer as it is, whatever that state. *)
Theorem table_header_and_one_row :
  md_to_html table_rows
  = join [nl]
      [ html "<table class='debate-table'><thead><tr>";
        txt "<th>A</th>"; txt "<th>B</th>";
        txt "</tr></thead><tbody>";
        txt "<tr>"; txt "<td>1</td>"; txt "<td>2</td>"; txt "</tr>";
        txt "</tbody></table>" ]
  /\ (forall st, md_line st (txt "| --- | --- |") = st)
  /\ md_to_html table_rows
     = md_to_html (txt "| A | B |" ++ [nl] ++ txt "| 1 | 2 |").
Proof.
  split; [vm_compute; reflexivity|].
  split; [intros st; vm_compute; reflexivity|].
  vm_compute; reflexivity.
Qed.

(** C1. The two block renderers disagree on a header line with a carriage
    return inside its title: a header for the server, a paragraph for the
    client, so that the tag sequences differ. *)
Theorem renderers_disagree :
  md_to_html header_with_cr = txt "<h3>a" ++ [13] ++ txt "b</h3>"
  /\ mdToHtml header_with_cr = txt "<p># a" ++ [13] ++ txt "b</p>"
  /\ tag_sequence (md_to_html header_with_cr) = [txt "h3"; txt "/h3"]
  /\ tag_sequence (mdToHtml header_with_cr) = [txt "p"; txt "/p"].
Proof.
  repeat split; vm_compute; reflexivity.
Qed.

(** They also disagree on a header line after a byte-order mark, which only
    the client trims: a paragraph for the server, a header for the client. *)
Lemma renderers_disagree_after_bom :
  uni_isdecimal 65279 = false ->
  md_to_html header_after_bom = txt "<p>" ++ [65279] ++ txt "# Title</p>"
  /\ mdToHtml header_after_bom = txt "<h3>Title</h3>".
Proof.
  intros H. split; [|vm_compute; reflexivity].
  assert (Hn : re_match (re_numbered uni_isdecimal Python)
                 (strip Python header_after_bom) = None).
  { change (strip Python header_after_bom) with (65279 :: txt "# Title").
    unfold re_match, match_at, re_numbered, Plus.
    cbn [exec Nat.eqb rep_greedy]. rewrite H. reflexivity. }
  unfold md_to_html.
  change (split nl header_after_bom) with [header_after_bom].
  cbn [fold_left]. unfold md_line. cbv zeta. rewrite Hn.
  vm_compute. reflexivity.
Qed.

(** ** Round dividers *)

(** The server labels the group of round 0 Final Synthesis and every other
    group Round N. *)
Lemma ssr_round_label rounds r :
  ssr_round rounds r
  = html "<div class='round-divider'><span>"
    ++ (if (r =? 0)%Z then txt "Final Synthesis" else txt "Round " ++ dec_Z r)
    ++ txt "</span></div>" ++ [nl]
    ++ List.concat (map ssr_bubble (rounds_get rounds r)).
Proof. reflexivity. Qed.

(** C4. The server renders the entry of round 0 under the divider Final
    Synthesis; the client, appending the same entry, puts it under a divider
    Round 1 (or under the one already there), for every feed. *)
Theorem client_round_zero_divider :
  ssr_entries (entries synthesis_state)
  = html "<div class='round-divider'><span>Final Synthesis</span></div>"
    ++ [nl] ++ ssr_bubble synthesis_entry
  /\ feed (applyUpdate synthesis_state waiting_client)
     = [ RoundDivider (txt "Round 1");
         BubbleRow (renderBubble synthesis_entry true) ]
  /\ (forall e f renderedRounds,
        fst (append_entry (f, renderedRounds) (with_e_round 0 e))
        = f ++ (if has renderedRounds 1 then []
                else [RoundDivider (txt "Round 1")])
            ++ [BubbleRow (renderBubble (with_e_round 0 e) true)]).
Proof.
  split.
  { unfold ssr_entries, group_by_round.
    change (entries synthesis_state) with [synthesis_entry].
    cbn [fold_left setdefault_append map fst sorted fold_right insert_sorted
         List.concat].
    change (e_round synthesis_entry) with 0%Z.
    cbn [fold_left setdefault_append map fst sorted fold_right insert_sorted
         List.concat].
    rewrite app_nil_r, ssr_round_label.
    cbn [rounds_get Z.eqb map List.concat]. rewrite app_nil_r.
    reflexivity. }
  split.
  { reflexivity. }
  intros e f rr. unfold append_entry. cbn [with_e_round e_round].
  change (js_number 0) with 0%Z. cbn [Z.eqb].
  destruct (has rr 1); cbn [negb fst]; [reflexivity|].
  rewrite <- app_assoc. reflexivity.
Qed.

(** ** The matcher *)

Lemma lit_app l : forall pos s k,
  lit l pos (l ++ s) k = k (pos + List.length l)%nat s.
Proof.
  induction l as [|a l IH]; intros pos s k; cbn.
  - rewrite Nat.add_0_r. reflexivity.
  - rewrite N.eqb_refl, IH. f_equal. lia.
Qed.

Lemma lit_startswith_false l : forall pos s k,
  startswith l s = false -> lit l pos s k = None.
Proof.
  induction l as [|a l IH]; intros pos s k H; cbn in *; [discriminate|].
  destruct s as [|c s]; [reflexivity|].
  destruct (a =? c); [apply IH; exact H | reflexivity].
Qed.

Lemma startswith_app_false l : forall X c rest,
  startswith l X = false -> contains_char c l = false ->
  startswith l (X ++ c :: rest) = false.
Proof.
  induction l as [|a l IH]; intros X c rest H Hc; cbn in *; [discriminate|].
  apply orb_false_iff in Hc. destruct Hc as [Hca Hc].
  destruct X as [|x X]; cbn.
  - rewrite N.eqb_sym, Hca. reflexivity.
  - destruct (a =? x); cbn in *; [apply IH; assumption | reflexivity].
Qed.

(** A greedy repetition takes all of a run of the class when the rest of the
    pattern matches behind it. *)
Lemma rep_greedy_all p : forall A lo pos s k r,
  forallb p A = true ->
  match s with c :: _ => p c = false | [] => True end ->
  (lo <= List.length A)%nat ->
  k (pos + List.length A)%nat s = Some r ->
  rep_greedy p lo None pos (A ++ s) k = Some r.
Proof.
  induction A as [|a A IH]; intros lo pos s k r HA Hs Hlo Hk.
  - cbn in Hlo, Hk. rewrite Nat.add_0_r in Hk.
    assert (lo = 0)%nat as -> by lia.
    destruct s as [|c s]; cbn; [exact Hk|]. rewrite Hs. cbn. exact Hk.
  - cbn in HA. apply andb_true_iff in HA. destruct HA as [Ha HA].
    cbn [app rep_greedy]. rewrite Ha. cbn [andb can_more option_map].
    rewrite (IH (pred lo) (S pos) s k r); auto.
    + cbn in Hlo. lia.
    + cbn in Hk. rewrite <- Hk. f_equal. lia.
Qed.

(** A repetition fails when the rest of the pattern fails at every position
    behind it. *)
Lemma rep_greedy_fail p : forall s lo hi pos k,
  (forall n pos', k pos' (skipn n s) = None) ->
  rep_greedy p lo hi pos s k = None.
Proof.
  induction s as [|c s IH]; intros lo hi pos k H.
  - cbn. destruct (Nat.eqb lo 0); [apply (H 0%nat)|reflexivity].
  - cbn [rep_greedy].
    assert (Hrec : rep_greedy p (pred lo) (option_map pred hi) (S pos) s k
                   = None).
    { apply IH. intros n pos'. apply (H (S n)). }
    rewrite Hrec.
    destruct (p c && can_more hi);
      (destruct (Nat.eqb lo 0); [apply (H 0%nat)|reflexivity]).
Qed.

Lemma needs_first_lit a l r : needs_first (Seq (Lit (a :: l)) r) a.
Proof.
  intros pos s H. unfold match_at. cbn.
  destruct s as [|c s]; [reflexivity|].
  destruct (a =? c) eqn:E; [|reflexivity].
  apply N.eqb_eq in E. subst. exfalso. apply H. reflexivity.
Qed.

(** Where the pattern matches nowhere, the substitution changes nothing. *)
Lemma sub_from_unmatched r repl : forall s pos,
  unmatched r s -> sub_from r repl 0 pos s = s.
Proof.
  induction s as [|c s IH]; intros pos H; [reflexivity|].
  cbn [sub_from]. destruct H as [H Hs]. rewrite H, IH by exact Hs.
  reflexivity.
Qed.

Lemma unmatched_app r a : needs_first r a -> forall P s,
  forallb (other_than a) P = true -> unmatched r s -> unmatched r (P ++ s).
Proof.
  intros Hr. induction P as [|c P IH]; intros s HP Hs; [exact Hs|].
  cbn in HP. apply andb_true_iff in HP. destruct HP as [Hc HP].
  cbn. split; [|apply IH; assumption].
  intros pos. apply Hr. cbn. intros E. injection E as ->.
  unfold other_than in Hc. rewrite N.eqb_refl in Hc. discriminate.
Qed.

Lemma unmatched_nil r a : needs_first r a -> unmatched r [].
Proof.
  intros Hr. cbn. split; [|exact I]. intros pos. apply Hr. discriminate.
Qed.

Lemma unmatched_without r a s :
  needs_first r a -> forallb (other_than a) s = true -> unmatched r s.
Proof.
  intros Hr Hs. rewrite <- (app_nil_r s).
  apply (unmatched_app r a Hr); [exact Hs | apply (unmatched_nil r a Hr)].
Qed.

(** The characters of a match are passed over. *)
Lemma sub_from_skip r repl : forall M pos s,
  sub_from r repl (List.length M) pos (M ++ s)
  = sub_from r repl 0 (pos + List.length M) s.
Proof.
  induction M as [|c M IH]; intros pos s; cbn [List.length app].
  - rewrite Nat.add_0_r. reflexivity.
  - cbn [sub_from]. rewrite IH. f_equal. lia.
Qed.

(** The text before the first possible match is copied. *)
Lemma sub_from_prefix r repl a : needs_first r a -> forall P pos s,
  forallb (other_than a) P = true ->
  sub_from r repl 0 pos (P ++ s)
  = P ++ sub_from r repl 0 (pos + List.length P) s.
Proof.
  intros Hr. induction P as [|c P IH]; intros pos s HP.
  - cbn. rewrite Nat.add_0_r. reflexivity.
  - cbn in HP. apply andb_true_iff in HP. destruct HP as [Hc HP].
    cbn [app sub_from]. rewrite Hr.
    + rewrite IH by exact HP. cbn [List.length].
      replace (pos + S (List.length P))%nat with (S pos + List.length P)%nat
        by lia.
      reflexivity.
    + cbn. intros E. injection E as ->.
      unfold other_than in Hc. rewrite N.eqb_refl in Hc. discriminate.
Qed.

(** A match is replaced, and the substitution goes on behind it. *)
Lemma sub_from_match r repl pos c M rest g :
  match_at r pos (c :: M ++ rest)
  = Some ((pos + S (List.length M))%nat, rest, g) ->
  sub_from r repl 0 pos (c :: M ++ rest)
  = repl g ++ sub_from r repl 0 (pos + S (List.length M)) rest.
Proof.
  intros H. cbn [sub_from]. rewrite H.
  replace (Nat.eqb (pos + S (List.length M)) pos) with false
    by (symmetry; apply Nat.eqb_neq; lia).
  replace (pos + S (List.length M) - pos - 1)%nat with (List.length M) by lia.
  rewrite sub_from_skip.
  replace (S pos + List.length M)%nat with (pos + S (List.length M))%nat
    by lia.
  reflexivity.
Qed.

Lemma exec_seq r1 r2 pos s g k :
  exec (Seq r1 r2) pos s g k
  = exec r1 pos s g (fun pos' s' g' => exec r2 pos' s' g' k).
Proof. reflexivity. Qed.

Lemma exec_lit_app l pos s g k :
  exec (Lit l) pos (l ++ s) g k = k (pos + List.length l)%nat s g.
Proof. cbn. apply lit_app. Qed.

Lemma exec_rep_all p lo A pos s g k r :
  forallb p A = true ->
  match s with c :: _ => p c = false | [] => True end ->
  (lo <= List.length A)%nat ->
  k (pos + List.length A)%nat s g = Some r ->
  exec (Rep Greedy lo None p) pos (A ++ s) g k = Some r.
Proof. intros. cbn. apply rep_greedy_all; assumption. Qed.

Lemma exec_grp i r1 pos s g k :
  exec (Grp i r1) pos s g k
  = exec r1 pos s g
      (fun pos' s' g' => k pos' s' ((i, firstn (pos' - pos) s) :: g')).
Proof. reflexivity. Qed.

Lemma exec_opt_some r1 pos s g k x :
  exec r1 pos s g k = Some x -> exec (Opt r1) pos s g k = Some x.
Proof. intros H. cbn. rewrite H. reflexivity. Qed.

Lemma firstn_matched (A s : text) pos :
  firstn (pos + List.length A - pos) (A ++ s) = A.
Proof.
  replace (pos + List.length A - pos)%nat with (List.length A + 0)%nat by lia.
  rewrite firstn_app_2. cbn. apply app_nil_r.
Qed.

(** ** The inline formatter *)

(** The lengths of the literals. *)
Ltac literal_lengths :=
  repeat match goal with
         | |- context [List.length (txt ?s)] =>
             let n := eval vm_compute in (List.length (txt s)) in
             change (List.length (txt s)) with n
         end.

(** Right-nested concatenations. *)
Ltac right_nested :=
  repeat progress (rewrite <- ?app_assoc; cbn [app]).

Lemma citation_text_parts X Y url rest :
  citation_text X Y url ++ rest
  = txt "[Source:" ++ [32] ++ [dq] ++ X ++ [dq] ++ txt "," ++ [32] ++ Y
    ++ txt "](" ++ url ++ txt ")" ++ rest.
Proof.
  unfold citation_text, quoted. right_nested. reflexivity.
Qed.

Lemma citation_text_length X Y url :
  List.length (citation_text X Y url)
  = (16 + List.length X + List.length Y + List.length url)%nat.
Proof.
  unfold citation_text, quoted. right_nested.
  repeat (rewrite length_app; cbn [List.length]).
  literal_lengths. lia.
Qed.

Lemma starts_unspaced_head Y s :
  starts_unspaced Y = true ->
  match Y ++ s with c :: _ => ws Python c = false | [] => True end.
Proof.
  destruct Y as [|y Y]; cbn; [discriminate|]. intros H.
  apply negb_true_iff in H. exact H.
Qed.

Lemma nonempty_length (A : text) : A <> [] -> (1 <= List.length A)%nat.
Proof. destruct A; cbn; [congruence | lia]. Qed.

(** The citation pattern matches a citation, with the title, the extra text
    and the URL as its groups. *)
Lemma citation_match pos X Y url rest :
  X <> [] -> forallb (other_than dq) X = true ->
  starts_unspaced Y = true -> forallb (none_of "]") Y = true ->
  url <> [] -> forallb (none_of ")") url = true ->
  match_at (re_citation Python) pos (citation_text X Y url ++ rest)
  = Some ((pos + List.length (citation_text X Y url))%nat, rest,
          [(3%nat, url); (2%nat, Y); (1%nat, X)]).
Proof.
  intros HX0 HX HY0 HY Hu0 Hu.
  rewrite citation_text_parts, citation_text_length.
  unfold match_at, re_citation, Star, Plus.
  rewrite exec_seq, exec_lit_app.
  rewrite exec_seq. apply exec_rep_all; [reflexivity | reflexivity | cbn; lia |].
  rewrite exec_seq, exec_lit_app.
  rewrite exec_seq, exec_grp.
  apply exec_rep_all; [exact HX | reflexivity | apply nonempty_length, HX0 |].
  rewrite firstn_matched.
  rewrite exec_seq, exec_lit_app.
  rewrite exec_seq. apply exec_opt_some.
  rewrite exec_seq, exec_lit_app.
  rewrite exec_seq. apply exec_rep_all; [reflexivity | | cbn; lia |].
  { apply starts_unspaced_head, HY0. }
  rewrite exec_grp. apply exec_rep_all; [exact HY | reflexivity | lia |].
  rewrite firstn_matched.
  rewrite exec_seq, exec_lit_app.
  rewrite exec_seq, exec_grp.
  apply exec_rep_all; [exact Hu | reflexivity | apply nonempty_length, Hu0 |].
  rewrite firstn_matched.
  rewrite exec_lit_app.
  do 3 f_equal. cbn. lia.
Qed.

Lemma needs_first_citation d : needs_first (re_citation d) 91.
Proof. apply (needs_first_lit 91). Qed.

Lemma needs_first_unsourced d : needs_first (re_unsourced d) 91.
Proof. apply (needs_first_lit 91). Qed.

Lemma needs_first_link : needs_first re_link 91.
Proof. apply (needs_first_lit 91). Qed.

Lemma needs_first_bold d : needs_first (re_bold d) 42.
Proof. apply (needs_first_lit 42). Qed.

Lemma needs_first_code : needs_first re_code 96.
Proof. apply (needs_first_lit 96). Qed.

Lemma forallb_weaken (p q : char -> bool) (t : text) :
  (forall c, p c = true -> q c = true) ->
  forallb p t = true -> forallb q t = true.
Proof.
  intros H. induction t as [|c t IH]; cbn; [reflexivity|].
  intros Hc. apply andb_true_iff in Hc. destruct Hc as [Hc Ht].
  rewrite (H c Hc), (IH Ht). reflexivity.
Qed.

(** A plain text has none of the characters that [plain_char] rules out. *)
Lemma plain_other a t :
  plain_char a = false -> plain t = true -> forallb (other_than a) t = true.
Proof.
  intros Ha. apply forallb_weaken. intros c Hc. unfold other_than.
  apply negb_true_iff. apply N.eqb_neq. intros ->. congruence.
Qed.

Lemma plain_no_bracket t :
  plain t = true -> forallb (none_of "]") t = true.
Proof.
  apply forallb_weaken. intros c.
  unfold plain_char, none_of, contains_char, other_than. cbn.
  destruct (c =? 91), (c =? 93); cbn; congruence.
Qed.

Lemma plain_no_paren t :
  plain t = true -> forallb (none_of ")") t = true.
Proof.
  apply forallb_weaken. intros c.
  unfold plain_char, none_of, contains_char, other_than. cbn.
  destruct (c =? 91), (c =? 93), (c =? 40), (c =? 41); cbn; congruence.
Qed.

Lemma forallb_skipn (p : char -> bool) : forall n t,
  forallb p t = true -> forallb p (skipn n t) = true.
Proof.
  induction n as [|n IH]; intros t H; [exact H|].
  destruct t as [|c t]; [reflexivity|]. cbn in *.
  apply andb_true_iff in H. apply IH, H.
Qed.

(** A two-character literal fails on a text without its second character. *)
Lemma lit2_without_second a b pos s k :
  forallb (other_than b) s = true -> lit [a; b] pos s k = None.
Proof.
  intros H. destruct s as [|c [|c' s]]; cbn; [reflexivity| |].
  - destruct (a =? c); reflexivity.
  - destruct (a =? c); [|reflexivity].
    cbn in H. apply andb_true_iff in H. destruct H as [_ H].
    apply andb_true_iff in H. destruct H as [H _].
    unfold other_than in H. apply negb_true_iff in H.
    rewrite N.eqb_sym, H. reflexivity.
Qed.

(** The link pattern matches nowhere in a text without opening
    parenthesis. *)
Lemma link_match_needs_paren s pos :
  forallb (other_than 40) s = true -> match_at re_link pos s = None.
Proof.
  intros H. unfold match_at, re_link, Plus.
  rewrite exec_seq. cbn [exec]. change (txt "[") with [91].
  destruct s as [|c s]; cbn [lit]; [reflexivity|].
  destruct (91 =? c); [|reflexivity].
  apply rep_greedy_fail. intros n pos'. cbn [exec].
  change (txt "](") with [93; 40]. apply lit2_without_second.
  apply forallb_skipn. cbn in H. apply andb_true_iff in H. apply H.
Qed.

Lemma link_unmatched s :
  forallb (other_than 40) s = true -> unmatched re_link s.
Proof.
  induction s as [|c s IH]; intros H; cbn [unmatched].
  - split; [|exact I]. intros pos. apply link_match_needs_paren. reflexivity.
  - split.
    + intros pos. apply link_match_needs_paren. exact H.
    + apply IH. cbn in H. apply andb_true_iff in H. apply H.
Qed.

(** The unsourced pattern does not match at a bracket that a title follows
    which does not begin with the word Unsourced. *)
Lemma unsourced_match_needs_word d X rest pos :
  startswith (txt "Unsourced") X = false ->
  match_at (re_unsourced d) pos (91 :: X ++ 44 :: rest) = None.
Proof.
  intros H. unfold match_at, re_unsourced.
  rewrite exec_seq. cbn [exec]. change (txt "[Unsourced") with (91 :: txt "Unsourced").
  cbn [lit]. rewrite N.eqb_refl. apply lit_startswith_false.
  apply startswith_app_false; [exact H | reflexivity].
Qed.

Lemma starts_unspaced_truthy Y : starts_unspaced Y = true -> truthy Y = true.
Proof. destruct Y; [discriminate | reflexivity]. Qed.

(** The first pass turns the citation into its badge and copies the plain
    text around it. *)
Lemma citation_pass pre X Y url post :
  plain pre = true -> plain X = true -> plain Y = true -> plain url = true ->
  plain post = true ->
  X <> [] -> url <> [] -> starts_unspaced Y = true ->
  re_sub (re_citation Python) citation_repl
    (pre ++ citation_text X Y url ++ post)
  = pre ++ citation_badge X Y url ++ post.
Proof.
  intros Hpre HX HY Hu Hpost HX0 Hu0 HY0. unfold re_sub.
  rewrite (sub_from_prefix _ _ 91 (needs_first_citation Python))
    by (apply plain_other; [reflexivity | exact Hpre]).
  f_equal.
  set (pos := (0 + List.length pre)%nat).
  pose proof (citation_match pos X Y url post HX0
                (plain_other dq X eq_refl HX) HY0
                (plain_no_bracket Y HY) Hu0
                (plain_no_paren url Hu)) as Hm.
  set (M := tl (citation_text X Y url)).
  change (citation_text X Y url ++ post) with (91 :: M ++ post) in *.
  change (List.length (citation_text X Y url)) with (S (List.length M)) in Hm.
  rewrite (sub_from_match _ _ _ _ _ _ _ Hm).
  rewrite sub_from_unmatched
    by (apply (unmatched_without _ 91 _ (needs_first_citation Python));
        apply plain_other; [reflexivity | exact Hpost]).
  f_equal. unfold citation_repl, citation_badge, grp. cbn [group Nat.eqb].
  rewrite (starts_unspaced_truthy Y HY0). rewrite <- !app_assoc. reflexivity.
Qed.

Lemma citation_badge_parts X Y url post :
  citation_badge X Y url ++ post
  = (html "<a class='citation' href='" ++ url
     ++ html "' target='_blank' title='" ++ X ++ html "'>")
    ++ 91 :: X ++ 44 :: 32 :: Y ++ txt "]</a>" ++ post.
Proof.
  unfold citation_badge. right_nested. reflexivity.
Qed.

(** The badge brings in none of the characters [a] that the later passes
    look for. *)
Lemma output_without a pre X Y url post :
  plain_char a = false ->
  forallb (other_than a) (citation_badge [] [] []) = true ->
  plain pre = true -> plain X = true -> plain Y = true -> plain url = true ->
  plain post = true ->
  forallb (other_than a) (pre ++ citation_badge X Y url ++ post) = true.
Proof.
  intros Ha Hlit Hpre HX HY Hu Hpost.
  pose proof (plain_other a _ Ha Hpre). pose proof (plain_other a _ Ha HX).
  pose proof (plain_other a _ Ha HY). pose proof (plain_other a _ Ha Hu).
  pose proof (plain_other a _ Ha Hpost).
  unfold citation_badge in *. rewrite !forallb_app in *. cbn [app] in Hlit.
  repeat match goal with
         | H : _ && _ = true |- _ => apply andb_true_iff in H; destruct H
         end.
  rewrite !andb_true_iff. repeat split; assumption.
Qed.

(** The second pass finds no unsourced marker in the output of the first. *)
Lemma unsourced_pass pre X Y url post :
  plain pre = true -> plain X = true -> plain Y = true -> plain url = true ->
  plain post = true ->
  startswith (txt "Unsourced") X = false ->
  unmatched (re_unsourced Python) (pre ++ citation_badge X Y url ++ post).
Proof.
  intros Hpre HX HY Hu Hpost HU.
  pose proof (plain_other 91 _ eq_refl Hpre).
  pose proof (plain_other 91 _ eq_refl HX).
  pose proof (plain_other 91 _ eq_refl HY).
  pose proof (plain_other 91 _ eq_refl Hu).
  pose proof (plain_other 91 _ eq_refl Hpost).
  rewrite citation_badge_parts.
  apply (unmatched_app _ 91 (needs_first_unsourced Python)); [assumption|].
  apply (unmatched_app _ 91 (needs_first_unsourced Python)).
  { rewrite !forallb_app.
    rewrite !andb_true_iff. repeat split; try assumption; reflexivity. }
  cbn [unmatched]. split.
  - intros pos. apply unsourced_match_needs_word. exact HU.
  - apply (unmatched_without _ 91 _ (needs_first_unsourced Python)).
    rewrite !forallb_app. cbn [forallb].
    rewrite !forallb_app.
    rewrite !andb_true_iff. repeat split; try assumption; reflexivity.
Qed.

(** The link pattern alone matches the citation, as a link whose text is
    everything between the brackets. *)
Lemma link_match_citation pos X Y url rest :
  plain X = true -> plain Y = true -> plain url = true -> url <> [] ->
  match_at re_link pos (citation_text X Y url ++ rest)
  = Some ((pos + List.length (citation_text X Y url))%nat, rest,
          [(2%nat, url); (1%nat, txt "Source: " ++ quoted X ++ txt ", " ++ Y)]).
Proof.
  intros HX HY Hu Hu0.
  set (label := txt "Source: " ++ quoted X ++ txt ", " ++ Y).
  assert (Hparts : citation_text X Y url ++ rest
                   = txt "[" ++ label ++ txt "](" ++ url ++ txt ")" ++ rest).
  { unfold citation_text, label, quoted. right_nested. reflexivity. }
  assert (Hlen : List.length (citation_text X Y url)
                 = (1 + List.length label + 2 + List.length url + 1)%nat).
  { rewrite citation_text_length. unfold label, quoted.
    repeat (rewrite length_app; cbn [List.length]). literal_lengths. lia. }
  assert (Hlabel : forallb (none_of "]") label = true).
  { pose proof (plain_no_bracket _ HX).
    pose proof (plain_no_bracket _ HY).
    unfold label, quoted. rewrite !forallb_app. cbn [forallb].
    rewrite !forallb_app.
    rewrite !andb_true_iff. repeat split; try assumption; reflexivity. }
  assert (Hl0 : (1 <= List.length label)%nat).
  { unfold label. rewrite length_app. literal_lengths. lia. }
  rewrite Hparts, Hlen. clearbody label.
  unfold match_at, re_link, Plus.
  rewrite exec_seq, exec_lit_app.
  rewrite exec_seq, exec_grp.
  apply exec_rep_all; [exact Hlabel | reflexivity | exact Hl0 |].
  rewrite firstn_matched.
  rewrite exec_seq, exec_lit_app.
  rewrite exec_seq, exec_grp.
  apply exec_rep_all;
    [apply (plain_no_paren _ Hu) | reflexivity
    | apply nonempty_length, Hu0 |].
  rewrite firstn_matched.
  rewrite exec_lit_app.
  do 3 f_equal. cbn. lia.
Qed.

(** Without the first pass, the third would make a generic link of the
    citation. *)
Lemma link_pass_on_citation pre X Y url post :
  plain pre = true -> plain X = true -> plain Y = true -> plain url = true ->
  plain post = true -> url <> [] ->
  re_sub re_link link_repl (pre ++ citation_text X Y url ++ post)
  = pre ++ generic_link (txt "Source: " ++ quoted X ++ txt ", " ++ Y) url
    ++ post.
Proof.
  intros Hpre HX HY Hu Hpost Hu0. unfold re_sub.
  rewrite (sub_from_prefix _ _ 91 needs_first_link)
    by (apply plain_other; [reflexivity | exact Hpre]).
  f_equal.
  set (pos := (0 + List.length pre)%nat).
  pose proof (link_match_citation pos X Y url post HX HY Hu Hu0) as Hm.
  set (M := tl (citation_text X Y url)).
  change (citation_text X Y url ++ post) with (91 :: M ++ post) in *.
  change (List.length (citation_text X Y url)) with (S (List.length M)) in Hm.
  rewrite (sub_from_match _ _ _ _ _ _ _ Hm).
  rewrite sub_from_unmatched
    by (apply (unmatched_without _ 91 _ needs_first_link);
        apply plain_other; [reflexivity | exact Hpost]).
  unfold link_repl, generic_link, grp. cbn [group Nat.eqb].
  right_nested. reflexivity.
Qed.

(** C5, amended. The inline formatter runs its five substitutions in the
    order citation, unsourced marker, generic link, bold, inline code.  For a
    citation whose title, extra text and URL are plain (title and URL not
    empty, the extra text beginning with a character that is not white
    space, the title not beginning with the word Unsourced) inside a plain
    text, the output is the citation badge with the title as tooltip and the
    label made of title and extra text, although the link pattern alone
    would make a generic link of the same text, which the output is not. *)
Theorem citation_takes_precedence :
  forall pre X Y url post : text,
    plain pre = true -> plain X = true -> plain Y = true ->
    plain url = true -> plain post = true ->
    X <> [] -> url <> [] -> starts_unspaced Y = true ->
    startswith (txt "Unsourced") X = false ->
    (forall t,
       inline_format t
       = re_sub re_code code_repl
           (re_sub (re_bold Python) bold_repl
              (re_sub re_link link_repl
                 (re_sub (re_unsourced Python) unsourced_repl
                    (re_sub (re_citation Python) citation_repl t)))))
    /\ inline_format (pre ++ citation_text X Y url ++ post)
       = pre ++ citation_badge X Y url ++ post
    /\ re_sub re_link link_repl (pre ++ citation_text X Y url ++ post)
       = pre
         ++ generic_link (txt "Source: " ++ quoted X ++ txt ", " ++ Y) url
         ++ post
    /\ inline_format (pre ++ citation_text X Y url ++ post)
       <> re_sub re_link link_repl (pre ++ citation_text X Y url ++ post).
Proof.
  intros pre X Y url post Hpre HX HY Hu Hpost HX0 Hu0 HY0 HU.
  split; [reflexivity|].
  assert (Hfmt : inline_format (pre ++ citation_text X Y url ++ post)
                 = pre ++ citation_badge X Y url ++ post);
    [| split; [exact Hfmt|]; split;
       [apply link_pass_on_citation; assumption|];
       rewrite Hfmt, link_pass_on_citation by assumption;
       intros E; apply app_inv_head in E; discriminate E ].
  unfold inline_format, inline_passes.
  rewrite citation_pass by assumption.
  unfold re_sub.
  rewrite (sub_from_unmatched (re_unsourced Python))
    by (apply unsourced_pass; assumption).
  rewrite (sub_from_unmatched re_link)
    by (apply link_unmatched;
        apply output_without; try assumption; reflexivity).
  rewrite (sub_from_unmatched (re_bold Python))
    by (apply (unmatched_without _ 42 _ (needs_first_bold Python));
        apply output_without; try assumption; reflexivity).
  apply sub_from_unmatched.
  apply (unmatched_without _ 96 _ needs_first_code).
  apply output_without; try assumption; reflexivity.
Qed.

(** ** Agreement of the two dialects *)

Section Agreement.

(** A set of characters without the newline. *)
Variable N : char -> bool.
Hypothesis N_no_newline : forall c, N c = true -> (c =? nl) = false.

Lemma at_end_agree b1 b2 s :
  forallb N s = true -> at_end b1 s = at_end b2 s.
Proof.
  destruct s as [|c [|c' s]]; cbn; [reflexivity | | reflexivity].
  rewrite andb_true_r. intros Hc. rewrite (N_no_newline c Hc), !andb_false_r.
  reflexivity.
Qed.

Lemma lit_agree l : forall pos s k1 k2,
  forallb N s = true ->
  (forall pos' s', forallb N s' = true -> k1 pos' s' = k2 pos' s') ->
  lit l pos s k1 = lit l pos s k2.
Proof.
  induction l as [|a l IH]; intros pos s k1 k2 Hs Hk; cbn; [apply Hk, Hs|].
  destruct s as [|c s]; [reflexivity|].
  destruct (a =? c); [|reflexivity].
  cbn in Hs. apply andb_true_iff in Hs. apply IH; [apply Hs | exact Hk].
Qed.

Lemma rep_greedy_agree p q :
  (forall c, N c = true -> p c = q c) ->
  forall s lo hi pos k1 k2,
    forallb N s = true ->
    (forall pos' s', forallb N s' = true -> k1 pos' s' = k2 pos' s') ->
    rep_greedy p lo hi pos s k1 = rep_greedy q lo hi pos s k2.
Proof.
  intros Hpq. induction s as [|c s IH]; intros lo hi pos k1 k2 Hs Hk.
  - cbn. rewrite (Hk pos [] eq_refl). reflexivity.
  - cbn [rep_greedy]. rewrite (Hk pos (c :: s) Hs).
    cbn in Hs. apply andb_true_iff in Hs. destruct Hs as [Hc Hs].
    rewrite (Hpq c Hc).
    rewrite (IH (pred lo) (option_map pred hi) (S pos) k1 k2 Hs Hk).
    reflexivity.
Qed.

Lemma rep_lazy_agree p q :
  (forall c, N c = true -> p c = q c) ->
  forall s lo hi pos k1 k2,
    forallb N s = true ->
    (forall pos' s', forallb N s' = true -> k1 pos' s' = k2 pos' s') ->
    rep_lazy p lo hi pos s k1 = rep_lazy q lo hi pos s k2.
Proof.
  intros Hpq. induction s as [|c s IH]; intros lo hi pos k1 k2 Hs Hk.
  - cbn. rewrite (Hk pos [] eq_refl). reflexivity.
  - cbn [rep_lazy]. rewrite (Hk pos (c :: s) Hs).
    cbn in Hs. apply andb_true_iff in Hs. destruct Hs as [Hc Hs].
    rewrite (Hpq c Hc).
    rewrite (IH (pred lo) (option_map pred hi) (S pos) k1 k2 Hs Hk).
    reflexivity.
Qed.

(** Patterns of the same shape whose classes agree on [N] match the texts
    over [N] alike. *)
Lemma exec_agree r1 r2 :
  sim N r1 r2 ->
  forall pos s g k1 k2,
    forallb N s = true ->
    (forall pos' s' g', forallb N s' = true -> k1 pos' s' g' = k2 pos' s' g') ->
    exec r1 pos s g k1 = exec r2 pos s g k2.
Proof.
  induction 1 as [| b1 b2 | p q Hpq | l | qt lo hi p q Hpq
                  | r1 r2 r1' r2' _ IH1 _ IH2 | i r r' _ IH | r r' _ IH];
    intros pos s g k1 k2 Hs Hk; cbn [exec].
  - rewrite (Hk pos s g Hs). reflexivity.
  - rewrite (at_end_agree b1 b2 s Hs), (Hk pos s g Hs). reflexivity.
  - destruct s as [|c s]; [reflexivity|].
    cbn in Hs. apply andb_true_iff in Hs. destruct Hs as [Hc Hs].
    rewrite (Hpq c Hc), (Hk (S pos) s g Hs). reflexivity.
  - apply lit_agree; [exact Hs|]. intros pos' s' Hs'. apply Hk, Hs'.
  - destruct qt.
    + apply rep_greedy_agree; [exact Hpq | exact Hs|].
      intros pos' s' Hs'. apply Hk, Hs'.
    + apply rep_lazy_agree; [exact Hpq | exact Hs|].
      intros pos' s' Hs'. apply Hk, Hs'.
  - apply IH1; [exact Hs|]. intros pos' s' g' Hs'. apply IH2; [exact Hs' | exact Hk].
  - apply IH; [exact Hs|]. intros pos' s' g' Hs'. apply Hk, Hs'.
  - rewrite (IH pos s g k1 k2 Hs Hk), (Hk pos s g Hs). reflexivity.
Qed.

Lemma match_at_agree r1 r2 pos s :
  sim N r1 r2 -> forallb N s = true -> match_at r1 pos s = match_at r2 pos s.
Proof.
  intros Hr Hs. unfold match_at. apply (exec_agree r1 r2 Hr); [exact Hs|].
  reflexivity.
Qed.

Lemma re_match_agree r1 r2 s :
  sim N r1 r2 -> forallb N s = true -> re_match r1 s = re_match r2 s.
Proof.
  intros Hr Hs. unfold re_match. rewrite (match_at_agree r1 r2 0 s Hr Hs).
  reflexivity.
Qed.

Lemma sub_from_agree r1 r2 repl :
  sim N r1 r2 ->
  forall s skip pos,
    forallb N s = true ->
    sub_from r1 repl skip pos s = sub_from r2 repl skip pos s.
Proof.
  intros Hr. induction s as [|c s IH]; intros skip pos Hs; [reflexivity|].
  cbn [sub_from]. rewrite (match_at_agree r1 r2 pos (c :: s) Hr Hs).
  cbn in Hs. apply andb_true_iff in Hs. destruct Hs as [_ Hs].
  destruct skip as [|n]; [|apply IH, Hs].
  destruct (match_at r2 pos (c :: s)) as [[[e rest] g]|].
  - rewrite !(IH _ _ Hs). reflexivity.
  - rewrite (IH _ _ Hs). reflexivity.
Qed.

End Agreement.

Section Within.

(** Matching a text over a set of characters captures texts over it. *)
Variable N : char -> bool.

Lemma forallb_firstn n : forall t : text,
  forallb N t = true -> forallb N (firstn n t) = true.
Proof.
  induction n as [|n IH]; intros t H; [reflexivity|].
  destruct t as [|c t]; [reflexivity|]. cbn in *.
  apply andb_true_iff in H. destruct H as [Hc H].
  rewrite Hc, (IH t H). reflexivity.
Qed.

Lemma lit_invariant (Q : res -> Prop) l : forall pos s k x,
  forallb N s = true ->
  (forall pos' s', forallb N s' = true -> k pos' s' = Some x -> Q x) ->
  lit l pos s k = Some x -> Q x.
Proof.
  induction l as [|a l IH]; intros pos s k x Hs Hk; cbn; [apply Hk, Hs|].
  destruct s as [|c s]; [discriminate|].
  destruct (a =? c); [|discriminate].
  cbn in Hs. apply andb_true_iff in Hs. apply IH; [apply Hs | exact Hk].
Qed.

Lemma rep_greedy_invariant (Q : res -> Prop) p : forall s lo hi pos k x,
  forallb N s = true ->
  (forall pos' s', forallb N s' = true -> k pos' s' = Some x -> Q x) ->
  rep_greedy p lo hi pos s k = Some x -> Q x.
Proof.
  induction s as [|c s IH]; intros lo hi pos k x Hs Hk.
  - cbn. destruct (Nat.eqb lo 0); [apply Hk; reflexivity | discriminate].
  - cbn [rep_greedy].
    assert (Hhere : (if Nat.eqb lo 0 then k pos (c :: s) else None) = Some x
                    -> Q x).
    { destruct (Nat.eqb lo 0); [apply Hk, Hs | discriminate]. }
    cbn in Hs. apply andb_true_iff in Hs. destruct Hs as [_ Hs].
    destruct (p c && can_more hi); [|exact Hhere].
    destruct (rep_greedy p (pred lo) (option_map pred hi) (S pos) s k)
      as [y|] eqn:E; [|exact Hhere].
    intros Hy. injection Hy as ->. apply (IH _ _ _ _ _ Hs Hk E).
Qed.

Lemma rep_lazy_invariant (Q : res -> Prop) p : forall s lo hi pos k x,
  forallb N s = true ->
  (forall pos' s', forallb N s' = true -> k pos' s' = Some x -> Q x) ->
  rep_lazy p lo hi pos s k = Some x -> Q x.
Proof.
  induction s as [|c s IH]; intros lo hi pos k x Hs Hk.
  - cbn. destruct (Nat.eqb lo 0); [|discriminate].
    destruct (k pos []) as [y|] eqn:E; [|discriminate].
    intros Hy. injection Hy as ->. apply (Hk pos [] eq_refl E).
  - cbn [rep_lazy].
    assert (Hrec : (if p c && can_more hi
                    then rep_lazy p (pred lo) (option_map pred hi) (S pos) s k
                    else None) = Some x -> Q x).
    { destruct (p c && can_more hi); [|discriminate].
      cbn in Hs. apply andb_true_iff in Hs. apply IH; [apply Hs | exact Hk]. }
    destruct (Nat.eqb lo 0); [|exact Hrec].
    destruct (k pos (c :: s)) as [y|] eqn:E; [|exact Hrec].
    intros Hy. injection Hy as ->. apply (Hk _ _ Hs E).
Qed.

Lemma exec_invariant (Q : res -> Prop) r : forall pos s g k x,
  forallb N s = true -> within N g ->
  (forall pos' s' g',
     forallb N s' = true -> within N g' -> k pos' s' g' = Some x -> Q x) ->
  exec r pos s g k = Some x -> Q x.
Proof.
  induction r as [| b | p | l | qt lo hi p | r1 IH1 r2 IH2 | i r IH | r IH];
    intros pos s g k x Hs Hg Hk; cbn [exec].
  - destruct (Nat.eqb pos 0); [apply Hk; assumption | discriminate].
  - destruct (at_end b s); [apply Hk; assumption | discriminate].
  - destruct s as [|c s]; [discriminate|].
    destruct (p c); [|discriminate].
    cbn in Hs. apply andb_true_iff in Hs. apply Hk; [apply Hs | exact Hg].
  - apply lit_invariant; [exact Hs|]. intros pos' s' Hs'. apply Hk; assumption.
  - destruct qt.
    + apply rep_greedy_invariant; [exact Hs|].
      intros pos' s' Hs'. apply Hk; assumption.
    + apply rep_lazy_invariant; [exact Hs|].
      intros pos' s' Hs'. apply Hk; assumption.
  - apply IH1; [exact Hs | exact Hg|].
    intros pos' s' g' Hs' Hg'. apply IH2; assumption.
  - apply IH; [exact Hs | exact Hg|].
    intros pos' s' g' Hs' Hg'. apply Hk; [exact Hs'|].
    constructor; [apply forallb_firstn, Hs | exact Hg'].
  - destruct (exec r pos s g k) as [y|] eqn:E.
    + intros Hy. injection Hy as ->. apply (IH _ _ _ _ _ Hs Hg Hk E).
    + apply Hk; assumption.
Qed.

Lemma match_at_within r pos s e rest g :
  forallb N s = true -> match_at r pos s = Some (e, rest, g) -> within N g.
Proof.
  intros Hs. unfold match_at.
  apply (exec_invariant (fun x => within N (snd x))); [exact Hs | constructor|].
  intros pos' s' g' _ Hg' Hx. inversion Hx; subst. exact Hg'.
Qed.

Lemma re_match_within r s g :
  forallb N s = true -> re_match r s = Some g -> within N g.
Proof.
  intros Hs. unfold re_match.
  destruct (match_at r 0 s) as [[[e rest] g']|] eqn:E; [|discriminate].
  intros Hg. injection Hg as <-. apply (match_at_within _ _ _ _ _ _ Hs E).
Qed.

Lemma grp_within g i : within N g -> forallb N (grp g i) = true.
Proof.
  unfold grp. induction 1 as [|[j t] g Ht _ IH]; cbn; [reflexivity|].
  destruct (Nat.eqb i j); [exact Ht | exact IH].
Qed.

(** A substitution whose replacements stay within [N] keeps a text within
    [N]. *)
Lemma sub_from_within r repl :
  (forall g, within N g -> forallb N (repl g) = true) ->
  forall s skip pos,
    forallb N s = true -> forallb N (sub_from r repl skip pos s) = true.
Proof.
  intros Hrepl. induction s as [|c s IH]; intros skip pos Hs; [reflexivity|].
  cbn [sub_from]. pose proof Hs as Hcs.
  cbn in Hs. apply andb_true_iff in Hs. destruct Hs as [Hc Hs].
  destruct skip as [|n]; [|apply IH, Hs].
  destruct (match_at r pos (c :: s)) as [[[e rest] g]|] eqn:E.
  - pose proof (Hrepl g (match_at_within _ _ _ _ _ _ Hcs E)) as Hg.
    destruct (Nat.eqb e pos); rewrite forallb_app, Hg; cbn;
      [rewrite Hc|]; apply IH, Hs.
  - cbn. rewrite Hc. apply IH, Hs.
Qed.

End Within.

Lemma neutral_inline_no_newline c :
  neutral_inline c = true -> (c =? nl) = false.
Proof.
  unfold neutral_inline. intros H. apply andb_true_iff in H.
  destruct H as [_ H]. apply negb_true_iff, H.
Qed.

Lemma neutral_inline_ws c :
  neutral_inline c = true -> ws Python c = ws JavaScript c.
Proof.
  unfold neutral_inline. intros H. apply andb_true_iff in H.
  destruct H as [H _]. apply andb_true_iff in H. destruct H as [H _].
  apply eqb_prop, H.
Qed.

Lemma neutral_inline_dot c :
  neutral_inline c = true -> dot Python c = dot JavaScript c.
Proof.
  unfold neutral_inline. intros H. apply andb_true_iff in H.
  destruct H as [H _]. apply andb_true_iff in H. destruct H as [_ H].
  apply eqb_prop, H.
Qed.

(** The patterns of the two dialects have the same shape; their classes
    are the same or agree on the neutral characters. *)
Ltac same_shape agree_ws agree_dot :=
  repeat first
    [ apply sim_Seq | apply sim_Grp | apply sim_Opt | apply sim_Lit
    | apply sim_Bos | apply sim_Eos
    | apply sim_Rep; intros c Hc; first [reflexivity | apply agree_ws, Hc
                                         | apply agree_dot, Hc]
    | apply sim_Chr; intros c Hc; first [reflexivity | apply agree_ws, Hc
                                         | apply agree_dot, Hc] ].

Lemma sim_citation :
  sim neutral_inline (re_citation Python) (re_citation JavaScript).
Proof.
  unfold re_citation, Star, Plus.
  same_shape neutral_inline_ws neutral_inline_dot.
Qed.

Lemma sim_unsourced :
  sim neutral_inline (re_unsourced Python) (re_unsourced JavaScript).
Proof.
  unfold re_unsourced, Star, Plus.
  same_shape neutral_inline_ws neutral_inline_dot.
Qed.

Lemma sim_bold : sim neutral_inline (re_bold Python) (re_bold JavaScript).
Proof.
  unfold re_bold, PlusLazy. same_shape neutral_inline_ws neutral_inline_dot.
Qed.

(** The replacements are made of neutral literals and of captured texts. *)
Ltac neutral_pieces :=
  rewrite ?forallb_app, ?andb_true_iff; repeat split;
  first [reflexivity | apply grp_within; assumption].

Lemma citation_repl_neutral g :
  within neutral_inline g -> forallb neutral_inline (citation_repl g) = true.
Proof.
  intros Hg. unfold citation_repl.
  destruct (truthy (grp g 2)); neutral_pieces.
Qed.

Lemma unsourced_repl_neutral g :
  within neutral_inline g -> forallb neutral_inline (unsourced_repl g) = true.
Proof. intros Hg. unfold unsourced_repl. neutral_pieces. Qed.

Lemma link_repl_neutral g :
  within neutral_inline g -> forallb neutral_inline (link_repl g) = true.
Proof. intros Hg. unfold link_repl. neutral_pieces. Qed.

Lemma bold_repl_neutral g :
  within neutral_inline g -> forallb neutral_inline (bold_repl g) = true.
Proof. intros Hg. unfold bold_repl. neutral_pieces. Qed.

(** On a text of neutral characters the two inline formatters give the
    same result. *)
Lemma inline_formatters_agree t :
  forallb neutral_inline t = true -> inline_format t = inlineFmt t.
Proof.
  intros H0. unfold inline_format, inlineFmt, inline_passes, re_sub.
  rewrite <- (sub_from_agree neutral_inline neutral_inline_no_newline
                _ _ citation_repl sim_citation t 0 0 H0).
  pose proof (sub_from_within neutral_inline (re_citation Python)
                citation_repl citation_repl_neutral t 0%nat 0%nat H0) as H1.
  set (t1 := sub_from (re_citation Python) citation_repl 0 0 t) in *.
  rewrite <- (sub_from_agree neutral_inline neutral_inline_no_newline
                _ _ unsourced_repl sim_unsourced t1 0 0 H1).
  pose proof (sub_from_within neutral_inline (re_unsourced Python)
                unsourced_repl unsourced_repl_neutral t1 0%nat 0%nat H1) as H2.
  set (t2 := sub_from (re_unsourced Python) unsourced_repl 0 0 t1) in *.
  pose proof (sub_from_within neutral_inline re_link
                link_repl link_repl_neutral t2 0%nat 0%nat H2) as H3.
  set (t3 := sub_from re_link link_repl 0 0 t2) in *.
  rewrite <- (sub_from_agree neutral_inline neutral_inline_no_newline
                _ _ bold_repl sim_bold t3 0 0 H3).
  reflexivity.
Qed.

Lemma neutral_line_inline c : neutral_line c = true -> neutral_inline c = true.
Proof. unfold neutral_line. intros H. apply andb_true_iff in H. apply H. Qed.

Lemma neutral_line_no_newline c : neutral_line c = true -> (c =? nl) = false.
Proof. intros H. apply neutral_inline_no_newline, neutral_line_inline, H. Qed.

Lemma neutral_line_ws c :
  neutral_line c = true -> ws Python c = ws JavaScript c.
Proof. intros H. apply neutral_inline_ws, neutral_line_inline, H. Qed.

Lemma neutral_line_dot c :
  neutral_line c = true -> dot Python c = dot JavaScript c.
Proof. intros H. apply neutral_inline_dot, neutral_line_inline, H. Qed.

Lemma neutral_line_digit c :
  neutral_line c = true -> uni_isdecimal c = ascii_digit c.
Proof.
  unfold neutral_line. intros H. apply andb_true_iff in H.
  destruct H as [_ H]. apply eqb_prop, H.
Qed.

Lemma neutral_line_text t :
  forallb neutral_line t = true -> forallb neutral_inline t = true.
Proof. apply forallb_weaken, neutral_line_inline. Qed.

Lemma sim_separator :
  sim neutral_line (re_separator Python) (re_separator JavaScript).
Proof.
  unfold re_separator, Plus. same_shape neutral_line_ws neutral_line_dot.
Qed.

Lemma sim_header : sim neutral_line (re_header Python) (re_header JavaScript).
Proof.
  unfold re_header, Plus. same_shape neutral_line_ws neutral_line_dot.
Qed.

Lemma sim_bullet : sim neutral_line (re_bullet Python) (re_bullet JavaScript).
Proof.
  unfold re_bullet, Plus. same_shape neutral_line_ws neutral_line_dot.
Qed.

Lemma sim_numbered :
  sim neutral_line (re_numbered uni_isdecimal Python)
    (re_numbered ascii_digit JavaScript).
Proof.
  unfold re_numbered, Plus.
  apply sim_Seq; [apply sim_Bos|].
  apply sim_Seq; [apply sim_Rep; exact neutral_line_digit|].
  same_shape neutral_line_ws neutral_line_dot.
Qed.

(** A pattern that begins with [^] matches at the start or not at all. *)
Lemma search_from_bos r : forall s pos,
  search_from (Seq Bos r) (S pos) s = None.
Proof.
  induction s as [|c s IH]; intros pos; cbn; [reflexivity | apply IH].
Qed.

Lemma re_search_bos r s : re_search (Seq Bos r) s = re_match (Seq Bos r) s.
Proof.
  unfold re_search, re_match.
  destruct s as [|c s]; cbn [search_from];
    destruct (match_at (Seq Bos r) 0 _) as [[[e rest] g]|]; try reflexivity.
  apply search_from_bos.
Qed.

Lemma forallb_dropwhile (N p : char -> bool) : forall t,
  forallb N t = true -> forallb N (dropwhile p t) = true.
Proof.
  induction t as [|c t IH]; intros H; [reflexivity|]. cbn.
  destruct (p c); [|exact H].
  cbn in H. apply andb_true_iff in H. apply IH, H.
Qed.

Lemma forallb_rev (N : char -> bool) (t : text) :
  forallb N t = true -> forallb N (rev t) = true.
Proof.
  rewrite !forallb_forall. intros H c Hc. apply H, in_rev, Hc.
Qed.

Lemma dropwhile_agree (N p q : char -> bool) :
  (forall c, N c = true -> p c = q c) ->
  forall t, forallb N t = true -> dropwhile p t = dropwhile q t.
Proof.
  intros Hpq. induction t as [|c t IH]; intros H; [reflexivity|]. cbn.
  cbn in H. apply andb_true_iff in H. destruct H as [Hc H].
  rewrite (Hpq c Hc), (IH H). reflexivity.
Qed.

Lemma strip_neutral (N : char -> bool) d t :
  forallb N t = true -> forallb N (strip d t) = true.
Proof.
  intros H. unfold strip, strip_class.
  apply forallb_rev, forallb_dropwhile, forallb_rev, forallb_dropwhile, H.
Qed.

Lemma strip_agree t :
  forallb neutral_line t = true -> strip JavaScript t = strip Python t.
Proof.
  intros H. unfold strip, strip_class.
  rewrite (dropwhile_agree neutral_line (ws JavaScript) (ws Python)) with (t := t);
    [|intros c Hc; symmetry; apply neutral_line_ws, Hc | exact H].
  rewrite (dropwhile_agree neutral_line (ws JavaScript) (ws Python));
    [reflexivity | intros c Hc; symmetry; apply neutral_line_ws, Hc|].
  apply forallb_rev, forallb_dropwhile, H.
Qed.

Lemma split_neutral (N : char -> bool) sep : forall t,
  forallb N t = true -> Forall (fun l => forallb N l = true) (split sep t).
Proof.
  induction t as [|c t IH]; intros H; cbn.
  - repeat constructor.
  - cbn in H. apply andb_true_iff in H. destruct H as [Hc H].
    specialize (IH H). destruct (c =? sep).
    + constructor; [reflexivity | exact IH].
    + destruct (split sep t) as [|h rest].
      * repeat constructor. cbn. rewrite Hc. reflexivity.
      * inversion IH; subst. constructor; [|assumption].
        cbn. rewrite Hc. assumption.
Qed.

Lemma slice_neutral (P : text -> Prop) (l : list text) :
  Forall P l -> Forall P (slice_1_m1 l).
Proof.
  intros H. unfold slice_1_m1.
  assert (Ht : Forall P (tl l)) by (destruct H; [constructor | assumption]).
  induction Ht as [|x l' Hx Hl IH]; cbn; [constructor|].
  destruct l' as [|y l'']; [constructor|]. constructor; [exact Hx | exact IH].
Qed.

(** The lines of a neutral text are neutral and hold no newline. *)
Lemma lines_neutral : forall t,
  neutral_text t = true ->
  Forall (fun l => forallb neutral_line l = true) (split nl t).
Proof.
  induction t as [|c t IH]; intros H; cbn.
  - repeat constructor.
  - unfold neutral_text in H. cbn in H. apply andb_true_iff in H.
    destruct H as [Hc H]. specialize (IH H). destruct (c =? nl).
    + constructor; [reflexivity | exact IH].
    + cbn in Hc. destruct (split nl t) as [|h rest].
      * repeat constructor. cbn. rewrite Hc. reflexivity.
      * inversion IH; subst. constructor; [|assumption].
        cbn. rewrite Hc. assumption.
Qed.

Lemma same_append x y st js :
  x = y -> same_state st js -> same_state (append x st) (push y js).
Proof.
  intros -> (Hr & Hl & Ht). unfold same_state. cbn. rewrite Hr. auto.
Qed.

Lemma same_set_in_list b st js :
  same_state st js -> same_state (set_in_list b st) (setInList b js).
Proof. intros (Hr & Hl & Ht). unfold same_state. cbn. auto. Qed.

Lemma same_set_in_table b st js :
  same_state st js -> same_state (set_in_table b st) (setInTable b js).
Proof. intros (Hr & Hl & Ht). unfold same_state. cbn. auto. Qed.

(** The client has no counterpart of [table_header_done], which the server
    writes and never reads. *)
Lemma same_set_table_header_done b st js :
  same_state st js -> same_state (set_table_header_done b st) js.
Proof. intros (Hr & Hl & Ht). unfold same_state. cbn. auto. Qed.

Lemma same_close_list st js :
  same_state st js -> same_state (close_list st) (closeList js).
Proof.
  intros H. unfold close_list, closeList.
  pose proof H as (_ & Hl & _). rewrite <- Hl.
  destruct (in_list st); [|exact H].
  apply same_set_in_list, same_append; [reflexivity | exact H].
Qed.

Lemma same_close_table st js :
  same_state st js -> same_state (close_table st) (closeTable js).
Proof.
  intros H. unfold close_table, closeTable.
  pose proof H as (_ & _ & Ht). rewrite <- Ht.
  destruct (in_table st); [|exact H].
  apply same_set_table_header_done, same_set_in_table, same_append;
    [reflexivity | exact H].
Qed.

Lemma same_cells (f f' : text -> text) cells :
  Forall (fun c => f c = f' c) cells ->
  forall st js,
    same_state st js ->
    same_state (fold_left (fun st c => append (f c) st) cells st)
      (fold_left (fun st c => push (f' c) st) cells js).
Proof.
  induction 1 as [|c cells Hc _ IH]; intros st js H; cbn; [exact H|].
  apply IH, same_append; assumption.
Qed.

Lemma separator_search c :
  forallb neutral_line c = true ->
  re_search (re_separator JavaScript) c = re_match (re_separator Python) c.
Proof.
  intros H. unfold re_separator at 1. rewrite re_search_bos. symmetry.
  apply (re_match_agree neutral_line neutral_line_no_newline
           _ _ c sim_separator H).
Qed.

Lemma header_search s :
  forallb neutral_line s = true ->
  re_search (re_header JavaScript) s = re_match (re_header Python) s.
Proof.
  intros H. unfold re_header at 1. rewrite re_search_bos. symmetry.
  apply (re_match_agree neutral_line neutral_line_no_newline
           _ _ s sim_header H).
Qed.

Lemma bullet_search s :
  forallb neutral_line s = true ->
  re_search (re_bullet JavaScript) s = re_match (re_bullet Python) s.
Proof.
  intros H. unfold re_bullet at 1. rewrite re_search_bos. symmetry.
  apply (re_match_agree neutral_line neutral_line_no_newline
           _ _ s sim_bullet H).
Qed.

Lemma numbered_search s :
  forallb neutral_line s = true ->
  re_search (re_numbered ascii_digit JavaScript) s
  = re_match (re_numbered uni_isdecimal Python) s.
Proof.
  intros H. unfold re_numbered at 1. rewrite re_search_bos. symmetry.
  apply (re_match_agree neutral_line neutral_line_no_newline
           _ _ s sim_numbered H).
Qed.

(** The text of a group of a match on a neutral line is formatted alike. *)
Lemma group_formatted_alike r s m i :
  forallb neutral_line s = true -> re_match r s = Some m ->
  inline_format (grp m i) = inlineFmt (grp m i).
Proof.
  intros Hs Hm. apply inline_formatters_agree, neutral_line_text.
  apply grp_within. apply (re_match_within neutral_line r s m Hs Hm).
Qed.

(** The cells of a table row, stripped by either dialect. *)
Lemma cells_agree s :
  forallb neutral_line s = true ->
  map (strip JavaScript) (slice_1_m1 (split 124 s))
  = map (strip Python) (slice_1_m1 (split 124 s))
  /\ Forall (fun c => forallb neutral_line c = true)
       (map (strip Python) (slice_1_m1 (split 124 s))).
Proof.
  intros Hs.
  pose proof (slice_neutral _ _ (split_neutral neutral_line 124 s Hs)) as Hc.
  induction Hc as [|c cells Hc _ [IH1 IH2]]; cbn; [split; constructor|].
  rewrite (strip_agree c Hc), IH1. split; [reflexivity|].
  constructor; [apply strip_neutral, Hc | exact IH2].
Qed.

Lemma separators_agree cells :
  Forall (fun c => forallb neutral_line c = true) cells ->
  forallb (fun c => matches (re_search (re_separator JavaScript) c)) cells
  = forallb (fun c => matches (re_match (re_separator Python) c)) cells.
Proof.
  induction 1 as [|c cells Hc _ IH]; cbn; [reflexivity|].
  rewrite (separator_search c Hc), IH. reflexivity.
Qed.

(** One line takes the two renderers from the same state to the same
    state. *)
Lemma md_line_agree st js line :
  same_state st js -> forallb neutral_line line = true ->
  same_state (md_line st line) (mdLine js line).
Proof.
  intros H Hline. unfold md_line, mdLine. cbv zeta.
  rewrite (strip_agree line Hline).
  pose proof (strip_neutral neutral_line Python line Hline) as Hs.
  set (s := strip Python line) in *.
  destruct (negb (truthy s)).
  { apply same_append; [reflexivity|].
    apply same_close_table, same_close_list, H. }
  rewrite (andb_comm (startswith (txt "|") s)).
  destruct (contains_char 124 s && startswith (txt "|") s).
  { destruct (cells_agree s Hs) as [Hcells Hn]. rewrite Hcells.
    set (cells := map (strip Python) (slice_1_m1 (split 124 s))) in *.
    rewrite (separators_agree cells Hn).
    destruct (forallb _ cells); [exact H|].
    assert (Hfmt : forall a b,
              Forall (fun c => a ++ inline_format c ++ b = a ++ inlineFmt c ++ b)
                cells).
    { intros a b. clear -Hn. induction Hn as [|c cells Hc _ IH]; constructor;
        [|exact IH].
      rewrite (inline_formatters_agree c (neutral_line_text c Hc)).
      reflexivity. }
    pose proof H as (_ & _ & Ht). rewrite <- Ht.
    destruct (in_table st); cbn [negb].
    - apply same_append; [reflexivity|].
      apply (same_cells (fun c => txt "<td>" ++ inline_format c ++ txt "</td>")
               (fun c => txt "<td>" ++ inlineFmt c ++ txt "</td>"));
        [apply Hfmt|].
      apply same_append; [reflexivity | exact H].
    - apply same_set_table_header_done, same_set_in_table.
      apply same_append; [reflexivity|].
      apply (same_cells (fun c => txt "<th>" ++ inline_format c ++ txt "</th>")
               (fun c => txt "<th>" ++ inlineFmt c ++ txt "</th>"));
        [apply Hfmt|].
      apply same_append; [reflexivity | exact H]. }
  apply same_close_table in H.
  set (st1 := close_table st) in *. set (js1 := closeTable js) in *.
  rewrite (header_search s Hs), (bullet_search s Hs), (numbered_search s Hs).
  destruct (re_match (re_header Python) s) as [m|] eqn:Eh.
  { apply same_append; [|apply same_close_list, H].
    rewrite (group_formatted_alike _ s m 2 Hs Eh). reflexivity. }
  assert (Hitem : forall r m,
            re_match r s = Some m ->
            same_state (list_item (grp m 1) (open_list st1))
              (push (txt "  <li>" ++ inlineFmt (grp m 1) ++ txt "</li>")
                 (if negb (inList js1)
                  then setInList true
                         (push (html "<ul class='debate-list'>") js1)
                  else js1))).
  { intros r m Hm. unfold list_item, open_list.
    pose proof H as (_ & Hl & _). rewrite <- Hl.
    apply same_append.
    - rewrite (group_formatted_alike r s m 1 Hs Hm). reflexivity.
    - destruct (negb (in_list st1)); [|exact H].
      apply same_set_in_list, same_append; [reflexivity | exact H]. }
  destruct (re_match (re_bullet Python) s) as [m|] eqn:Eb.
  { apply (Hitem _ m Eb). }
  destruct (re_match (re_numbered uni_isdecimal Python) s) as [m|] eqn:En.
  { apply (Hitem _ m En). }
  apply same_append; [|apply same_close_list, H].
  rewrite (inline_formatters_agree s (neutral_line_text s Hs)). reflexivity.
Qed.

Lemma md_lines_agree lines :
  Forall (fun l => forallb neutral_line l = true) lines ->
  forall st js,
    same_state st js ->
    same_state (fold_left md_line lines st) (fold_left mdLine lines js).
Proof.
  induction 1 as [|l lines Hl _ IH]; intros st js H; cbn; [exact H|].
  apply IH, md_line_agree; assumption.
Qed.

(** X2. On every text made of newlines and of characters that mean the
    same in both dialects, the two block renderers produce the same text. *)
Theorem renderers_agree_on_neutral_text :
  forall t, neutral_text t = true -> md_to_html t = mdToHtml t.
Proof.
  intros t Ht. unfold md_to_html, mdToHtml.
  destruct t as [|c t]; [reflexivity|].
  cbn [truthy is_empty negb]. cbv zeta.
  pose proof (md_lines_agree _ (lines_neutral _ Ht) md_init
                {| js_result := []; inList := false; inTable := false |}
                (conj eq_refl (conj eq_refl eq_refl))) as H.
  set (st := fold_left md_line (split nl (c :: t)) md_init) in *.
  set (js := fold_left mdLine (split nl (c :: t)) _) in *.
  assert (H1 : same_state (if in_list st then append (txt "</ul>") st else st)
                 (if inList js then push (txt "</ul>") js else js)).
  { pose proof H as (_ & Hl & _). rewrite <- Hl.
    destruct (in_list st); [apply same_append; [reflexivity|]|]; exact H. }
  set (st1 := if in_list st then _ else st) in *.
  set (js1 := if inList js then _ else js) in *.
  assert (H2 : same_state
                 (if in_table st1 then append (txt "</tbody></table>") st1
                  else st1)
                 (if inTable js1 then push (txt "</tbody></table>") js1
                  else js1)).
  { pose proof H1 as (_ & _ & Htb). rewrite <- Htb.
    destruct (in_table st1); [apply same_append; [reflexivity|]|]; exact H1. }
  destruct H2 as (Hr & _ & _). rewrite Hr. reflexivity.
Qed.

(** Both paths label the divider of a round other than 0 with the word
    Round and the number, for a number in the range where the numbers of the
    script are exact. *)
Lemma round_label_nonzero r :
  r <> 0%Z -> safe_integer r = true ->
  round_label r = txt "Round " ++ dec_Z r
  /\ renderRoundDivider r = RoundDivider (txt "Round " ++ dec_Z r).
Proof.
  intros H Hs. unfold round_label, renderRoundDivider, js_string.
  rewrite Hs. destruct (Z.eqb_spec r 0); [contradiction|]. split; reflexivity.
Qed.

(** ** More on the command line *)

Lemma after_init_without args st :
  initializes args = false -> after_init args st = st.
Proof.
  unfold initializes, truthy_opt, after_init.
  destruct (a_init args) as [t|]; [|reflexivity]. intros ->. reflexivity.
Qed.

Lemma total_rounds_mutate args ev w st :
  total_rounds (mutate args ev w st) = total_rounds st.
Proof.
  unfold mutate, after_init.
  destruct (a_set_round args) as [r|]; [destruct (negb (r =? 0)%Z)|];
    destruct (a_thinking args) as [t|]; try destruct (truthy t);
    destruct (a_status args) as [s|]; try destruct (truthy s);
    destruct (a_add args);
    destruct (a_init args) as [i|]; try destruct (truthy i); reflexivity.
Qed.

Lemma current_round_mutate_set args ev w st r :
  a_set_round args = Some r -> r <> 0%Z ->
  current_round (mutate args ev w st) = r.
Proof.
  intros Hr Hn. unfold mutate. rewrite Hr.
  destruct (Z.eqb_spec r 0); [contradiction|]. reflexivity.
Qed.

Lemma load_state_start_server ev w :
  load_state (start_server ev w) = load_state w.
Proof.
  unfold load_state, start_server, stop_server.
  destruct (pid_file w); reflexivity.
Qed.

Lemma load_state_stop_server w : load_state (stop_server w) = load_state w.
Proof. unfold load_state, stop_server. destruct (pid_file w); reflexivity. Qed.

(** What an invocation that succeeds leaves in the state file: the document
    as it was, or the changed document with the next version. *)
Lemma main_load_cases args ev w st0 w' :
  load_state w = Ok st0 -> main args ev w = Ok w' ->
  load_state w' = Ok st0
  \/ (saves args
      /\ load_state w'
         = Ok (set_version (version (mutate args ev w st0) + 1)%Z
                 (mutate args ev w st0))).
Proof.
  intros Hl. unfold main.
  destruct (a_serve args) eqn:Hs.
  { intros H. injection H as <-. left. rewrite load_state_start_server.
    exact Hl. }
  destruct (a_stop_server args) eqn:Hp.
  { intros H. injection H as <-. left. rewrite load_state_stop_server.
    exact Hl. }
  rewrite Hl. destruct (content_error args w); [discriminate|].
  unfold save_state. cbv zeta.
  destruct (encodable_state _); [|discriminate].
  intros H. injection H as <-. right.
  split; [split; assumption | apply load_after_save].
Qed.

(** A property of documents that the changes of an invocation and the
    increment of the version keep is kept by every sequence of
    invocations. *)
Lemma run_keeps (P : state -> Prop) :
  (forall args ev w st, P st -> P (mutate args ev w st)) ->
  (forall v st, P st -> P (set_version v st)) ->
  forall ops w st0 w',
    load_state w = Ok st0 -> P st0 -> run ops w = Ok w' ->
    exists st', load_state w' = Ok st' /\ P st'.
Proof.
  intros Hm Hv. induction ops as [|[args ev] ops IH]; intros w st0 w' Hl H0;
    cbn [run].
  - intros H. injection H as <-. exists st0. split; assumption.
  - destruct (main args ev w) as [w1|e] eqn:E; [|discriminate].
    destruct (main_load_cases args ev w st0 w1 Hl E) as [Hl1|[_ Hl1]].
    + apply (IH w1 st0 w' Hl1 H0).
    + apply (IH w1 _ w' Hl1). apply Hv, Hm, H0.
Qed.

(** X3. Without an initialization, a sequence of saving invocations that
    can read their content files and bring encodable texts, on a readable,
    encodable document, succeeds and only
    appends to the entries, as many entries as there are appends, and leaves
    the topic as it is. *)
Theorem entries_append_only :
  forall (ops : list (arguments * env)) (w : world) (st0 : state),
    Forall (fun op => saves (fst op)) ops ->
    Forall (fun op => initializes (fst op) = false) ops ->
    Forall (fun op => usable_input (fst op) (snd op) w = true) ops ->
    load_state w = Ok st0 ->
    encodable_state st0 = true ->
    exists w' st' added,
      run ops w = Ok w' /\ load_state w' = Ok st'
      /\ entries st' = entries st0 ++ added
      /\ List.length added = count_adds ops
      /\ topic st' = topic st0.
Proof.
  induction ops as [|[args ev] ops IH]; intros w st0 Hs Hi Hin Hl He.
  - exists w, st0, []. cbn. rewrite app_nil_r. repeat split; assumption.
  - inversion Hs as [|? ? Ha Hs']; subst. inversion Hi as [|? ? Hn Hi']; subst.
    inversion Hin as [|? ? Hia Hin']; subst.
    cbn in Ha, Hn. cbn [fst snd] in Hia. cbn [run].
    assert (Hm0 : encodable_state (mutate args ev w st0) = true)
      by (apply mutate_encodable; [exact Hia | right; exact He]).
    rewrite (main_saves args ev w st0 Ha Hl
               (can_save_usable _ _ _ _ Hia (or_intror He))). cbv zeta.
    set (st1 := set_version _ (mutate args ev w st0)).
    set (w1 := with_html_file (build_html st1) (with_state_file (Doc st1) w)).
    assert (Hin1 : Forall
                     (fun op => usable_input (fst op) (snd op) w1 = true)
                     ops).
    { revert Hin'. apply Forall_impl. intros op H.
      rewrite (usable_input_files _ _ w w1 eq_refl). exact H. }
    destruct (IH w1 st1 Hs' Hi' Hin1 (load_after_save _ _ _) Hm0)
      as (w' & st' & added & Hr & Hl' & Hent & Hlen & Ht).
    assert (Ht1 : topic st1 = topic st0).
    { unfold st1. cbn [set_version topic].
      rewrite topic_mutate, (after_init_without _ _ Hn). reflexivity. }
    unfold count_adds. cbn [filter fst]. fold (count_adds ops).
    destruct (a_add args) eqn:Hadd.
    + exists w', st', (new_entry args ev w st0 :: added).
      repeat split; try assumption.
      * rewrite Hent. unfold st1. cbn [set_version entries].
        rewrite (entries_mutate_add _ _ _ _ Hadd), (after_init_without _ _ Hn).
        unfold do_add. cbn [entries]. rewrite <- app_assoc. reflexivity.
      * cbn. rewrite Hlen. reflexivity.
      * rewrite Ht. exact Ht1.
    + exists w', st', added. repeat split; try assumption.
      * rewrite Hent. unfold st1. cbn [set_version entries].
        rewrite (entries_mutate _ _ _ _ Hadd), (after_init_without _ _ Hn).
        reflexivity.
      * rewrite Ht. exact Ht1.
Qed.

(** X4. No sequence of invocations changes the total number of rounds, not
    even an initialization. *)
Theorem total_rounds_never_changes :
  forall (ops : list (arguments * env)) (w w' : world) (st0 : state),
    load_state w = Ok st0 ->
    run ops w = Ok w' ->
    exists st', load_state w' = Ok st' /\ total_rounds st' = total_rounds st0.
Proof.
  intros ops w w' st0 Hl Hr.
  apply (run_keeps (fun st => total_rounds st = total_rounds st0))
    with (ops := ops) (w := w) (st0 := st0); auto.
  intros args ev w0 st H. rewrite total_rounds_mutate. exact H.
Qed.

(** X5. An invocation with [--serve] or [--stop-server] succeeds whatever the
    state file holds, and leaves the state file, the page and the content
    files as they are, whatever other flags come with it. *)
Theorem serve_and_stop_leave_the_files :
  forall (args : arguments) (ev : env) (w : world),
    a_serve args = true \/ a_stop_server args = true ->
    exists w',
      main args ev w = Ok w'
      /\ state_file w' = state_file w
      /\ html_file w' = html_file w
      /\ files w' = files w.
Proof.
  intros args ev w H. unfold main.
  destruct (a_serve args).
  - exists (start_server ev w). unfold start_server, stop_server.
    destruct (pid_file w); repeat split.
  - destruct H as [H|H]; [discriminate|]. rewrite H.
    exists (stop_server w). unfold stop_server.
    destruct (pid_file w); repeat split.
Qed.


Lemma current_round_after_init_cases args st :
  current_round (after_init args st)
  = if initializes args then 1%Z else current_round st.
Proof.
  unfold after_init, initializes, truthy_opt.
  destruct (a_init args) as [t|]; [destruct (truthy t)|]; reflexivity.
Qed.

(** X7. An append that comes with [--set-round] and without [--round],
    when the save is reached and succeeds (the content file, if one is
    named, can be read, and UTF-8 can encode the document to save), tags
    the entry with the current round as it is
    when the entry is made (the round of the loaded document, or 1 when the
    same invocation initializes), and only then sets the new current
    round. *)
Theorem add_with_set_round_uses_previous_round :
  forall (args : arguments) (ev : env) (w : world) (st0 : state) (r : Z),
    saves args ->
    a_add args = true ->
    a_round args = None ->
    a_set_round args = Some r ->
    r <> 0%Z ->
    load_state w = Ok st0 ->
    can_save args ev w st0 = true ->
    exists w' st' e,
      main args ev w = Ok w' /\ load_state w' = Ok st'
      /\ last_entry st' = Some e
      /\ e_round e = (if initializes args then 1%Z else current_round st0)
      /\ current_round st' = r.
Proof.
  intros args ev w st0 r Hs Ha Hr Hsr Hn Hl He.
  eexists _, _, _. split; [apply (main_saves _ _ _ _ Hs Hl He)|].
  split; [apply load_after_save|].
  cbn [set_version]. split.
  { unfold last_entry. cbn [set_version entries].
    rewrite (entries_mutate_add _ _ _ _ Ha). unfold do_add. cbn [entries].
    rewrite rev_app_distr. reflexivity. }
  cbn [set_version e_round current_round].
  rewrite Hr. cbn [int_or]. split; [apply current_round_after_init_cases|].
  apply current_round_mutate_set; assumption.
Qed.

(** X8. An initialization that comes with an append, when the save is
    reached and succeeds (the content file, if one is named, can be read,
    and UTF-8 can encode the document to save), starts over: the document then holds the appended entry alone,
    tagged with round 1 unless a round is given. *)
Theorem init_with_add_starts_over :
  forall (T : text) (args : arguments) (ev : env) (w : world) (st0 : state),
    truthy T = true ->
    a_init args = Some T ->
    saves args ->
    a_add args = true ->
    load_state w = Ok st0 ->
    can_save args ev w st0 = true ->
    exists w' st' e,
      main args ev w = Ok w' /\ load_state w' = Ok st'
      /\ entries st' = [e]
      /\ e_round e = int_or (a_round args) 1
      /\ e_content e = entry_content args w
      /\ topic st' = T.
Proof.
  intros T args ev w st0 HT Hi Hs Ha Hl He.
  assert (Hai : after_init args st0 = do_init T st0).
  { unfold after_init. rewrite Hi, HT. reflexivity. }
  eexists _, _, _. split; [apply (main_saves _ _ _ _ Hs Hl He)|].
  split; [apply load_after_save|].
  cbn [set_version entries topic].
  rewrite (entries_mutate_add _ _ _ _ Ha), topic_mutate, Hai.
  unfold do_add. cbn [entries do_init app]. repeat split.
Qed.

Lemma main_consistent args ev w w' :
  (saves args \/ consistent w) -> main args ev w = Ok w' -> consistent w'.
Proof.
  intros H. unfold main.
  destruct (a_serve args) eqn:Hs.
  { intros E. injection E as <-. destruct H as [[H _]|(st & H1 & H2)];
      [congruence|].
    exists st. unfold start_server, stop_server.
    destruct (pid_file w); split; assumption. }
  destruct (a_stop_server args) eqn:Hp.
  { intros E. injection E as <-. destruct H as [[_ H]|(st & H1 & H2)];
      [congruence|].
    exists st. unfold stop_server. destruct (pid_file w); split; assumption. }
  destruct (load_state w) as [st0|e]; [|discriminate].
  destruct (content_error args w); [discriminate|].
  unfold save_state. cbv zeta.
  destruct (encodable_state _); [|discriminate].
  intros E. injection E as <-.
  eexists. split; reflexivity.
Qed.

(** X9. After a sequence of invocations that begins with a saving one, the
    page on disk is the page of the document on disk. *)
Theorem page_matches_document :
  forall (args : arguments) (ev : env) (ops : list (arguments * env))
         (w w' : world),
    saves args ->
    run ((args, ev) :: ops) w = Ok w' ->
    consistent w'.
Proof.
  intros args ev ops w w' Hs. cbn [run].
  destruct (main args ev w) as [w1|e] eqn:E; [|discriminate].
  pose proof (main_consistent args ev w w1 (or_introl Hs) E) as H1.
  clear E Hs. revert w1 H1.
  induction ops as [|[a e] ops IH]; intros w1 H1; cbn [run].
  - intros H. injection H as <-. exact H1.
  - destruct (main a e w1) as [w2|err] eqn:E; [|discriminate].
    apply IH. apply (main_consistent a e w1 w2 (or_intror H1) E).
Qed.

Lemma stop_server_tracked w : servers_tracked w -> servers (stop_server w) = [].
Proof.
  unfold servers_tracked, stop_server. destruct (pid_file w) as [p|]; cbn;
    [|auto].
  intros [->| ->]; cbn; [rewrite Z.eqb_refl|]; reflexivity.
Qed.

Lemma main_servers_tracked args ev w w' :
  servers_tracked w -> main args ev w = Ok w' -> servers_tracked w'.
Proof.
  intros H. unfold main.
  destruct (a_serve args).
  { intros E. injection E as <-. unfold servers_tracked, start_server.
    cbn [pid_file servers]. left. rewrite (stop_server_tracked w H).
    reflexivity. }
  destruct (a_stop_server args).
  { intros E. injection E as <-. unfold servers_tracked.
    destruct (pid_file (stop_server w)); [right|];
      apply stop_server_tracked, H. }
  destruct (load_state w) as [st0|e]; [|discriminate].
  destruct (content_error args w); [discriminate|].
  unfold save_state. cbv zeta.
  destruct (encodable_state _); [|discriminate].
  intros E. injection E as <-. exact H.
Qed.

(** X10. Starting a server stops the one that the PID file names: from a
    store where at most the named server runs, every sequence of invocations
    leaves at most the named server running; after [--stop-server] none
    runs, and after [--serve] exactly the spawned one. *)
Theorem at_most_one_server :
  forall (ops : list (arguments * env)) (w w' : world),
    servers_tracked w ->
    run ops w = Ok w' ->
    servers_tracked w'
    /\ (List.length (servers w') <= 1)%nat
    /\ servers (stop_server w') = []
    /\ (forall ev, servers (start_server ev w') = [spawned_pid ev]
                   /\ pid_file (start_server ev w') = Some (spawned_pid ev)).
Proof.
  intros ops w w' H0 Hr.
  assert (H : servers_tracked w').
  { revert w H0 Hr. induction ops as [|[a e] ops IH]; intros w H0; cbn [run].
    - intros E. injection E as <-. exact H0.
    - destruct (main a e w) as [w1|err] eqn:E; [|discriminate].
      apply IH. apply (main_servers_tracked a e w w1 H0 E). }
  split; [exact H|]. split.
  { unfold servers_tracked in H. destruct (pid_file w') as [p|];
      [destruct H as [-> | ->]|rewrite H]; cbn; lia. }
  split; [apply stop_server_tracked, H|].
  intros ev. unfold start_server. cbn [servers pid_file].
  rewrite (stop_server_tracked w' H). split; reflexivity.
Qed.

(** ** More on the page *)

(** X11. The topic of the page holds none of the characters [<], [>], the
    double and the single quote, whatever the topic of the document; a topic
    without these and without ampersand is shown as it is. *)
Theorem topic_is_escaped :
  forall st : state,
    forallb (fun c => negb (markup_char c)) (pg_topic (build_html st)) = true
    /\ (forallb (fun c => negb (markup_char c || (c =? 38))) (topic st) = true
        -> pg_topic (build_html st) = topic st).
Proof.
  intros st. cbn [build_html pg_topic]. generalize (topic st) as t.
  induction t as [|c t [IH1 IH2]]; [split; reflexivity|].
  unfold html_escape in *. cbn [flat_map]. split.
  - rewrite forallb_app, IH1, andb_true_r. unfold markup_char.
    destruct (c =? 38) eqn:E1; [reflexivity|].
    destruct (c =? 60) eqn:E2; [reflexivity|].
    destruct (c =? 62) eqn:E3; [reflexivity|].
    destruct (c =? 34) eqn:E4; [reflexivity|].
    destruct (c =? 39) eqn:E5; [reflexivity|].
    cbn. rewrite E2, E3, E4, E5. reflexivity.
  - cbn [forallb]. intros H. apply andb_true_iff in H. destruct H as [Hc Ht].
    rewrite (IH2 Ht). unfold markup_char in Hc.
    destruct (c =? 38); [rewrite !orb_true_r in Hc; discriminate|].
    destruct (c =? 60); [discriminate|].
    destruct (c =? 62); [discriminate|].
    destruct (c =? 34); [discriminate|].
    destruct (c =? 39); [discriminate|]. reflexivity.
Qed.

Lemma rounds_get_setdefault r e : forall rounds r',
  rounds_get (setdefault_append r e rounds) r'
  = if (r =? r')%Z then rounds_get rounds r' ++ [e] else rounds_get rounds r'.
Proof.
  induction rounds as [|[k v] rounds IH]; intros r'; cbn.
  - destruct (r =? r')%Z; reflexivity.
  - destruct (Z.eqb_spec k r) as [->|Hkr]; cbn.
    + destruct (r =? r')%Z; reflexivity.
    + rewrite IH. destruct (Z.eqb_spec k r') as [->|Hkr']; [|reflexivity].
      destruct (Z.eqb_spec r r'); [congruence | reflexivity].
Qed.

Lemma rounds_get_fold es : forall rounds r,
  rounds_get
    (fold_left (fun rounds e => setdefault_append (e_round e) e rounds) es
       rounds) r
  = rounds_get rounds r ++ entries_of_round r es.
Proof.
  induction es as [|e es IH]; intros rounds r; cbn.
  - rewrite app_nil_r. reflexivity.
  - rewrite IH, rounds_get_setdefault.
    destruct (e_round e =? r)%Z; [rewrite <- app_assoc|]; reflexivity.
Qed.

(** The group of a round holds the entries of the round in their order. *)
Lemma rounds_get_group es r :
  rounds_get (group_by_round es) r = entries_of_round r es.
Proof. unfold group_by_round. rewrite rounds_get_fold. reflexivity. Qed.

Lemma keys_setdefault r e : forall rounds r',
  In r' (map fst (setdefault_append r e rounds))
  <-> r' = r \/ In r' (map fst rounds).
Proof.
  induction rounds as [|[k v] rounds IH]; intros r'; cbn.
  - intuition.
  - destruct (Z.eqb_spec k r) as [->|Hkr]; cbn; [intuition|].
    rewrite IH. intuition.
Qed.

Lemma keys_setdefault_nodup r e : forall rounds,
  NoDup (map fst rounds) -> NoDup (map fst (setdefault_append r e rounds)).
Proof.
  induction rounds as [|[k v] rounds IH]; cbn; intros H.
  - repeat constructor. intros [].
  - inversion H as [|? ? Hk Hr]; subst.
    destruct (Z.eqb_spec k r) as [->|Hkr]; cbn; [constructor; assumption|].
    constructor; [|apply IH, Hr].
    rewrite keys_setdefault. intros [E|E]; [congruence | contradiction].
Qed.

Lemma keys_fold es : forall rounds,
  NoDup (map fst rounds) ->
  NoDup (map fst (fold_left
                    (fun rounds e => setdefault_append (e_round e) e rounds)
                    es rounds))
  /\ (forall r,
        In r (map fst (fold_left
                         (fun rounds e =>
                            setdefault_append (e_round e) e rounds)
                         es rounds))
        <-> In r (map fst rounds) \/ exists e, In e es /\ e_round e = r).
Proof.
  induction es as [|e es IH]; intros rounds H; cbn [fold_left].
  - split; [exact H|]. intros r. split; [auto|].
    intros [Hr|(e & [] & _)]. exact Hr.
  - destruct (IH _ (keys_setdefault_nodup (e_round e) e rounds H)) as [H1 H2].
    split; [exact H1|]. intros r. rewrite H2, keys_setdefault. split.
    + intros [[->|Hr]|(e' & He' & Hr)].
      * right. exists e. split; [left|]; reflexivity.
      * left. exact Hr.
      * right. exists e'. split; [right|]; assumption.
    + intros [Hr|(e' & [->|He'] & Hr)].
      * left. right. exact Hr.
      * left. left. symmetry. exact Hr.
      * right. exists e'. split; assumption.
Qed.

Lemma insert_sorted_in x : forall l y,
  In y (insert_sorted x l) <-> y = x \/ In y l.
Proof.
  induction l as [|z l IH]; intros y; cbn.
  - intuition.
  - destruct (x <=? z)%Z; cbn; [intuition|]. rewrite IH. intuition.
Qed.

Lemma ascending_cons x l :
  ascending (x :: l) <-> (forall y, In y l -> (x < y)%Z) /\ ascending l.
Proof.
  revert x. induction l as [|z l IH]; intros x.
  - cbn. intuition.
  - change (ascending (x :: z :: l)) with ((x < z)%Z /\ ascending (z :: l)).
    rewrite (IH z). split.
    + intros (Hxz & Hz & Hl). split; [|split; assumption].
      intros y [->|Hy]; [exact Hxz|]. specialize (Hz y Hy). lia.
    + intros (Hx & Hz & Hl).
      split; [apply Hx; left; reflexivity|]. split; assumption.
Qed.

Lemma insert_sorted_ascending x : forall l,
  ascending l -> ~ In x l -> ascending (insert_sorted x l).
Proof.
  induction l as [|z l IH]; intros Ha Hx; [exact I|].
  cbn [insert_sorted]. destruct (Z.leb_spec x z) as [Hle|Hgt].
  - apply ascending_cons. split; [|exact Ha].
    apply ascending_cons in Ha. destruct Ha as [Hz _].
    assert (x <> z) by (intros ->; apply Hx; left; reflexivity).
    intros y [->|Hy]; [lia|]. specialize (Hz y Hy). lia.
  - apply ascending_cons in Ha. destruct Ha as [Hz Hl].
    apply ascending_cons. split.
    + intros y Hy. apply insert_sorted_in in Hy. destruct Hy as [->|Hy];
        [lia | apply Hz, Hy].
    + apply IH; [exact Hl|]. intros H. apply Hx. right. exact H.
Qed.

Lemma sorted_ascending : forall keys,
  NoDup keys ->
  ascending (sorted keys) /\ (forall r, In r (sorted keys) <-> In r keys).
Proof.
  induction keys as [|k keys IH]; intros H; [split; [exact I | reflexivity]|].
  inversion H as [|? ? Hk Hn]; subst. destruct (IH Hn) as [Ha Hi].
  unfold sorted in *. cbn [fold_right]. split.
  - apply insert_sorted_ascending; [exact Ha|]. rewrite Hi. exact Hk.
  - intros r. rewrite insert_sorted_in, Hi. cbn. intuition.
Qed.

Lemma ascending_nodup : forall l, ascending l -> NoDup l.
Proof.
  induction l as [|x l IH]; intros H; [constructor|].
  apply ascending_cons in H. destruct H as [Hx Hl].
  constructor; [|apply IH, Hl]. intros Hin. specialize (Hx x Hin). lia.
Qed.

(** A round that occurs once among the rounds counts an entry once. *)
Lemma groups_length_cons e es : forall ks,
  NoDup ks ->
  List.length (flat_map (fun r => entries_of_round r (e :: es)) ks)
  = ((if existsb (Z.eqb (e_round e)) ks then 1 else 0)
     + List.length (flat_map (fun r => entries_of_round r es) ks))%nat.
Proof.
  induction ks as [|k ks IH]; intros H; [reflexivity|].
  inversion H as [|? ? Hk Hn]; subst. cbn [flat_map existsb].
  rewrite !length_app, (IH Hn). unfold entries_of_round at 1. cbn [filter].
  destruct (Z.eqb_spec (e_round e) k) as [E|E]; cbn [orb List.length].
  - assert (Hex : existsb (Z.eqb (e_round e)) ks = false).
    { destruct (existsb (Z.eqb (e_round e)) ks) eqn:Hex; [|reflexivity].
      apply existsb_exists in Hex. destruct Hex as (y & Hy & Ey).
      apply Z.eqb_eq in Ey. exfalso. apply Hk. congruence. }
    rewrite Hex. fold (entries_of_round k es). lia.
  - fold (entries_of_round k es). lia.
Qed.

(** The render is made of the groups of the rounds shown. *)
Lemma ssr_entries_by_round es :
  ssr_entries es
  = List.concat
      (map (fun r =>
              ssr_divider r
              ++ List.concat (map ssr_bubble (entries_of_round r es)))
         (rounds_shown es)).
Proof.
  unfold ssr_entries, rounds_shown. f_equal. apply map_ext. intros r.
  unfold ssr_round, ssr_divider. rewrite rounds_get_group.
  rewrite <- !app_assoc. reflexivity.
Qed.

(** The rounds shown are the rounds of the entries, in ascending order. *)
Lemma rounds_shown_spec es :
  ascending (rounds_shown es)
  /\ (forall r, In r (rounds_shown es) <-> exists e, In e es /\ e_round e = r).
Proof.
  unfold rounds_shown.
  destruct (keys_fold es [] (NoDup_nil _)) as [Hn Hk].
  fold (group_by_round es) in Hn, Hk.
  destruct (sorted_ascending _ Hn) as [Ha Hi].
  split; [exact Ha|]. intros r. rewrite Hi, Hk. cbn. intuition.
Qed.

(** X12. The server-side render groups the entries by round: one divider for
    each round that occurs, in strictly ascending order of the round numbers
    whatever the order of the entries, followed by the bubbles of the
    entries of that round in their order; every entry is in one group. *)
Theorem entries_grouped_by_round :
  forall es : list entry,
    ssr_entries es
    = List.concat
        (map (fun r =>
                ssr_divider r
                ++ List.concat (map ssr_bubble (entries_of_round r es)))
           (rounds_shown es))
    /\ ascending (rounds_shown es)
    /\ (forall r, In r (rounds_shown es)
                  <-> exists e, In e es /\ e_round e = r)
    /\ List.length (flat_map (fun r => entries_of_round r es) (rounds_shown es))
       = List.length es.
Proof.
  intros es. destruct (rounds_shown_spec es) as [Ha Hi].
  split; [apply ssr_entries_by_round|].
  split; [exact Ha|]. split; [exact Hi|].
  pose proof (ascending_nodup _ Ha) as Hnd.
  assert (Hsub : forall e, In e es -> In (e_round e) (rounds_shown es)).
  { intros e He. apply Hi. exists e. split; [exact He|reflexivity]. }
  revert Hnd Hsub. generalize (rounds_shown es) as ks.
  clear. intros ks Hnd. induction es as [|e es IH]; intros Hsub.
  - assert (H0 : forall ks' : list Z,
                   flat_map (fun r => entries_of_round r []) ks' = [])
      by (induction ks'; cbn; auto).
    rewrite H0. reflexivity.
  - rewrite (groups_length_cons e es ks Hnd).
    assert (Hex : existsb (Z.eqb (e_round e)) ks = true).
    { apply existsb_exists. exists (e_round e).
      split; [apply Hsub; left; reflexivity | apply Z.eqb_refl]. }
    rewrite Hex, IH; [reflexivity|].
    intros e' He'. apply Hsub. right. exact He'.
Qed.

(** X13. The feed of the page is the placeholder of the empty state exactly
    when the document has no entry. *)
Theorem placeholder_only_without_entries :
  forall st : state,
    (entries st = [] -> pg_feed (build_html st) = empty_state_html)
    /\ (entries st <> [] ->
        pg_feed (build_html st) = ssr_entries (entries st)
        /\ pg_feed (build_html st) <> empty_state_html).
Proof.
  intros st. cbn [build_html pg_feed]. split.
  { intros ->. reflexivity. }
  intros Hne.
  pose proof (ssr_entries_by_round (entries st)) as Heq.
  destruct (rounds_shown_spec (entries st)) as (_ & Hin).
  destruct (entries st) as [|e es] eqn:E; [contradiction|].
  assert (Hr : In (e_round e) (rounds_shown (e :: es))).
  { apply Hin. exists e. split; [left|]; reflexivity. }
  destruct (rounds_shown (e :: es)) as [|r rs]; [destruct Hr|].
  rewrite Heq. cbn [map List.concat]. unfold ssr_divider.
  rewrite <- !app_assoc. cbn. split; [reflexivity | discriminate].
Qed.

(** ** More on the client *)

Lemma bubbles_app f1 f2 : bubbles (f1 ++ f2) = bubbles f1 ++ bubbles f2.
Proof.
  induction f1 as [|n f1 IH]; [reflexivity|].
  destruct n; cbn; rewrite IH; reflexivity.
Qed.

Lemma quiet_feed_app f1 f2 :
  quiet_feed (f1 ++ f2) = quiet_feed f1 && quiet_feed f2.
Proof. apply forallb_app. Qed.

Lemma quiet_bubble markup :
  quiet (BubbleRow markup) = true ->
  inside_has_id (txt "empty-state") (BubbleRow markup) = false
  /\ inside_has_id (txt "thinking-bubble") (BubbleRow markup) = false
  /\ inside_dividers (BubbleRow markup) = [].
Proof.
  unfold quiet. rewrite !andb_true_iff, !negb_true_iff.
  intros [[H1 H2] H3]. split; [exact H1|]. split; [exact H2|].
  destruct (inside_dividers (BubbleRow markup)); [reflexivity | discriminate].
Qed.

(** On a quiet feed the element that the script finds by the id of the
    placeholder, or of the thinking bubble, is a child of the feed. *)
Lemma remove_empty_state_quiet f :
  quiet_feed f = true -> remove_empty_state f = drop_empty_state f.
Proof.
  unfold remove_empty_state.
  induction f as [|n f IH]; [reflexivity|].
  cbn [quiet_feed forallb]. intros H. apply andb_true_iff in H.
  destruct H as [Hn Hf]. fold (quiet_feed f) in Hf.
  cbn [remove_by_id drop_empty_state].
  destruct n as [|m|l|m|i n']; cbn [has_id].
  - reflexivity.
  - rewrite <- (IH Hf). reflexivity.
  - rewrite (IH Hf). reflexivity.
  - destruct (quiet_bubble m Hn) as (H1 & _ & _). rewrite H1, (IH Hf).
    reflexivity.
  - discriminate Hn.
Qed.

Lemma remove_thinking_quiet f :
  quiet_feed f = true -> remove_thinking f = drop_thinking f.
Proof.
  unfold remove_thinking.
  induction f as [|n f IH]; [reflexivity|].
  cbn [quiet_feed forallb]. intros H. apply andb_true_iff in H.
  destruct H as [Hn Hf]. fold (quiet_feed f) in Hf.
  cbn [remove_by_id drop_thinking].
  destruct n as [|m|l|m|i n']; cbn [has_id].
  - rewrite <- (IH Hf). reflexivity.
  - reflexivity.
  - rewrite (IH Hf). reflexivity.
  - destruct (quiet_bubble m Hn) as (_ & H2 & _). rewrite H2, (IH Hf).
    reflexivity.
  - discriminate Hn.
Qed.

Lemma quiet_drop_empty_state f :
  quiet_feed f = true -> quiet_feed (drop_empty_state f) = true.
Proof.
  induction f as [|n f IH]; [reflexivity|].
  cbn [quiet_feed forallb]. intros H. apply andb_true_iff in H.
  destruct H as [Hn Hf]. fold (quiet_feed f) in Hf.
  destruct n; cbn [drop_empty_state]; try exact Hf;
    cbn [quiet_feed forallb]; fold (quiet_feed (drop_empty_state f));
    rewrite Hn, (IH Hf); reflexivity.
Qed.

Lemma quiet_drop_thinking f :
  quiet_feed f = true -> quiet_feed (drop_thinking f) = true.
Proof.
  induction f as [|n f IH]; [reflexivity|].
  cbn [quiet_feed forallb]. intros H. apply andb_true_iff in H.
  destruct H as [Hn Hf]. fold (quiet_feed f) in Hf.
  destruct n; cbn [drop_thinking]; try exact Hf;
    cbn [quiet_feed forallb]; fold (quiet_feed (drop_thinking f));
    rewrite Hn, (IH Hf); reflexivity.
Qed.

Lemma bubbles_drop_empty_state f : bubbles (drop_empty_state f) = bubbles f.
Proof.
  induction f as [|n f IH]; [reflexivity|].
  destruct n; cbn; rewrite ?IH; reflexivity.
Qed.

Lemma bubbles_drop_thinking f : bubbles (drop_thinking f) = bubbles f.
Proof.
  induction f as [|n f IH]; [reflexivity|].
  destruct n; cbn; rewrite ?IH; reflexivity.
Qed.

Lemma forallb_skipn_entries (p : entry -> bool) : forall n es,
  forallb p es = true -> forallb p (skipn n es) = true.
Proof.
  induction n as [|n IH]; intros es H; [exact H|].
  destruct es as [|e es]; [reflexivity|].
  cbn in H. apply andb_true_iff in H. destruct H as [_ H].
  cbn [skipn]. apply IH, H.
Qed.

(** The loop over the new entries appends to the feed: dividers, and one
    bubble for each entry in their order. *)
Lemma append_entries_feed es : forall f rr,
  exists added,
    fst (fold_left append_entry es (f, rr)) = f ++ added
    /\ bubbles added = map (fun e => renderBubble e true) es
    /\ count_thinking added = 0%nat
    /\ count_empty_state added = 0%nat
    /\ (forallb quiet_entry es = true -> quiet_feed added = true).
Proof.
  induction es as [|e es IH]; intros f rr; cbn [fold_left].
  - exists []. rewrite app_nil_r. repeat split.
  - unfold append_entry at 2. fold (client_round e).
    destruct (negb (has rr (client_round e))).
    + destruct (IH ((f ++ [renderRoundDivider (client_round e)])
                    ++ [BubbleRow (renderBubble e true)])
                  (rr ++ [client_round e]))
        as (added & H1 & H2 & H3 & H4 & H5).
      exists ([renderRoundDivider (client_round e);
               BubbleRow (renderBubble e true)] ++ added).
      rewrite H1, <- !app_assoc. cbn [app bubbles count_thinking
                                      count_empty_state renderRoundDivider map].
      rewrite H2, H3, H4.
      do 4 (split; [reflexivity|]).
      cbn [forallb]. intros Hq. apply andb_true_iff in Hq.
      destruct Hq as [Hq Hqs]. cbn [quiet_feed forallb quiet].
      fold (quiet_feed added). unfold quiet_entry, quiet in Hq.
      rewrite Hq, (H5 Hqs). reflexivity.
    + destruct (IH (f ++ [BubbleRow (renderBubble e true)]) rr)
        as (added & H1 & H2 & H3 & H4 & H5).
      exists ([BubbleRow (renderBubble e true)] ++ added).
      rewrite H1, <- !app_assoc. cbn [app bubbles count_thinking
                                      count_empty_state map].
      rewrite H2, H3, H4.
      do 4 (split; [reflexivity|]).
      cbn [forallb]. intros Hq. apply andb_true_iff in Hq.
      destruct Hq as [Hq Hqs]. cbn [quiet_feed forallb quiet].
      fold (quiet_feed added). unfold quiet_entry, quiet in Hq.
      rewrite Hq, (H5 Hqs). reflexivity.
Qed.

(** The feed after an update of a quiet feed: the nodes that were there,
    without the placeholder when entries arrive and without the thinking
    bubble, then the nodes of the new entries, then the thinking bubble when
    there is one. *)
Lemma applyUpdate_feed st c :
  quiet_feed (feed c) = true ->
  exists added,
    feed (applyUpdate st c)
    = drop_thinking
        (if negb (is_nil (skipn (renderedEntryCount c) (entries st)))
         then drop_empty_state (feed c) else feed c)
      ++ added
      ++ (if shows_thinking st
          then [ThinkingBubble (renderThinking (text_or (thinking st) []))]
          else [])
    /\ bubbles added
       = map (fun e => renderBubble e true)
           (skipn (renderedEntryCount c) (entries st))
    /\ count_thinking added = 0%nat
    /\ count_empty_state added = 0%nat
    /\ (forallb quiet_entry (skipn (renderedEntryCount c) (entries st)) = true
        -> quiet_feed added = true).
Proof.
  intros Hq. unfold applyUpdate, shows_thinking.
  set (new := skipn (renderedEntryCount c) (entries st)).
  assert (E1 : (if negb (is_nil new) then remove_empty_state (feed c)
                else feed c)
               = (if negb (is_nil new) then drop_empty_state (feed c)
                  else feed c))
    by (rewrite (remove_empty_state_quiet _ Hq); reflexivity).
  rewrite E1.
  assert (Hq1 : quiet_feed (if negb (is_nil new) then drop_empty_state (feed c)
                            else feed c) = true)
    by (destruct (negb (is_nil new));
        [apply quiet_drop_empty_state|]; exact Hq).
  rewrite (remove_thinking_quiet _ Hq1).
  set (f0 := drop_thinking (if negb (is_nil new)
                            then drop_empty_state (feed c) else feed c)).
  destruct (append_entries_feed new f0 (rendered_rounds f0))
    as (added & H1 & H2 & H3 & H4 & H5).
  exists added.
  destruct (fold_left append_entry new (f0, rendered_rounds f0)) as [f rr].
  cbn [fst] in H1. subst f. cbn [feed].
  split; [|repeat split; assumption].
  destruct (truthy_opt (thinking st) && text_eqb (status st) (txt "in_progress"));
    [rewrite <- app_assoc | rewrite app_nil_r]; reflexivity.
Qed.

Lemma bubbles_applyUpdate st c :
  quiet_feed (feed c) = true ->
  bubbles (feed (applyUpdate st c))
  = bubbles (feed c)
    ++ map (fun e => renderBubble e true)
         (skipn (renderedEntryCount c) (entries st)).
Proof.
  intros Hq. destruct (applyUpdate_feed st c Hq) as (added & -> & H & _).
  rewrite !bubbles_app, bubbles_drop_thinking, H.
  assert (E : bubbles (if shows_thinking st
                       then [ThinkingBubble
                               (renderThinking (text_or (thinking st) []))]
                       else []) = [])
    by (destruct (shows_thinking st); reflexivity).
  rewrite E, app_nil_r.
  destruct (negb (is_nil _)); [rewrite bubbles_drop_empty_state|];
    reflexivity.
Qed.

(** An update with quiet entries keeps the feed quiet. *)
Lemma quiet_applyUpdate st c :
  quiet_feed (feed c) = true ->
  forallb quiet_entry (skipn (renderedEntryCount c) (entries st)) = true ->
  quiet_feed (feed (applyUpdate st c)) = true.
Proof.
  intros Hq Hn.
  destruct (applyUpdate_feed st c Hq) as (added & -> & _ & _ & _ & H5).
  rewrite !quiet_feed_app, (H5 Hn).
  assert (E : quiet_feed
                (if shows_thinking st
                 then [ThinkingBubble
                         (renderThinking (text_or (thinking st) []))]
                 else []) = true)
    by (destruct (shows_thinking st); reflexivity).
  rewrite E, quiet_drop_thinking; [reflexivity|].
  destruct (negb (is_nil _)); [apply quiet_drop_empty_state|]; exact Hq.
Qed.

Lemma renderedEntryCount_applyUpdate st c :
  renderedEntryCount (applyUpdate st c) = List.length (entries st).
Proof.
  unfold applyUpdate.
  destruct (fold_left append_entry _ _) as [f rr]. reflexivity.
Qed.

(** X14. On a feed whose bubbles hold no element with the id of the
    placeholder or of the thinking bubble and no divider, an update appends
    one bubble for each entry beyond the count that the client has
    rendered, in the order of the entries, and leaves the bubbles that were
    there; the client then has counted all the entries and knows the version
    of the document. *)
Theorem update_appends_the_new_entries :
  forall (st : state) (c : client),
    quiet_feed (feed c) = true ->
    bubbles (feed (applyUpdate st c))
    = bubbles (feed c)
      ++ map (fun e => renderBubble e true)
           (skipn (renderedEntryCount c) (entries st))
    /\ renderedEntryCount (applyUpdate st c) = List.length (entries st)
    /\ knownVersion (applyUpdate st c) = version st.
Proof.
  intros st c Hq. split; [apply bubbles_applyUpdate, Hq|].
  split; [apply renderedEntryCount_applyUpdate|].
  unfold applyUpdate. destruct (fold_left append_entry _ _) as [f rr].
  reflexivity.
Qed.

(** X15. On a quiet feed and with quiet entries, when the client has
    rendered no more entries than the first document holds, two updates in
    a row, the second with a document that extends the entries of the first,
    show the same bubbles as the second update alone: no entry is shown
    twice and none is left out; in particular the same document applied
    twice adds nothing the second time. *)
Theorem updates_compose :
  forall (st1 st2 : state) (c : client) (more : list entry),
    quiet_feed (feed c) = true ->
    forallb quiet_entry (entries st1) = true ->
    entries st2 = entries st1 ++ more ->
    (renderedEntryCount c <= List.length (entries st1))%nat ->
    bubbles (feed (applyUpdate st2 (applyUpdate st1 c)))
    = bubbles (feed (applyUpdate st2 c))
    /\ bubbles (feed (applyUpdate st1 (applyUpdate st1 c)))
       = bubbles (feed (applyUpdate st1 c)).
Proof.
  intros st1 st2 c more Hq Hqe He Hn.
  assert (Hq1 : quiet_feed (feed (applyUpdate st1 c)) = true)
    by (apply quiet_applyUpdate; [exact Hq|];
        apply forallb_skipn_entries, Hqe).
  rewrite !(bubbles_applyUpdate _ _ Hq1), !(bubbles_applyUpdate _ _ Hq),
    !renderedEntryCount_applyUpdate, He.
  split.
  - rewrite skipn_app, Nat.sub_diag, skipn_all. cbn [skipn app].
    rewrite (skipn_app (renderedEntryCount c)).
    replace (renderedEntryCount c - List.length (entries st1))%nat with 0%nat
      by lia.
    cbn [skipn]. rewrite map_app, app_assoc. reflexivity.
  - rewrite skipn_all. cbn. rewrite app_nil_r. reflexivity.
Qed.

Lemma count_thinking_app f1 f2 :
  count_thinking (f1 ++ f2) = (count_thinking f1 + count_thinking f2)%nat.
Proof.
  induction f1 as [|n f1 IH]; [reflexivity|].
  destruct n; cbn; rewrite IH; reflexivity.
Qed.

Lemma count_empty_state_app f1 f2 :
  count_empty_state (f1 ++ f2)
  = (count_empty_state f1 + count_empty_state f2)%nat.
Proof.
  induction f1 as [|n f1 IH]; [reflexivity|].
  destruct n; cbn; rewrite IH; reflexivity.
Qed.

Lemma count_thinking_drop f :
  count_thinking (drop_thinking f) = pred (count_thinking f).
Proof.
  induction f as [|n f IH]; [reflexivity|].
  destruct n; cbn; try exact IH. reflexivity.
Qed.

Lemma count_thinking_drop_empty_state f :
  count_thinking (drop_empty_state f) = count_thinking f.
Proof.
  induction f as [|n f IH]; [reflexivity|].
  destruct n; cbn; rewrite ?IH; reflexivity.
Qed.

Lemma count_empty_state_drop f :
  count_empty_state (drop_empty_state f) = pred (count_empty_state f).
Proof.
  induction f as [|n f IH]; [reflexivity|].
  destruct n; cbn; try exact IH. reflexivity.
Qed.

Lemma count_empty_state_drop_thinking f :
  count_empty_state (drop_thinking f) = count_empty_state f.
Proof.
  induction f as [|n f IH]; [reflexivity|].
  destruct n; cbn; rewrite ?IH; reflexivity.
Qed.

(** X16. A quiet feed with at most one thinking bubble and at most one
    placeholder has after an update exactly one thinking bubble when the
    document has a thinking agent and is in progress, and none otherwise;
    the placeholder is gone as soon as an entry arrives, and stays as long
    as none does. *)
Theorem placeholders_after_update :
  forall (st : state) (c : client),
    quiet_feed (feed c) = true ->
    (count_thinking (feed c) <= 1)%nat ->
    (count_empty_state (feed c) <= 1)%nat ->
    count_thinking (feed (applyUpdate st c))
    = (if shows_thinking st then 1 else 0)%nat
    /\ count_empty_state (feed (applyUpdate st c))
       = (if is_nil (skipn (renderedEntryCount c) (entries st))
          then count_empty_state (feed c) else 0)%nat.
Proof.
  intros st c Hq Ht He.
  destruct (applyUpdate_feed st c Hq) as (added & -> & _ & H3 & H4 & _).
  rewrite !count_thinking_app, !count_empty_state_app, H3, H4.
  rewrite count_thinking_drop, count_empty_state_drop_thinking.
  split.
  - destruct (negb (is_nil _));
      rewrite ?count_thinking_drop_empty_state;
      destruct (shows_thinking st); cbn; lia.
  - assert (E : count_empty_state
                  (if shows_thinking st
                   then [ThinkingBubble
                           (renderThinking (text_or (thinking st) []))]
                   else []) = 0%nat)
      by (destruct (shows_thinking st); reflexivity).
    rewrite E.
    destruct (is_nil _); cbn [negb];
      rewrite ?count_empty_state_drop; lia.
Qed.

(** ** Decimal numerals and divider labels *)

Lemma txt_String a s : txt (String a s) = N_of_ascii a :: txt s.
Proof. reflexivity. Qed.

Lemma parseInt_step acc c digits :
  fold_left (fun acc c => (acc * 10 + (Z.of_N c - 48))%Z) (c :: digits) acc
  = fold_left (fun acc c => (acc * 10 + (Z.of_N c - 48))%Z) digits
      (acc * 10 + (Z.of_N c - 48))%Z.
Proof. reflexivity. Qed.

(** [parseInt] reads a numeral as the conversion of the library does. *)
Lemma parse_digits_acc d : forall acc : positive,
  fold_left (fun acc c => (acc * 10 + (Z.of_N c - 48))%Z)
    (txt (NilEmpty.string_of_uint d)) (Z.pos acc)
  = Z.pos (Pos.of_uint_acc d acc).
Proof.
  induction d; intros acc; cbn [NilEmpty.string_of_uint Pos.of_uint_acc];
    [reflexivity|..];
    rewrite txt_String, parseInt_step;
    match goal with
    | |- fold_left _ _ ?z = Z.pos (Pos.of_uint_acc _ ?p) =>
        replace z with (Z.pos p) by (simpl (Z.of_N _); lia)
    end; apply IHd.
Qed.

Lemma parse_digits d :
  parseInt (txt (NilEmpty.string_of_uint d)) = Z.of_N (Pos.of_uint d).
Proof.
  unfold parseInt.
  induction d; cbn [NilEmpty.string_of_uint Pos.of_uint]; [reflexivity|..];
    rewrite txt_String, parseInt_step; try exact IHd;
    match goal with
    | |- fold_left _ _ ?z = Z.of_N (N.pos (Pos.of_uint_acc _ ?p)) =>
        change z with (Z.pos p)
    end; apply parse_digits_acc.
Qed.

Lemma digits_are_digits d :
  forallb ascii_digit (txt (NilEmpty.string_of_uint d)) = true.
Proof.
  induction d; cbn [NilEmpty.string_of_uint]; [reflexivity|..];
    rewrite txt_String; cbn [forallb]; rewrite IHd; reflexivity.
Qed.

Lemma to_uint_not_nil p : Pos.to_uint p <> Decimal.Nil.
Proof.
  intros H. pose proof (DecimalPos.Unsigned.of_to p) as E.
  rewrite H in E. discriminate E.
Qed.

(** The numeral of a positive number: digits that [parseInt] reads back. *)
Lemma dec_Z_pos p :
  exists digits,
    dec_Z (Z.pos p) = digits /\ digits <> []
    /\ forallb ascii_digit digits = true
    /\ parseInt digits = Z.pos p.
Proof.
  exists (txt (NilEmpty.string_of_uint (Pos.to_uint p))).
  pose proof (to_uint_not_nil p) as Hn.
  split.
  { unfold dec_Z. cbn [Z.to_int NilZero.string_of_int].
    unfold NilZero.string_of_uint.
    destruct (Pos.to_uint p); [contradiction|..]; reflexivity. }
  split.
  { destruct (Pos.to_uint p); [contradiction|..]; discriminate. }
  split; [apply digits_are_digits|].
  rewrite parse_digits, DecimalPos.Unsigned.of_to. reflexivity.
Qed.

(** The numeral of a negative number: a minus sign and digits. *)
Lemma dec_Z_neg p :
  exists digits,
    dec_Z (Z.neg p) = 45 :: digits /\ forallb ascii_digit digits = true.
Proof.
  exists (txt (NilEmpty.string_of_uint (Pos.to_uint p))).
  pose proof (to_uint_not_nil p) as Hn.
  split; [|apply digits_are_digits].
  unfold dec_Z. cbn [Z.to_int NilZero.string_of_int].
  rewrite txt_String. unfold NilZero.string_of_uint.
  destruct (Pos.to_uint p); [contradiction|..]; reflexivity.
Qed.

Lemma search_from_without r a :
  needs_first r a ->
  forall s pos, forallb (other_than a) s = true -> search_from r pos s = None.
Proof.
  intros Hr. induction s as [|c s IH]; intros pos Hs; cbn [search_from].
  - rewrite Hr; [reflexivity | discriminate].
  - cbn in Hs. apply andb_true_iff in Hs. destruct Hs as [Hc Hs].
    rewrite Hr.
    + apply IH, Hs.
    + cbn. intros E. injection E as ->. unfold other_than in Hc.
      rewrite N.eqb_refl in Hc. discriminate.
Qed.

Lemma needs_first_round_label : needs_first re_round_label 82.
Proof. apply (needs_first_lit 82). Qed.

Lemma digits_without_R digits :
  forallb ascii_digit digits = true ->
  forallb (other_than 82) digits = true.
Proof.
  apply forallb_weaken. intros c. unfold ascii_digit, in_range, other_than.
  destruct (N.eqb_spec c 82) as [->|]; [discriminate | reflexivity].
Qed.

(** In the range where the numbers of the script are exact. *)
Lemma js_string_safe r : safe_integer r = true -> js_string r = dec_Z r.
Proof. intros H. unfold js_string. rewrite H. reflexivity. Qed.

Lemma js_number_safe r : safe_integer r = true -> js_number r = r.
Proof. intros H. unfold js_number. rewrite H. reflexivity. Qed.

Lemma js_parseInt_safe digits :
  safe_integer (parseInt digits) = true -> js_parseInt digits = parseInt digits.
Proof. intros H. unfold js_parseInt. rewrite H. reflexivity. Qed.

Lemma exact_round_parts r :
  exact_round r = true -> (0 <= r)%Z /\ safe_integer r = true.
Proof.
  unfold exact_round. intros H. apply andb_true_iff in H.
  destruct H as [H1 H2]. apply Z.leb_le in H1. split; assumption.
Qed.

(** The client's divider has the server's label. *)
Lemma renderRoundDivider_label r :
  safe_integer r = true -> renderRoundDivider r = RoundDivider (round_label r).
Proof.
  intros H. unfold renderRoundDivider, round_label.
  rewrite (js_string_safe r H). reflexivity.
Qed.

(** The scan reads the round off the label of a positive round. *)
Lemma label_rounds_digits digits :
  digits <> [] -> forallb ascii_digit digits = true ->
  label_rounds (txt "Round " ++ digits) = [js_parseInt digits].
Proof.
  intros Hne Hd. unfold label_rounds.
  assert (Hm : match_at re_round_label 0 (txt "Round " ++ digits)
               = Some ((0 + 6 + List.length digits)%nat, [],
                       [(1%nat, digits)])).
  { rewrite <- (app_nil_r digits) at 1.
    unfold match_at, re_round_label, Plus.
    rewrite exec_seq, exec_lit_app, exec_grp.
    apply exec_rep_all; [exact Hd | exact I | apply nonempty_length, Hne|].
    rewrite firstn_matched. reflexivity. }
  unfold re_search.
  change (txt "Round " ++ digits) with (82 :: (txt "ound " ++ digits)) in *.
  cbn [search_from]. rewrite Hm. reflexivity.
Qed.

Lemma divider_labels_app f1 f2 :
  divider_labels (f1 ++ f2) = divider_labels f1 ++ divider_labels f2.
Proof.
  induction f1 as [|n f1 IH]; [reflexivity|].
  destruct n; cbn [app divider_labels]; rewrite IH, ?app_assoc; reflexivity.
Qed.

(** The scan of [applyUpdate] goes label by label. *)
Lemma rendered_rounds_labels f :
  rendered_rounds f = flat_map label_rounds (divider_labels f).
Proof.
  unfold rendered_rounds.
  assert (Hfold : forall labels acc,
            fold_left
              (fun renderedRounds d =>
                 let renderedRounds :=
                   match re_search re_round_label d with
                   | Some m => renderedRounds ++ [js_parseInt (grp m 1)]
                   | None => renderedRounds
                   end in
                 if text_eqb d (txt "Final Synthesis")
                 then renderedRounds ++ [0%Z] else renderedRounds)
              labels acc
            = acc ++ flat_map label_rounds labels).
  { induction labels as [|d labels IH]; intros acc; cbn [fold_left flat_map].
    - rewrite app_nil_r. reflexivity.
    - rewrite IH. unfold label_rounds at 2.
      destruct (re_search re_round_label d);
        destruct (text_eqb d (txt "Final Synthesis"));
        rewrite <- ?app_assoc; cbn [app]; rewrite ?app_nil_r; reflexivity. }
  apply Hfold.
Qed.

(** What the scan reads off the label that the renderers give a round in
    the exact range. *)
Lemma label_rounds_of_round r :
  safe_integer r = true ->
  label_rounds (round_label r) = if (0 <=? r)%Z then [r] else [].
Proof.
  intros Hs. unfold round_label.
  destruct r as [|p|p]; cbn [Z.eqb Z.leb Z.compare].
  - vm_compute. reflexivity.
  - destruct (dec_Z_pos p) as (digits & -> & Hne & Hd & Hp).
    rewrite (label_rounds_digits digits Hne Hd), js_parseInt_safe, Hp;
      [reflexivity|]. rewrite Hp. exact Hs.
  - destruct (dec_Z_neg p) as (digits & -> & Hd).
    unfold label_rounds, re_search.
    change (txt "Round " ++ 45 :: digits)
      with (82 :: (txt "ound -" ++ digits)).
    cbn [search_from].
    assert (Hm : match_at re_round_label 0 (82 :: txt "ound -" ++ digits)
                 = None).
    { change (82 :: txt "ound -" ++ digits)
        with (txt "Round " ++ 45 :: digits).
      unfold match_at, re_round_label, Plus.
      rewrite exec_seq, exec_lit_app. reflexivity. }
    rewrite Hm.
    rewrite (search_from_without _ 82 needs_first_round_label).
    + reflexivity.
    + rewrite forallb_app, (digits_without_R digits Hd). reflexivity.
Qed.

Lemma label_rounds_of_rounds rs :
  Forall (fun r => exact_round r = true) rs ->
  flat_map label_rounds (map round_label rs) = rs.
Proof.
  induction 1 as [|r rs Hr _ IH]; [reflexivity|].
  apply exact_round_parts in Hr. destruct Hr as [Hr Hs].
  cbn [map flat_map]. rewrite IH, (label_rounds_of_round r Hs).
  apply Z.leb_le in Hr. rewrite Hr. reflexivity.
Qed.

Lemma round_label_distinct rs :
  Forall (fun r => exact_round r = true) rs ->
  NoDup rs -> NoDup (map round_label rs).
Proof.
  intros Hpos. induction 1 as [|r rs Hin Hnd IH]; cbn [map]; constructor.
  - intros Hl. apply in_map_iff in Hl. destruct Hl as (r' & Hl & Hr').
    assert (E : label_rounds (round_label r') = label_rounds (round_label r))
      by (rewrite Hl; reflexivity).
    inversion Hpos as [|? ? Hr Hrs]; subst.
    rewrite Forall_forall in Hrs. pose proof (Hrs r' Hr') as Hp.
    apply exact_round_parts in Hr, Hp.
    destruct Hr as [Hr Hsr], Hp as [Hp Hsp].
    rewrite (label_rounds_of_round r' Hsp), (label_rounds_of_round r Hsr) in E.
    apply Z.leb_le in Hr, Hp. rewrite Hr, Hp in E.
    injection E as ->. contradiction.
  - apply IH. inversion Hpos; assumption.
Qed.

Lemma divider_labels_drop_empty_state f :
  divider_labels (drop_empty_state f) = divider_labels f.
Proof.
  induction f as [|n f IH]; [reflexivity|].
  destruct n; cbn; rewrite ?IH; reflexivity.
Qed.

Lemma divider_labels_drop_thinking f :
  divider_labels (drop_thinking f) = divider_labels f.
Proof.
  induction f as [|n f IH]; [reflexivity|].
  destruct n; cbn; rewrite ?IH; reflexivity.
Qed.

Lemma has_In rr r : has rr r = true <-> In r rr.
Proof.
  unfold has. rewrite existsb_exists. split.
  - intros (x & Hx & E). apply Z.eqb_eq in E. subst. exact Hx.
  - intros H. exists r. split; [exact H | apply Z.eqb_refl].
Qed.

(** The round of an entry in the exact range, as the client files it. *)
Lemma client_round_exact e :
  exact_round (e_round e) = true ->
  client_round e = (if (e_round e =? 0)%Z then 1%Z else e_round e)
  /\ exact_round (client_round e) = true.
Proof.
  intros H. pose proof (exact_round_parts _ H) as [Hp Hs].
  unfold client_round. rewrite (js_number_safe _ Hs).
  split; [reflexivity|].
  destruct (e_round e =? 0)%Z; [reflexivity | exact H].
Qed.

(** The loop over the new entries: a divider for each round that has none,
    at the first entry of the round. *)
Lemma append_entries_dividers es : forall f rr,
  divider_labels f = map round_label rr -> NoDup rr ->
  Forall (fun e => exact_round (e_round e) = true /\ quiet_entry e = true)
    es ->
  exists f' rs',
    fold_left append_entry es (f, rr) = (f', rr ++ rs')
    /\ divider_labels f' = map round_label (rr ++ rs')
    /\ NoDup (rr ++ rs')
    /\ forall r, In r rs' <->
                 ~ In r rr /\ exists e, In e es /\ client_round e = r.
Proof.
  induction es as [|e es IH]; intros f rr Hf Hnd Hes; cbn [fold_left].
  - exists f, []. rewrite app_nil_r.
    split; [reflexivity|]. split; [exact Hf|]. split; [exact Hnd|].
    intros r. split; [intros [] | intros (_ & e & [] & _)].
  - inversion Hes as [|? ? [Hex Hq] Hes']; subst.
    destruct (client_round_exact e Hex) as [_ Hce].
    apply exact_round_parts in Hce. destruct Hce as [_ Hsafe].
    destruct (quiet_bubble _ Hq) as (_ & _ & Hdiv).
    unfold append_entry at 2. fold (client_round e).
    destruct (has rr (client_round e)) eqn:Hhas; cbn [negb].
    + apply has_In in Hhas.
      destruct (IH (f ++ [BubbleRow (renderBubble e true)]) rr)
        as (f' & rs' & H1 & H2 & H3 & H4); [|assumption|assumption|].
      { rewrite divider_labels_app. cbn [divider_labels].
        rewrite Hdiv, !app_nil_r. exact Hf. }
      exists f', rs'.
      split; [exact H1|]. split; [exact H2|]. split; [exact H3|].
      intros r. split.
      * intros H. destruct (proj1 (H4 r) H) as (Hn & e' & He' & E).
        split; [exact Hn|]. exists e'. split; [right; exact He' | exact E].
      * intros (Hn & e' & [<-|He'] & E).
        -- subst r. contradiction.
        -- apply H4. split; [exact Hn|]. exists e'. split; assumption.
    + assert (Hnot : ~ In (client_round e) rr).
      { intros Hin. apply has_In in Hin. congruence. }
      destruct (IH ((f ++ [renderRoundDivider (client_round e)])
                    ++ [BubbleRow (renderBubble e true)])
                  (rr ++ [client_round e]))
        as (f' & rs' & H1 & H2 & H3 & H4).
      { rewrite !divider_labels_app, map_app,
          (renderRoundDivider_label _ Hsafe).
        cbn [divider_labels map]. rewrite Hdiv, !app_nil_r, Hf.
        reflexivity. }
      { apply NoDup_app; [exact Hnd | constructor; [intros [] | constructor]|].
        intros x Hx [<-|[]]. contradiction. }
      { exact Hes'. }
      exists f', (client_round e :: rs').
      replace (rr ++ client_round e :: rs')
        with ((rr ++ [client_round e]) ++ rs')
        by (rewrite <- app_assoc; reflexivity).
      split; [exact H1|]. split; [exact H2|]. split; [exact H3|].
      intros r. split.
      * intros [<-|H].
        -- split; [exact Hnot|]. exists e. split; [left|]; reflexivity.
        -- destruct (proj1 (H4 r) H) as (Hn & e' & He' & E). split.
           ++ intros Hin. apply Hn, in_or_app. left. exact Hin.
           ++ exists e'. split; [right; exact He' | exact E].
      * intros (Hn & e' & [<-|He'] & E).
        -- left. exact E.
        -- destruct (Z.eq_dec (client_round e) r) as [Heq|Hneq];
             [left; exact Heq | right].
           apply H4. split.
           ++ intros Hin. apply in_app_or in Hin.
              destruct Hin as [Hin|[Hin|[]]]; contradiction.
           ++ exists e'. split; assumption.
Qed.

Lemma In_skipn_entries (e : entry) : forall n es, In e (skipn n es) -> In e es.
Proof.
  induction n as [|n IH]; intros es H; [exact H|].
  destruct es as [|x es]; [exact H|]. right. apply IH, H.
Qed.

(** X17. For a round whose number is exact in the script (of magnitude
    below 2^53), the client's divider has the server's label, and the scan
    of the dividers reads back its round when the round is not negative,
    and reads nothing off the divider of a negative round. *)
Theorem divider_labels_are_read_back :
  forall (f : list node) (r : Z),
    safe_integer r = true ->
    rendered_rounds (f ++ [renderRoundDivider r])
    = rendered_rounds f ++ (if (0 <=? r)%Z then [r] else [])
    /\ renderRoundDivider r = RoundDivider (round_label r).
Proof.
  intros f r Hs. split; [|apply renderRoundDivider_label, Hs].
  rewrite !rendered_rounds_labels, divider_labels_app, flat_map_app.
  f_equal. rewrite (renderRoundDivider_label r Hs).
  cbn [divider_labels flat_map]. rewrite app_nil_r.
  apply label_rounds_of_round, Hs.
Qed.

(** X18. On a quiet feed whose dividers are those of distinct rounds, with
    entries that are quiet, and all the rounds exact in the script and not
    negative: after an update the feed is quiet again and its dividers are
    again those of distinct rounds of this kind, with distinct labels: the
    dividers that were there, and after them one for each further round
    that a new entry belongs to. *)
Theorem dividers_stay_distinct :
  forall (st : state) (c : client) (rs : list Z),
    quiet_feed (feed c) = true ->
    divider_labels (feed c) = map round_label rs ->
    NoDup rs ->
    Forall (fun r => exact_round r = true) rs ->
    Forall (fun e => exact_round (e_round e) = true /\ quiet_entry e = true)
      (entries st) ->
    exists rs',
      divider_labels (feed (applyUpdate st c)) = map round_label (rs ++ rs')
      /\ NoDup (rs ++ rs')
      /\ Forall (fun r => exact_round r = true) (rs ++ rs')
      /\ NoDup (divider_labels (feed (applyUpdate st c)))
      /\ quiet_feed (feed (applyUpdate st c)) = true
      /\ forall r, In r rs' <->
           ~ In r rs
           /\ exists e, In e (skipn (renderedEntryCount c) (entries st))
                        /\ client_round e = r.
Proof.
  intros st c rs Hq Hf Hnd Hpos Hes.
  set (new := skipn (renderedEntryCount c) (entries st)).
  assert (Hnew : Forall
                   (fun e => exact_round (e_round e) = true
                             /\ quiet_entry e = true) new).
  { apply Forall_forall. intros e He. rewrite Forall_forall in Hes.
    apply Hes. apply (In_skipn_entries e (renderedEntryCount c)), He. }
  assert (Hqn : forallb quiet_entry new = true).
  { apply forallb_forall. intros e He. rewrite Forall_forall in Hnew.
    apply (Hnew e He). }
  pose proof (quiet_applyUpdate st c Hq Hqn) as Hq'.
  revert Hq'. unfold applyUpdate. fold new.
  assert (E1 : (if negb (is_nil new) then remove_empty_state (feed c)
                else feed c)
               = (if negb (is_nil new) then drop_empty_state (feed c)
                  else feed c))
    by (rewrite (remove_empty_state_quiet _ Hq); reflexivity).
  rewrite E1.
  assert (Hq1 : quiet_feed (if negb (is_nil new) then drop_empty_state (feed c)
                            else feed c) = true)
    by (destruct (negb (is_nil new));
        [apply quiet_drop_empty_state|]; exact Hq).
  rewrite (remove_thinking_quiet _ Hq1).
  set (f0 := drop_thinking (if negb (is_nil new)
                            then drop_empty_state (feed c) else feed c)).
  assert (Hf0 : divider_labels f0 = map round_label rs).
  { unfold f0. rewrite divider_labels_drop_thinking.
    destruct (negb (is_nil new));
      rewrite ?divider_labels_drop_empty_state; exact Hf. }
  assert (Hrr : rendered_rounds f0 = rs).
  { rewrite rendered_rounds_labels, Hf0. apply label_rounds_of_rounds, Hpos. }
  rewrite Hrr.
  destruct (append_entries_dividers new f0 rs Hf0 Hnd Hnew)
    as (f' & rs' & -> & H2 & H3 & H4).
  cbn [feed]. intros Hq'. exists rs'.
  assert (Hall : Forall (fun r => exact_round r = true) (rs ++ rs')).
  { apply Forall_app. split; [exact Hpos|].
    apply Forall_forall. intros r Hr.
    destruct (proj1 (H4 r) Hr) as (_ & e & He & <-).
    rewrite Forall_forall in Hnew.
    apply client_round_exact, (Hnew e He). }
  assert (Hl : divider_labels
                 (if truthy_opt (thinking st)
                     && text_eqb (status st) (txt "in_progress")
                  then f' ++ [ThinkingBubble
                                (renderThinking (text_or (thinking st) []))]
                  else f')
               = map round_label (rs ++ rs')).
  { destruct (truthy_opt (thinking st) && _);
      [rewrite divider_labels_app; cbn; rewrite app_nil_r|]; exact H2. }
  rewrite Hl.
  split; [reflexivity|]. split; [exact H3|]. split; [exact Hall|].
  split; [apply round_label_distinct; assumption|].
  split; [exact Hq' | exact H4].
Qed.

(** ** More on the inline formatter *)

Lemma no_inline_markup_other a t :
  a = 91 \/ a = 42 \/ a = 96 ->
  no_inline_markup t = true -> forallb (other_than a) t = true.
Proof.
  intros Ha. apply forallb_weaken. intros c. unfold other_than.
  destruct Ha as [-> | [-> | ->]];
    destruct (c =? 91), (c =? 42), (c =? 96); cbn; congruence.
Qed.

Lemma inline_passes_without_markup d t :
  no_inline_markup t = true -> inline_passes d t = t.
Proof.
  intros H. unfold inline_passes, re_sub.
  rewrite (sub_from_unmatched (re_citation d)).
  2: { apply (unmatched_without _ 91); [apply needs_first_citation|].
       apply no_inline_markup_other; auto. }
  rewrite (sub_from_unmatched (re_unsourced d)).
  2: { apply (unmatched_without _ 91); [apply needs_first_unsourced|].
       apply no_inline_markup_other; auto. }
  rewrite (sub_from_unmatched re_link).
  2: { apply (unmatched_without _ 91); [apply needs_first_link|].
       apply no_inline_markup_other; auto. }
  rewrite (sub_from_unmatched (re_bold d)).
  2: { apply (unmatched_without _ 42); [apply needs_first_bold|].
       apply no_inline_markup_other; auto. }
  apply sub_from_unmatched.
  apply (unmatched_without _ 96); [apply needs_first_code|].
  apply no_inline_markup_other; auto.
Qed.

(** X19. Both inline formatters return a text without opening bracket,
    asterisk and backtick as it is: nothing in it is escaped, so markup
    characters in the content of an entry reach the page unchanged. *)
Theorem inline_formatters_copy_text_without_markup :
  forall t : text,
    no_inline_markup t = true ->
    inline_format t = t /\ inlineFmt t = t.
Proof.
  intros t H. split.
  - unfold inline_format. apply inline_passes_without_markup, H.
  - unfold inlineFmt. apply inline_passes_without_markup, H.
Qed.

(** ** Lists and tables in the block renderer *)

Lemma count_line_append tag ls x :
  count_line tag (ls ++ [x])
  = (count_line tag ls + Nat.b2n (text_eqb tag x))%nat.
Proof.
  unfold count_line. rewrite filter_app, length_app. cbn [filter].
  destruct (text_eqb tag x); reflexivity.
Qed.

Lemma count_line_others tag xs : forall ls,
  forallb (fun x => negb (text_eqb tag x)) xs = true ->
  count_line tag (ls ++ xs) = count_line tag ls.
Proof.
  induction xs as [|x xs IH]; intros ls H.
  - rewrite app_nil_r. reflexivity.
  - cbn in H. apply andb_true_iff in H. destruct H as [Hx H].
    replace (ls ++ x :: xs) with ((ls ++ [x]) ++ xs)
      by (rewrite <- app_assoc; reflexivity).
    rewrite (IH _ H), count_line_append.
    apply negb_true_iff in Hx. rewrite Hx. cbn. lia.
Qed.

Lemma balanced_append x st :
  no_tag_line x = true -> balanced st -> balanced (append x st).
Proof.
  unfold no_tag_line, balanced. intros Hx [Hl Ht].
  apply negb_true_iff in Hx.
  apply orb_false_iff in Hx. destruct Hx as [Hx H4].
  apply orb_false_iff in Hx. destruct Hx as [Hx H3].
  apply orb_false_iff in Hx. destruct Hx as [H1 H2].
  cbn [append result in_list in_table].
  rewrite !count_line_append, H1, H2, H3, H4. cbn [Nat.b2n]. lia.
Qed.

(** The cells of a row go to the lines one by one. *)
Lemma result_cells (f : text -> text) cells : forall st,
  let st' := fold_left (fun st c => append (f c) st) cells st in
  result st' = result st ++ map f cells
  /\ in_list st' = in_list st /\ in_table st' = in_table st.
Proof.
  induction cells as [|c cells IH]; intros st; cbn [fold_left map].
  - rewrite app_nil_r. repeat split.
  - destruct (IH (append (f c) st)) as (H1 & H2 & H3).
    cbv zeta. rewrite H1, H2, H3. cbn [append result in_list in_table].
    rewrite <- app_assoc. repeat split.
Qed.

Lemma cell_lines_others tag (pre post : text) (f : text -> text) cells :
  (forall x, text_eqb tag (pre ++ x) = false) ->
  forallb (fun x => negb (text_eqb tag x))
    (map (fun c => pre ++ f c ++ post) cells) = true.
Proof.
  intros H. induction cells as [|c cells IH]; [reflexivity|].
  cbn [map forallb]. rewrite H, IH. reflexivity.
Qed.

Lemma balanced_close_list st :
  balanced st -> balanced (close_list st).
Proof.
  unfold balanced, close_list. intros [Hl Ht].
  destruct (in_list st) eqn:E; [|rewrite E; split; assumption].
  cbn [set_in_list append result in_list in_table].
  rewrite !count_line_append.
  change (text_eqb ul_open (txt "</ul>")) with false.
  change (text_eqb ul_close (txt "</ul>")) with true.
  change (text_eqb table_open (txt "</ul>")) with false.
  change (text_eqb table_close (txt "</ul>")) with false.
  cbn [Nat.b2n] in *. split; lia.
Qed.

Lemma balanced_close_table st :
  balanced st -> balanced (close_table st).
Proof.
  unfold balanced, close_table. intros [Hl Ht].
  destruct (in_table st) eqn:E; [|rewrite E; split; assumption].
  cbn [set_table_header_done set_in_table append result in_list in_table].
  rewrite !count_line_append.
  change (text_eqb ul_open (txt "</tbody></table>")) with false.
  change (text_eqb ul_close (txt "</tbody></table>")) with false.
  change (text_eqb table_open (txt "</tbody></table>")) with false.
  change (text_eqb table_close (txt "</tbody></table>")) with true.
  cbn [Nat.b2n] in *. split; lia.
Qed.

Lemma balanced_open_list st :
  balanced st -> balanced (open_list st).
Proof.
  unfold balanced, open_list. intros [Hl Ht].
  destruct (in_list st) eqn:E; cbn [negb]; [rewrite E; split; assumption|].
  cbn [set_in_list append result in_list in_table].
  rewrite !count_line_append.
  change (text_eqb ul_open (html "<ul class='debate-list'>")) with true.
  change (text_eqb ul_close (html "<ul class='debate-list'>")) with false.
  change (text_eqb table_open (html "<ul class='debate-list'>")) with false.
  change (text_eqb table_close (html "<ul class='debate-list'>")) with false.
  cbn [Nat.b2n] in *. split; lia.
Qed.

Lemma balanced_cells (f : text -> text) cells : forall st,
  (forall c, no_tag_line (f c) = true) ->
  balanced st -> balanced (fold_left (fun st c => append (f c) st) cells st).
Proof.
  induction cells as [|c cells IH]; intros st Hf H; cbn [fold_left];
    [exact H|].
  apply IH; [exact Hf|]. apply balanced_append; [apply Hf | exact H].
Qed.

(** The first row of a table opens it. *)
Lemma balanced_open_table cells st :
  in_table st = false -> balanced st ->
  balanced
    (set_table_header_done true
       (set_in_table true
          (append (txt "</tr></thead><tbody>")
             (fold_left
                (fun st c =>
                   append (txt "<th>" ++ inline_format c ++ txt "</th>") st)
                cells
                (append (html "<table class='debate-table'><thead><tr>")
                   st))))).
Proof.
  intros E [Hl Ht]. unfold balanced in *.
  cbn [set_table_header_done set_in_table append result in_list in_table].
  destruct (result_cells
              (fun c => txt "<th>" ++ inline_format c ++ txt "</th>") cells
              (append (html "<table class='debate-table'><thead><tr>") st))
    as (H1 & H2 & _).
  cbv zeta in H1, H2. rewrite H1, H2.
  cbn [append result in_list].
  rewrite !count_line_append.
  rewrite (count_line_others ul_open), (count_line_others ul_close),
    (count_line_others table_open), (count_line_others table_close)
    by (apply (cell_lines_others _ (txt "<th>") (txt "</th>") inline_format);
        reflexivity).
  rewrite !count_line_append.
  change (text_eqb ul_open (txt "</tr></thead><tbody>")) with false.
  change (text_eqb ul_close (txt "</tr></thead><tbody>")) with false.
  change (text_eqb table_open (txt "</tr></thead><tbody>")) with false.
  change (text_eqb table_close (txt "</tr></thead><tbody>")) with false.
  change (text_eqb ul_open
            (html "<table class='debate-table'><thead><tr>")) with false.
  change (text_eqb ul_close
            (html "<table class='debate-table'><thead><tr>")) with false.
  change (text_eqb table_open
            (html "<table class='debate-table'><thead><tr>")) with true.
  change (text_eqb table_close
            (html "<table class='debate-table'><thead><tr>")) with false.
  rewrite E in Ht. cbn [Nat.b2n] in *. split; lia.
Qed.

(** One line of the input keeps the balance. *)
Lemma md_line_balanced st line : balanced st -> balanced (md_line st line).
Proof.
  intros H. unfold md_line. cbv zeta.
  destruct (negb (truthy (strip Python line))).
  { apply balanced_append; [reflexivity|].
    apply balanced_close_table, balanced_close_list, H. }
  destruct (contains_char 124 (strip Python line)
            && startswith (txt "|") (strip Python line)).
  { destruct (forallb _ _); [exact H|].
    destruct (in_table st) eqn:E; cbn [negb].
    - apply balanced_append; [reflexivity|].
      apply balanced_cells; [intros c; reflexivity|].
      apply balanced_append; [reflexivity | exact H].
    - apply balanced_open_table; assumption. }
  apply balanced_close_table in H.
  destruct (re_match (re_header Python) (strip Python line)).
  { apply balanced_append; [reflexivity|]. apply balanced_close_list, H. }
  destruct (re_match (re_bullet Python) (strip Python line)).
  { apply balanced_append; [reflexivity|]. apply balanced_open_list, H. }
  destruct (re_match (re_numbered uni_isdecimal Python) (strip Python line)).
  { apply balanced_append; [reflexivity|]. apply balanced_open_list, H. }
  apply balanced_append; [reflexivity|]. apply balanced_close_list, H.
Qed.

Lemma md_lines_balanced lines : forall st,
  balanced st -> balanced (fold_left md_line lines st).
Proof.
  induction lines as [|line lines IH]; intros st H; [exact H|].
  cbn [fold_left]. apply IH, md_line_balanced, H.
Qed.

(** X20. Among the lines that the server-side block renderer joins, as many
    close a list as open one, and as many close a table as open one,
    whatever the content. *)
Theorem lists_and_tables_are_closed :
  forall t : text,
    md_to_html t = join [nl] (md_result t)
    /\ count_line ul_open (md_result t) = count_line ul_close (md_result t)
    /\ count_line table_open (md_result t)
       = count_line table_close (md_result t).
Proof.
  intros t. split; [reflexivity|].
  unfold md_result.
  assert (H : balanced (fold_left md_line (split nl t) md_init)).
  { apply md_lines_balanced. split; reflexivity. }
  destruct H as [Hl Ht]. cbv zeta.
  set (st := fold_left md_line (split nl t) md_init) in *.
  destruct (in_list st) eqn:El, (in_table st) eqn:Et;
    cbn [append result in_list in_table Nat.b2n] in *;
    rewrite ?Et; cbn [append result];
    rewrite ?count_line_append;
    change (text_eqb ul_open (txt "</ul>")) with false;
    change (text_eqb ul_close (txt "</ul>")) with true;
    change (text_eqb table_open (txt "</ul>")) with false;
    change (text_eqb table_close (txt "</ul>")) with false;
    change (text_eqb ul_open (txt "</tbody></table>")) with false;
    change (text_eqb ul_close (txt "</tbody></table>")) with false;
    change (text_eqb table_open (txt "</tbody></table>")) with false;
    change (text_eqb table_close (txt "</tbody></table>")) with true;
    cbn [Nat.b2n]; split; lia.
Qed.

(** ** Polling *)

Lemma isCompleted_applyUpdate st c :
  isCompleted (applyUpdate st c)
  = text_eqb (status st) (txt "completed") || isCompleted c.
Proof.
  unfold applyUpdate. destruct (fold_left append_entry _ _) as [f rr].
  cbn [isCompleted]. destruct (text_eqb (status st) (txt "completed"));
    reflexivity.
Qed.

Lemma knownVersion_applyUpdate st c :
  knownVersion (applyUpdate st c) = version st.
Proof.
  unfold applyUpdate. destruct (fold_left append_entry _ _) as [f rr].
  reflexivity.
Qed.

(** A poll that does not see a completed debate sets the next timer. *)
Lemma poll_goes_on r p :
  isCompleted (page_client p) = false -> not_completed r = true ->
  pollTimer (poll r p) <> None
  /\ isCompleted (page_client (poll r p)) = false.
Proof.
  intros Hc Hr. destruct r as [|st]; cbn [poll].
  - split; [discriminate | exact Hc].
  - unfold not_completed in Hr. apply negb_true_iff in Hr. cbv zeta.
    destruct (negb (version st =? knownVersion (page_client p))%Z);
      cbn [page_client];
      rewrite ?isCompleted_applyUpdate, ?Hr, ?Hc; cbn [orb page_client pollTimer];
      (split; [discriminate | rewrite ?isCompleted_applyUpdate, ?Hr; exact Hc]).
Qed.

(** After a poll the client knows the version of the document that the
    poll has fetched, whether the poll has applied it or not. *)
Lemma poll_knows_version st p :
  knownVersion (page_client (poll (Fetched st) p)) = version st.
Proof.
  cbn [poll]. cbv zeta.
  destruct (Z.eqb_spec (version st) (knownVersion (page_client p))) as [E|E];
    cbn [negb];
    match goal with
    | |- context [if ?b then _ else _] => destruct b
    end; cbn [page_client]; rewrite ?knownVersion_applyUpdate; auto.
Qed.

(** A document of the version that the client knows is not applied. *)
Lemma poll_same_version st p :
  version st = knownVersion (page_client p) ->
  page_client (poll (Fetched st) p) = page_client p.
Proof.
  intros E. cbn [poll]. cbv zeta.
  apply Z.eqb_eq in E. rewrite E. cbn [negb].
  destruct (isCompleted (page_client p)); reflexivity.
Qed.

(** X21. Polling goes on as long as no poll has applied a completed
    document: neither a failed request nor any number of them stops it, and
    a failed request leaves the page as it is and doubles the delay. *)
Theorem polling_goes_on_until_completion :
  forall (rs : list response) (p : poller),
    pollTimer p <> None ->
    isCompleted (page_client p) = false ->
    forallb not_completed rs = true ->
    pollTimer (polls rs p) <> None
    /\ isCompleted (page_client (polls rs p)) = false
    /\ page_client (poll FetchFailed p) = page_client p
    /\ pollTimer (poll FetchFailed p) = Some (2 * POLL_INTERVAL).
Proof.
  intros rs p Ht Hc Hrs.
  assert (H : pollTimer (polls rs p) <> None
              /\ isCompleted (page_client (polls rs p)) = false).
  { revert p Ht Hc. induction rs as [|r rs IH]; intros p Ht Hc; cbn [polls].
    - split; assumption.
    - cbn in Hrs. apply andb_true_iff in Hrs. destruct Hrs as [Hr Hrs].
      destruct (pollTimer p) as [d|]; [|contradiction].
      destruct (poll_goes_on r p Hc Hr) as [Ht' Hc'].
      apply (IH Hrs); assumption. }
  destruct H as [H1 H2]. repeat split; assumption.
Qed.

(** X22. A poll that applies a completed document ends the polling: the
    indicator shows that the debate is complete, no timer is set, and the
    page stays as it is whatever the state file holds later; a page that
    was built from a completed document does not poll at all. *)
Theorem completed_page_stops_polling :
  forall (st : state) (rs : list response) (p : poller) (c : client),
    pollTimer p <> None ->
    version st <> knownVersion (page_client p) ->
    text_eqb (status st) (txt "completed") = true ->
    polls (Fetched st :: rs) p = poll (Fetched st) p
    /\ page_client (poll (Fetched st) p) = applyUpdate st (page_client p)
    /\ pollTimer (poll (Fetched st) p) = None
    /\ pollText (poll (Fetched st) p) = txt "Debate complete"
    /\ (isCompleted c = true -> polls rs (on_load c) = on_load c).
Proof.
  intros st rs p c Ht Hv Hs.
  assert (E : poll (Fetched st) p
              = {| page_client := applyUpdate st (page_client p);
                   pollDot := txt "poll-dot connected";
                   pollText := txt "Debate complete";
                   pollTimer := None |}).
  { cbn [poll]. cbv zeta.
    destruct (Z.eqb_spec (version st) (knownVersion (page_client p)));
      [contradiction|].
    cbn [negb page_client pollDot].
    rewrite isCompleted_applyUpdate, Hs. reflexivity. }
  split.
  - cbn [polls]. destruct (pollTimer p); [|contradiction].
    rewrite E. destruct rs; reflexivity.
  - rewrite E. cbn. repeat split.
    intros Hc. unfold on_load. rewrite Hc. destruct rs; reflexivity.
Qed.

(** X23. The client tells documents apart by their version only, and an
    initialization starts the versions again: after two sequences of saving
    invocations with readable content files and encodable texts that each begin with an initialization
    and go on with the same number of invocations, none of which
    initializes, the two documents have the same version, and a client that
    has polled the first does not apply the second. *)
Theorem restarted_debate_is_not_noticed :
  forall (init1 init2 : arguments * env) (rest1 rest2 : list (arguments * env))
         (w : world) (st0 : state) (p : poller),
    initializes (fst init1) = true ->
    initializes (fst init2) = true ->
    Forall (fun op => saves (fst op)) (init1 :: rest1) ->
    Forall (fun op => saves (fst op)) (init2 :: rest2) ->
    Forall (fun op => initializes (fst op) = false) rest1 ->
    Forall (fun op => initializes (fst op) = false) rest2 ->
    Forall (fun op => usable_input (fst op) (snd op) w = true)
      (init1 :: rest1) ->
    Forall (fun op => usable_input (fst op) (snd op) w = true)
      (init2 :: rest2) ->
    List.length rest1 = List.length rest2 ->
    load_state w = Ok st0 ->
    exists w1 st1 w2 st2,
      run (init1 :: rest1) w = Ok w1 /\ load_state w1 = Ok st1
      /\ run (init2 :: rest2) w1 = Ok w2 /\ load_state w2 = Ok st2
      /\ version st2 = version st1
      /\ page_client (poll (Fetched st2) (poll (Fetched st1) p))
         = page_client (poll (Fetched st1) p).
Proof.
  intros [a1 e1] [a2 e2] rest1 rest2 w st0 p Hi1 Hi2 Hs1 Hs2 Hn1 Hn2
    Hin1 Hin2 Hlen Hl.
  cbn [fst] in Hi1, Hi2.
  assert (Hrun : forall a e rest w0 st,
            initializes a = true ->
            Forall (fun op => saves (fst op)) ((a, e) :: rest) ->
            Forall (fun op => initializes (fst op) = false) rest ->
            Forall (fun op => usable_input (fst op) (snd op) w0 = true)
              ((a, e) :: rest) ->
            load_state w0 = Ok st ->
            exists w' st',
              run ((a, e) :: rest) w0 = Ok w' /\ load_state w' = Ok st'
              /\ files w' = files w0
              /\ version st' = (1 + Z.of_nat (List.length rest))%Z).
  { intros a e rest w0 st Hi Hs Hn Hin Hl'.
    inversion Hs as [|? ? Ha Hrest]; subst. cbn [fst] in Ha.
    inversion Hin as [|? ? Hia Hinrest]; subst. cbn [fst snd] in Hia.
    assert (Hm0 : encodable_state (mutate a e w0 st) = true)
      by (apply mutate_encodable; [exact Hia | left; exact Hi]).
    destruct (main_version a e w0 st Ha Hl'
                (can_save_usable _ _ _ _ Hia (or_introl Hi)))
      as (wa & sta & Hm & Hla & Esta & Hfa & Hva).
    rewrite Hi in Hva.
    assert (Hea : encodable_state sta = true) by (rewrite Esta; exact Hm0).
    assert (Hina : Forall
                     (fun op => usable_input (fst op) (snd op) wa = true)
                     rest).
    { revert Hinrest. apply Forall_impl. intros op H.
      rewrite (usable_input_files _ _ w0 wa Hfa). exact H. }
    destruct (run_versions rest wa sta Hrest Hina Hla (or_introl Hea))
      as (wb & stb & Hr & Hlb & Hfb & Hvb).
    exists wb, stb. cbn [run]. rewrite Hm.
    split; [exact Hr|]. split; [exact Hlb|].
    split; [rewrite Hfb; exact Hfa|].
    rewrite (Hvb Hn), Hva. lia. }
  destruct (Hrun a1 e1 rest1 w st0 Hi1 Hs1 Hn1 Hin1 Hl)
    as (w1 & st1 & R1 & L1 & F1 & V1).
  assert (Hin2' : Forall
                    (fun op => usable_input (fst op) (snd op) w1 = true)
                    ((a2, e2) :: rest2)).
  { revert Hin2. apply Forall_impl. intros op H.
    rewrite (usable_input_files _ _ w w1 F1). exact H. }
  destruct (Hrun a2 e2 rest2 w1 st1 Hi2 Hs2 Hn2 Hin2' L1)
    as (w2 & st2 & R2 & L2 & _ & V2).
  exists w1, st1, w2, st2.
  do 4 (split; [assumption|]).
  assert (V : version st2 = version st1) by (rewrite V1, V2, Hlen; reflexivity).
  split; [exact V|].
  apply poll_same_version. rewrite poll_knows_version. exact V.
Qed.

(** A saving invocation on a readable document whose content file cannot
    be read raises in the reading, before the save. *)
Lemma main_content_error args ev w st0 e :
  saves args -> load_state w = Ok st0 ->
  content_error args w = Some e ->
  main args ev w = Raise e.
Proof.
  intros [Hs Hp] Hl Hc. unfold main. rewrite Hs, Hp, Hl, Hc. reflexivity.
Qed.

(** An append takes its content from the content file when the file
    exists, whatever the inline content. *)
Lemma content_file_wins args ev w st0 path t :
  saves args -> a_add args = true ->
  a_content_file args = Some path -> truthy path = true ->
  files w path = Some (Text t) ->
  load_state w = Ok st0 ->
  encodable_state (mutate args ev w st0) = true ->
  exists w' st' e,
    main args ev w = Ok w' /\ load_state w' = Ok st'
    /\ last_entry st' = Some e /\ e_content e = t.
Proof.
  intros Hs Ha Hf Hp Ht Hl He.
  assert (Hcs : can_save args ev w st0 = true).
  { apply can_save_parts. split; [|exact He].
    unfold content_error. rewrite Ha, Hf. cbn [truthy_opt text_or andb].
    rewrite Hp, Ht. reflexivity. }
  eexists _, _, _. split; [apply (main_saves _ _ _ _ Hs Hl Hcs)|].
  split; [apply load_after_save|].
  split.
  { unfold last_entry. cbn [set_version entries].
    rewrite (entries_mutate_add _ _ _ _ Ha). unfold do_add. cbn [entries].
    rewrite rev_app_distr. reflexivity. }
  cbn [e_content]. unfold entry_content, path_exists, read_file.
  rewrite Hf. cbn [truthy_opt text_or]. rewrite Hp, Ht. reflexivity.
Qed.

End Viewer.

(** * The properties at concrete inputs

    The Unicode tables are given here by their restriction to ASCII, which
    is all that the inputs below contain. *)

(** C2, as stated, fails at an append whose content is a lone surrogate:
    the invocation triggers a save, the save raises, the state file is left
    without JSON, and no version is persisted. *)
Lemma version_lost_at_lone_surrogate :
  saves (add_args None None (Some lone_surrogate))
  /\ load_state old_world = Ok old_state
  /\ run ascii_digit ascii_lower
       [(add_args None None (Some lone_surrogate), noon)] old_world
     = Raise UnicodeEncodeError
  /\ load_state
       (snd (save_state
               (mutate ascii_lower (add_args None None (Some lone_surrogate))
                  noon old_world old_state) old_world))
     = Raise JSONDecodeError
  /\ ~ (exists w' st',
          run ascii_digit ascii_lower
            [(add_args None None (Some lone_surrogate), noon)] old_world
          = Ok w'
          /\ load_state w' = Ok st'
          /\ version st' = (version old_state + 1)%Z).
Proof.
  split; [split; reflexivity|]. split; [reflexivity|].
  split; [reflexivity|]. split; [reflexivity|].
  intros (w' & st' & H & _). discriminate H.
Qed.

(** C2, amended, at three invocations without initialization on the old
    document, whose version goes from 5 to 8, and at four invocations from
    an empty store (no flag, an append, an initialization, no flag), whose
    version is 2 in the end. *)
Lemma version_increments_at_growing_ops :
  (Forall (fun op => saves (fst op)) growing_ops
   /\ Forall (fun op => usable_input (fst op) (snd op) old_world = true)
        growing_ops
   /\ load_state old_world = Ok old_state
   /\ encodable_state old_state = true
   /\ exists w' st',
        run ascii_digit ascii_lower growing_ops old_world = Ok w'
        /\ load_state w' = Ok st'
        /\ version st' = 8%Z)
  /\ (exists w' st',
        run ascii_digit ascii_lower demo_ops empty_world = Ok w'
        /\ load_state w' = Ok st'
        /\ version st' = 2%Z).
Proof.
  split.
  - assert (Hs : Forall (fun op => saves (fst op)) growing_ops)
      by (repeat constructor).
    assert (Hin : Forall
                    (fun op =>
                       usable_input (fst op) (snd op) old_world = true)
                    growing_ops)
      by (repeat constructor).
    assert (Hni : Forall (fun op => initializes (fst op) = false) growing_ops)
      by (repeat constructor).
    split; [exact Hs|]. split; [exact Hin|]. split; [reflexivity|].
    split; [reflexivity|].
    destruct (version_increments_by_one_per_save ascii_digit ascii_lower
                growing_ops old_world old_state Hs Hin eq_refl eq_refl)
      as (w' & st' & Hr & Hl & _ & _ & Hv & _).
    exists w', st'. split; [exact Hr|]. split; [exact Hl|]. exact (Hv Hni).
  - assert (Hs : Forall (fun op => saves (fst op)) demo_ops)
      by (repeat constructor).
    assert (Hin : Forall
                    (fun op =>
                       usable_input (fst op) (snd op) empty_world = true)
                    demo_ops)
      by (repeat constructor).
    destruct (version_increments_by_one_per_save ascii_digit ascii_lower
                demo_ops empty_world fresh_state Hs Hin eq_refl eq_refl)
      as (w' & st' & Hr & Hl & _ & _ & _ & Hv).
    exists w', st'. split; [exact Hr|]. split; [exact Hl|].
    apply (Hv [ (bare, noon);
                (add_args (Some 1%Z) None (Some (txt "hello")), noon) ]
             (with_init (txt "Topic") bare) noon [ (bare, noon) ]).
    + reflexivity.
    + reflexivity.
    + repeat constructor.
Defined.



(** C5, as stated, fails for a title with a bracket and a parenthesized
    text: the third pass makes a generic link inside the badge, and the
    label is no longer the title and the extra text. *)
Lemma citation_with_tricky_title :
  inline_format (citation_text tricky_title (txt "Y") (txt "u"))
  = html "<a class='citation' href='u' target='_blank' title='a](b)'>"
    ++ generic_link (txt "a") (txt "b") ++ txt ", Y]</a>"
  /\ inline_format (citation_text tricky_title (txt "Y") (txt "u"))
     <> citation_badge tricky_title (txt "Y") (txt "u")
  /\ occurs (html "<a class='source-link'")
       (inline_format (citation_text tricky_title (txt "Y") (txt "u")))
     = true.
Proof.
  split; [vm_compute; reflexivity|].
  split; [|vm_compute; reflexivity].
  intros H. vm_compute in H. discriminate H.
Qed.

(** C5, amended, at the citation of the specification's example inside a
    sentence. *)
Lemma citation_takes_precedence_at_example :
  plain (txt "see ") = true /\ plain (txt "X") = true
  /\ plain (txt "Y") = true /\ plain (txt "http://a") = true
  /\ plain (txt " too") = true
  /\ inline_format
       (txt "see " ++ citation_text (txt "X") (txt "Y") (txt "http://a")
        ++ txt " too")
     = txt "see " ++ citation_badge (txt "X") (txt "Y") (txt "http://a")
       ++ txt " too"
  /\ re_sub re_link link_repl
       (txt "see " ++ citation_text (txt "X") (txt "Y") (txt "http://a")
        ++ txt " too")
     = txt "see "
       ++ generic_link (txt "Source: " ++ quoted (txt "X") ++ txt ", Y")
            (txt "http://a")
       ++ txt " too".
Proof.
  do 5 (split; [reflexivity|]).
  pose proof (citation_takes_precedence (txt "see ") (txt "X") (txt "Y")
                (txt "http://a") (txt " too") eq_refl eq_refl eq_refl eq_refl
                eq_refl ltac:(discriminate) ltac:(discriminate) eq_refl
                eq_refl) as (_ & Hfmt & Hlink & _).
  split; [exact Hfmt | exact Hlink].
Defined.

(** C7 at the empty store. *)
Lemma load_state_at_empty_world :
  state_file empty_world = None
  /\ load_state empty_world = Ok fresh_state
  /\ topic fresh_state = []
  /\ status fresh_state = txt "in_progress"
  /\ thinking fresh_state = None
  /\ current_round fresh_state = 1%Z
  /\ total_rounds fresh_state = 3%Z
  /\ version fresh_state = 0%Z
  /\ entries fresh_state = [].
Proof.
  split; [reflexivity|].
  exact (load_state_missing_file_defaults empty_world eq_refl).
Defined.

(** C8, as stated, fails when an inline content comes with the missing
    content file: the entry has the inline content, not the empty text. *)
Lemma add_missing_file_with_inline_content :
  path_exists old_world (txt "missing.md") = false
  /\ appended
       (main ascii_digit ascii_lower
          (add_args (Some 1%Z) (Some (txt "missing.md")) (Some (txt "inline")))
          noon old_world)
     = Some {| e_round := 1; e_agent := txt "critic";
               e_content := txt "inline"; e_type := txt "turn";
               e_timestamp := txt "12:00" |}
  /\ txt "inline" <> [].
Proof.
  split; [reflexivity|]. split; [reflexivity|]. discriminate.
Qed.

(** C8, amended, at an append for round 3 with a missing content file and
    no inline content, on the old document, whose current round is 2. *)
Lemma add_missing_content_file_at_old_world :
  path_exists old_world (txt "missing.md") = false
  /\ exists w' st' e,
       main ascii_digit ascii_lower
         (add_args (Some 3%Z) (Some (txt "missing.md")) None) noon old_world
       = Ok w'
       /\ load_state w' = Ok st'
       /\ entries st' = [old_entry] ++ [e]
       /\ e_content e = []
       /\ e_round e = 3%Z
       /\ e_agent e = txt "critic"
       /\ e_type e = txt "turn"
       /\ e_timestamp e = txt "12:00".
Proof.
  split; [reflexivity|].
  destruct (add_missing_content_file ascii_digit ascii_lower
              (add_args (Some 3%Z) (Some (txt "missing.md")) None) noon
              old_world old_state (txt "missing.md")
              (conj eq_refl eq_refl) eq_refl eq_refl eq_refl eq_refl eq_refl)
    as (w' & st' & e & Hm & Hl & He & Hc & _ & Hr & Ha & Ht & Hts).
  exists w', st', e. repeat split; assumption.
Defined.

(** C9 at an append with round 0 on the old document, whose current round
    is 2. *)
Lemma add_round_zero_at_old_world :
  load_state old_world = Ok old_state
  /\ exists w' st' e,
       main ascii_digit ascii_lower (add_args (Some 0%Z) None None) noon
         old_world = Ok w'
       /\ load_state w' = Ok st'
       /\ last_entry st' = Some e
       /\ e_round e = 2%Z
       /\ (current_round old_state <> 0%Z -> e_round e <> 0%Z)
       /\ main ascii_digit ascii_lower
            (with_round None (add_args (Some 0%Z) None None)) noon old_world
          = Ok w'.
Proof.
  split; [reflexivity|].
  exact (add_round_zero_uses_current_round ascii_digit ascii_lower
           (add_args (Some 0%Z) None None) noon old_world old_state
           (conj eq_refl eq_refl) eq_refl eq_refl eq_refl eq_refl).
Defined.



(** The two block renderers agree on the mixed content, which is rendered
    as a header, a list, a paragraph and a table. *)
Lemma renderers_agree_at_mixed_content :
  neutral_text ascii_digit mixed_content = true
  /\ md_to_html ascii_digit mixed_content = mdToHtml mixed_content
  /\ tag_sequence (mdToHtml mixed_content)
     = map txt
         [ "h3"; "/h3"; "ul"; "li"; "strong"; "/strong"; "/li";
           "li"; "code"; "/code"; "/li"; "/ul";
           "p"; "a"; "/a"; "span"; "/span"; "/p";
           "table"; "thead"; "tr"; "th"; "/th"; "th"; "/th"; "/tr"; "/thead";
           "tbody"; "tr"; "td"; "/td"; "td"; "/td"; "/tr"; "/tbody";
           "/table" ]%string.
Proof.
  split; [reflexivity|].
  split; [|vm_compute; reflexivity].
  exact (renderers_agree_on_neutral_text ascii_digit mixed_content eq_refl).
Defined.

(** The command line keeps round 0 out of the old document, also with the
    round arguments 0. *)
Lemma never_round_zero_at_old_world :
  load_state old_world = Ok old_state
  /\ no_round_zero old_state
  /\ exists w' st',
       run ascii_digit ascii_lower
         [ (add_args (Some 0%Z) None None, noon);
           (with_set_round (Some 0%Z) bare, noon) ] old_world = Ok w'
       /\ load_state w' = Ok st'
       /\ no_round_zero st'.
Proof.
  assert (H0 : no_round_zero old_state).
  { split; [discriminate|]. repeat constructor. discriminate. }
  split; [reflexivity|]. split; [exact H0|].
  eexists. eexists. split; [reflexivity|]. split; [reflexivity|].
  exact (command_line_never_stores_round_zero ascii_digit ascii_lower
           [ (add_args (Some 0%Z) None None, noon);
             (with_set_round (Some 0%Z) bare, noon) ]
           old_world old_state _ _ eq_refl H0 eq_refl eq_refl).
Defined.

(** Three invocations without initialization on the old document: two
    entries are appended. *)
Lemma entries_append_only_at_growing_ops :
  Forall (fun op => saves (fst op)) growing_ops
  /\ Forall (fun op => initializes (fst op) = false) growing_ops
  /\ Forall (fun op => usable_input (fst op) (snd op) old_world = true)
       growing_ops
  /\ load_state old_world = Ok old_state
  /\ encodable_state old_state = true
  /\ exists w' st' added,
       run ascii_digit ascii_lower growing_ops old_world = Ok w'
       /\ load_state w' = Ok st'
       /\ entries st' = entries old_state ++ added
       /\ List.length added = count_adds growing_ops
       /\ topic st' = topic old_state.
Proof.
  assert (Hs : Forall (fun op => saves (fst op)) growing_ops)
    by (repeat constructor).
  assert (Hi : Forall (fun op => initializes (fst op) = false) growing_ops)
    by (repeat constructor).
  assert (Hin : Forall
                  (fun op => usable_input (fst op) (snd op) old_world = true)
                  growing_ops)
    by (repeat constructor).
  split; [exact Hs|]. split; [exact Hi|]. split; [exact Hin|].
  split; [reflexivity|]. split; [reflexivity|].
  exact (entries_append_only ascii_digit ascii_lower growing_ops old_world
           old_state Hs Hi Hin eq_refl eq_refl).
Defined.

(** The total number of rounds after four invocations from an empty store,
    an initialization among them. *)
Lemma total_rounds_at_demo_ops :
  load_state empty_world = Ok fresh_state
  /\ exists w',
       run ascii_digit ascii_lower demo_ops empty_world = Ok w'
       /\ exists st',
            load_state w' = Ok st'
            /\ total_rounds st' = total_rounds fresh_state.
Proof.
  split; [reflexivity|]. eexists. split; [reflexivity|].
  exact (total_rounds_never_changes ascii_digit ascii_lower demo_ops
           empty_world _ fresh_state eq_refl eq_refl).
Defined.

(** Starting a server next to a state file that holds no JSON. *)
Lemma serve_at_broken_world :
  (a_serve (with_serve true bare) = true
   \/ a_stop_server (with_serve true bare) = true)
  /\ exists w',
       main ascii_digit ascii_lower (with_serve true bare) noon broken_world
       = Ok w'
       /\ state_file w' = state_file broken_world
       /\ html_file w' = html_file broken_world
       /\ files w' = files broken_world.
Proof.
  split; [left; reflexivity|].
  exact (serve_and_stop_leave_the_files ascii_digit ascii_lower
           (with_serve true bare) noon broken_world (or_introl eq_refl)).
Defined.


(** An append with [--set-round 3] on the old document, whose current round
    is 2. *)
Lemma add_with_set_round_at_old_world :
  load_state old_world = Ok old_state
  /\ exists w' st' e,
       main ascii_digit ascii_lower
         (with_set_round (Some 3%Z) (add_args None None (Some (txt "one"))))
         noon old_world = Ok w'
       /\ load_state w' = Ok st'
       /\ last_entry st' = Some e
       /\ e_round e = 2%Z
       /\ current_round st' = 3%Z.
Proof.
  split; [reflexivity|].
  assert (H3 : 3%Z <> 0%Z) by discriminate.
  exact (add_with_set_round_uses_previous_round ascii_digit ascii_lower
           (with_set_round (Some 3%Z) (add_args None None (Some (txt "one"))))
           noon old_world old_state 3%Z
           (conj eq_refl eq_refl) eq_refl eq_refl eq_refl H3 eq_refl eq_refl).
Defined.

(** An initialization with an append on the old document. *)
Lemma init_with_add_at_old_world :
  truthy (txt "Topic") = true
  /\ load_state old_world = Ok old_state
  /\ exists w' st' e,
       main ascii_digit ascii_lower
         (with_init (txt "Topic") (add_args None None (Some (txt "one"))))
         noon old_world = Ok w'
       /\ load_state w' = Ok st'
       /\ entries st' = [e]
       /\ e_round e = 1%Z
       /\ e_content e = txt "one"
       /\ topic st' = txt "Topic".
Proof.
  split; [reflexivity|]. split; [reflexivity|].
  exact (init_with_add_starts_over ascii_digit ascii_lower (txt "Topic")
           (with_init (txt "Topic") (add_args None None (Some (txt "one"))))
           noon old_world old_state eq_refl eq_refl (conj eq_refl eq_refl)
           eq_refl eq_refl eq_refl).
Defined.

(** The page after an invocation without any flag, a server started, an
    append and a server started again. *)
Lemma page_matches_document_at_serving_ops :
  saves bare
  /\ exists w',
       run ascii_digit ascii_lower ((bare, noon) :: serving_ops) old_world
       = Ok w'
       /\ consistent ascii_digit ascii_lower w'.
Proof.
  split; [split; reflexivity|]. eexists. split; [reflexivity|].
  exact (page_matches_document ascii_digit ascii_lower bare noon serving_ops
           old_world _ (conj eq_refl eq_refl) eq_refl).
Defined.

(** The servers after a server started, an append and a server started
    again, from an empty store. *)
Lemma at_most_one_server_at_serving_ops :
  servers_tracked empty_world
  /\ exists w',
       run ascii_digit ascii_lower serving_ops empty_world = Ok w'
       /\ servers w' = [4343%Z]
       /\ servers_tracked w'
       /\ (List.length (servers w') <= 1)%nat
       /\ servers (stop_server w') = []
       /\ (forall ev, servers (start_server ev w') = [spawned_pid ev]
                      /\ pid_file (start_server ev w') = Some (spawned_pid ev)).
Proof.
  split; [reflexivity|]. eexists. split; [reflexivity|].
  split; [reflexivity|].
  exact (at_most_one_server ascii_digit ascii_lower serving_ops empty_world _
           eq_refl eq_refl).
Defined.

(** The client of the examples: the script with the parser and the numbers
    at these inputs. *)
Local Abbreviation update :=
  (applyUpdate ascii_lower nothing_with_id no_dividers unused_number
     unused_string unused_parseInt).
Local Abbreviation poll_once :=
  (poll ascii_lower nothing_with_id no_dividers unused_number
     unused_string unused_parseInt).
Local Abbreviation poll_all :=
  (polls ascii_lower nothing_with_id no_dividers unused_number
     unused_string unused_parseInt).

(** The update of the client of the old document with the third document:
    the bubbles of the second and of the third entry are appended. *)
Lemma update_at_old_client :
  quiet_feed nothing_with_id no_dividers (feed old_client) = true
  /\ bubbles (feed (update state_three old_client))
     = [ txt "first bubble"; renderBubble ascii_lower second_entry true;
         renderBubble ascii_lower third_entry true ]
  /\ renderedEntryCount (update state_three old_client) = 3%nat
  /\ knownVersion (update state_three old_client) = 7%Z.
Proof.
  split; [reflexivity|].
  exact (update_appends_the_new_entries ascii_lower nothing_with_id
           no_dividers unused_number unused_string unused_parseInt
           state_three old_client eq_refl).
Defined.

(** Two updates of the client of the old document: the second entry, then
    the third. *)
Lemma updates_compose_at_old_client :
  quiet_feed nothing_with_id no_dividers (feed old_client) = true
  /\ forallb (quiet_entry ascii_lower nothing_with_id no_dividers)
       (entries state_two) = true
  /\ entries state_three = entries state_two ++ [third_entry]
  /\ (renderedEntryCount old_client <= List.length (entries state_two))%nat
  /\ bubbles (feed (update state_three (update state_two old_client)))
     = bubbles (feed (update state_three old_client))
  /\ bubbles (feed (update state_two (update state_two old_client)))
     = bubbles (feed (update state_two old_client)).
Proof.
  assert (Hn : (renderedEntryCount old_client
                <= List.length (entries state_two))%nat) by (cbn; lia).
  split; [reflexivity|]. split; [reflexivity|].
  split; [reflexivity|]. split; [exact Hn|].
  exact (updates_compose ascii_lower nothing_with_id no_dividers
           unused_number unused_string unused_parseInt
           state_two state_three old_client [third_entry]
           eq_refl eq_refl eq_refl Hn).
Defined.

(** The thinking bubble and the placeholder after the update of the client
    of the old document with the third document. *)
Lemma placeholders_at_old_client :
  quiet_feed nothing_with_id no_dividers (feed old_client) = true
  /\ (count_thinking (feed old_client) <= 1)%nat
  /\ (count_empty_state (feed old_client) <= 1)%nat
  /\ count_thinking (feed (update state_three old_client)) = 1%nat
  /\ count_empty_state (feed (update state_three old_client)) = 0%nat.
Proof.
  assert (Ht : (count_thinking (feed old_client) <= 1)%nat) by (cbn; lia).
  assert (He : (count_empty_state (feed old_client) <= 1)%nat) by (cbn; lia).
  split; [reflexivity|]. split; [exact Ht|]. split; [exact He|].
  exact (placeholders_after_update ascii_lower nothing_with_id no_dividers
           unused_number unused_string unused_parseInt
           state_three old_client eq_refl Ht He).
Defined.

(** The divider of round 2 after the dividers of a feed. *)
Lemma divider_read_back_at_round_two :
  safe_integer 2 = true
  /\ rendered_rounds no_dividers unused_parseInt
       (feed old_client ++ [renderRoundDivider unused_string 2])
     = [1%Z; 2%Z]
  /\ renderRoundDivider unused_string 2 = RoundDivider (txt "Round 2").
Proof.
  split; [reflexivity|].
  exact (divider_labels_are_read_back no_dividers unused_string
           unused_parseInt (feed old_client) 2%Z eq_refl).
Defined.

(** The dividers after the update of the client of the old document with
    the third document: the divider of round 1 that was there, and one
    for round 2. *)
Lemma dividers_at_old_client :
  quiet_feed nothing_with_id no_dividers (feed old_client) = true
  /\ divider_labels no_dividers (feed old_client) = map round_label [1%Z]
  /\ exists rs',
       divider_labels no_dividers (feed (update state_three old_client))
       = map round_label ([1%Z] ++ rs')
       /\ NoDup ([1%Z] ++ rs')
       /\ Forall (fun r => exact_round r = true) ([1%Z] ++ rs')
       /\ NoDup (divider_labels no_dividers
                   (feed (update state_three old_client)))
       /\ quiet_feed nothing_with_id no_dividers
            (feed (update state_three old_client)) = true
       /\ forall r, In r rs' <->
            ~ In r [1%Z]
            /\ exists e, In e (skipn (renderedEntryCount old_client)
                                 (entries state_three))
                         /\ client_round unused_number e = r.
Proof.
  split; [reflexivity|]. split; [reflexivity|].
  assert (Hnd : NoDup [1%Z]) by (constructor; [intros [] | constructor]).
  assert (Hpos : Forall (fun r => exact_round r = true) [1%Z])
    by (repeat constructor).
  assert (Hes : Forall
                  (fun e => exact_round (e_round e) = true
                            /\ quiet_entry ascii_lower nothing_with_id
                                 no_dividers e = true)
                  (entries state_three))
    by (repeat constructor).
  exact (dividers_stay_distinct ascii_lower nothing_with_id no_dividers
           unused_number unused_string unused_parseInt
           state_three old_client [1%Z] eq_refl eq_refl Hnd Hpos Hes).
Defined.

(** A content with tags and an ampersand goes through both inline
    formatters as it is. *)
Lemma inline_formatters_at_raw_markup :
  no_inline_markup (txt "<b>5 > 3</b> & more") = true
  /\ inline_format (txt "<b>5 > 3</b> & more") = txt "<b>5 > 3</b> & more"
  /\ inlineFmt (txt "<b>5 > 3</b> & more") = txt "<b>5 > 3</b> & more".
Proof.
  split; [reflexivity|].
  exact (inline_formatters_copy_text_without_markup
           (txt "<b>5 > 3</b> & more") eq_refl).
Defined.

(** The polls of the client of the old document: a failure, the second
    document, a failure. *)
Lemma polling_at_old_client :
  pollTimer (on_load old_client) <> None
  /\ isCompleted (page_client (on_load old_client)) = false
  /\ forallb not_completed [FetchFailed; Fetched state_two; FetchFailed] = true
  /\ pollTimer (poll_all
                  [FetchFailed; Fetched state_two; FetchFailed]
                  (on_load old_client)) <> None
  /\ isCompleted (page_client
                    (poll_all
                       [FetchFailed; Fetched state_two; FetchFailed]
                       (on_load old_client))) = false
  /\ page_client (poll_once FetchFailed (on_load old_client))
     = page_client (on_load old_client)
  /\ pollTimer (poll_once FetchFailed (on_load old_client))
     = Some (2 * POLL_INTERVAL).
Proof.
  assert (Ht : pollTimer (on_load old_client) <> None) by discriminate.
  split; [exact Ht|]. split; [reflexivity|]. split; [reflexivity|].
  exact (polling_goes_on_until_completion ascii_lower nothing_with_id
           no_dividers unused_number unused_string unused_parseInt
           [FetchFailed; Fetched state_two; FetchFailed] (on_load old_client)
           Ht eq_refl eq_refl).
Defined.

(** The client of the old document polls the third document once the
    debate is completed, and then the second document. *)
Lemma completed_page_at_old_client :
  pollTimer (on_load old_client) <> None
  /\ version (set_status (txt "completed") state_three)
     <> knownVersion (page_client (on_load old_client))
  /\ poll_all
       [Fetched (set_status (txt "completed") state_three); Fetched state_two]
       (on_load old_client)
     = poll_once (Fetched (set_status (txt "completed") state_three))
         (on_load old_client)
  /\ pollTimer
       (poll_once (Fetched (set_status (txt "completed") state_three))
          (on_load old_client)) = None.
Proof.
  assert (Ht : pollTimer (on_load old_client) <> None) by discriminate.
  assert (Hv : version (set_status (txt "completed") state_three)
               <> knownVersion (page_client (on_load old_client)))
    by discriminate.
  split; [exact Ht|]. split; [exact Hv|].
  pose proof (completed_page_stops_polling ascii_lower nothing_with_id
                no_dividers unused_number unused_string unused_parseInt
                (set_status (txt "completed") state_three) [Fetched state_two]
                (on_load old_client) old_client Ht Hv eq_refl)
    as (H1 & _ & H3 & _).
  split; [exact H1 | exact H3].
Defined.

(** Two debates, each an initialization and one append, from an empty
    store: the client that has polled the first does not apply the
    second. *)
Lemma restarted_debate_at_empty_world :
  load_state empty_world = Ok fresh_state
  /\ exists w1 st1 w2 st2,
       run ascii_digit ascii_lower
         [ (with_init (txt "A") bare, noon);
           (add_args None None (Some (txt "one")), noon) ] empty_world
       = Ok w1
       /\ load_state w1 = Ok st1
       /\ run ascii_digit ascii_lower
            [ (with_init (txt "B") bare, noon);
              (add_args None None (Some (txt "two")), noon) ] w1
          = Ok w2
       /\ load_state w2 = Ok st2
       /\ version st2 = version st1
       /\ page_client
            (poll_once (Fetched st2)
               (poll_once (Fetched st1) (on_load old_client)))
          = page_client (poll_once (Fetched st1) (on_load old_client)).
Proof.
  split; [reflexivity|].
  assert (Hs1 : Forall (fun op => saves (fst op))
                  [ (with_init (txt "A") bare, noon);
                    (add_args None None (Some (txt "one")), noon) ])
    by (repeat constructor).
  assert (Hs2 : Forall (fun op => saves (fst op))
                  [ (with_init (txt "B") bare, noon);
                    (add_args None None (Some (txt "two")), noon) ])
    by (repeat constructor).
  assert (Hn1 : Forall (fun op => initializes (fst op) = false)
                  [ (add_args None None (Some (txt "one")), noon) ])
    by (repeat constructor).
  assert (Hn2 : Forall (fun op => initializes (fst op) = false)
                  [ (add_args None None (Some (txt "two")), noon) ])
    by (repeat constructor).
  assert (Hin1 : Forall
                   (fun op =>
                      usable_input (fst op) (snd op) empty_world = true)
                   [ (with_init (txt "A") bare, noon);
                     (add_args None None (Some (txt "one")), noon) ])
    by (repeat constructor).
  assert (Hin2 : Forall
                   (fun op =>
                      usable_input (fst op) (snd op) empty_world = true)
                   [ (with_init (txt "B") bare, noon);
                     (add_args None None (Some (txt "two")), noon) ])
    by (repeat constructor).
  exact (restarted_debate_is_not_noticed ascii_digit ascii_lower ascii_lower
           nothing_with_id no_dividers unused_number unused_string
           unused_parseInt
           (with_init (txt "A") bare, noon) (with_init (txt "B") bare, noon)
           [ (add_args None None (Some (txt "one")), noon) ]
           [ (add_args None None (Some (txt "two")), noon) ]
           empty_world fresh_state (on_load old_client)
           eq_refl eq_refl Hs1 Hs2 Hn1 Hn2 Hin1 Hin2 eq_refl eq_refl).
Defined.

(** The content files at work: a text is read and wins over the inline
    content; a directory and a file that is not UTF-8 end the invocation
    before the save. *)
Lemma content_files_at_library_world :
  (exists w' st' e,
     main ascii_digit ascii_lower
       (add_args None (Some (txt "turn.md")) (Some (txt "inline"))) noon
       library_world = Ok w'
     /\ load_state w' = Ok st' /\ last_entry st' = Some e
     /\ e_content e = txt "from the file")
  /\ main ascii_digit ascii_lower
       (add_args None (Some (txt "notes")) None) noon library_world
     = Raise IsADirectoryError
  /\ main ascii_digit ascii_lower
       (add_args None (Some (txt "latin1.md")) (Some (txt "inline"))) noon
       library_world
     = Raise UnicodeDecodeError.
Proof.
  split; [|split; reflexivity].
  exact (content_file_wins ascii_digit ascii_lower
           (add_args None (Some (txt "turn.md")) (Some (txt "inline"))) noon
           library_world old_state (txt "turn.md") (txt "from the file")
           (conj eq_refl eq_refl) eq_refl eq_refl eq_refl eq_refl eq_refl
           eq_refl).
Qed.
